(** * thing-commander: command protocol layer

    A shallow embedding of [app/commander.js], [app/shell.js] and
    [app/arg-parser.js] and the properties of the command protocol stated
    for them.

    The JavaScript values that reach the protocol layer are embedded as an
    inductive type; the built-ins the code calls ([typeof], [||],
    [String.prototype.substring], [String.prototype.indexOf], [JSON.stringify],
    [JSON.parse], [parseInt]) are embedded next to it.  The Commander is a
    record threaded through a state-and-exception monad; the transport is the
    log of [publish] calls. *)

From Stdlib Require Import String Ascii List ZArith NArith Bool Lia.
From Stdlib Require Import DecimalString DecimalN DecimalFacts Finite.
From Stdlib Require Import Floats.SpecFloat.
Import ListNotations.
Local Open Scope list_scope.
Local Open Scope string_scope.

(** ** Numbers *)

(** Decimal numerals. *)
Definition dec (n : N) : string := NilEmpty.string_of_uint (N.to_uint n).

(** The Number type: IEEE 754 binary64, rounding to nearest, ties to even,
    with the rounding of the Standard Library's specification of floating
    point arithmetic. *)
Module Double.

Definition prec : Z := 53.
Definition emax : Z := 1024.

(** A number that is not an integer of magnitude at most 2^53: [m * 2^e]
    with its sign, [m] and [e] being the mantissa and the exponent of the
    binary64 value, or an infinity. *)
Inductive float64 : Type :=
| Finite (negative : bool) (m : positive) (e : Z)
| Infinity (negative : bool).

Inductive number : Type :=
| Int (n : Z)
| Float (f : float64).

Definition two53 : Z := 9007199254740992.

Definition signed (negative : bool) (n : Z) : Z :=
  if negative then (- n)%Z else n.

Definition classify (x : spec_float) : number :=
  match x with
  | S754_zero _ | S754_nan => Int 0
  | S754_infinity s => Float (Infinity s)
  | S754_finite s m e =>
      if (0 <=? e)%Z then
        if (Zpos m * 2 ^ e <=? two53)%Z then Int (signed s (Zpos m * 2 ^ e))
        else Float (Finite s m e)
      else if (Zpos m mod 2 ^ (- e) =? 0)%Z
      then Int (signed s (Zpos m / 2 ^ (- e)))
      else Float (Finite s m e)
  end.

(** The Number value for an integer: the integer itself up to 2^53, the
    binary64 value nearest to it beyond. *)
Definition of_integer (negative : bool) (n : N) : number :=
  match n with
  | N0 => Int 0
  | Npos p =>
      if (Zpos p <=? two53)%Z then Int (signed negative (Zpos p))
      else classify (binary_round prec emax negative p 0)
  end.

Definition of_Z (z : Z) : number := of_integer (z <? 0)%Z (Z.abs_N z).

(** The Number value for the quotient [n / d]. *)
Definition of_quotient (negative : bool) (n d : positive) : number :=
  let '(q, e, l) := SFdiv_core_binary prec emax (Zpos n) 0 (Zpos d) 0 in
  classify (binary_round_aux prec emax negative q e l).

Definition digits10 (n : N) : Z := Z.of_nat (String.length (dec n)).

(** The Number value for [D * 10^E].  Beyond [10^310] every value is an
    infinity and below [10^-330] every value is zero. *)
Definition of_decimal (negative : bool) (D : N) (E : Z) : number :=
  match D with
  | N0 => Int 0
  | Npos p =>
      if (0 <=? E)%Z then
        if (310 <? E)%Z then Float (Infinity negative)
        else of_integer negative (D * 10 ^ Z.to_N E)
      else if (E + digits10 D <? -330)%Z then Int 0
      else of_quotient negative p (Z.to_pos (10 ^ (- E)))
  end.

(** [m * 2^e / 10^q] as a quotient of two integers. *)
Definition scaled (m : positive) (e q : Z) : Z * Z :=
  (Zpos m * 2 ^ Z.max e 0 * 10 ^ Z.max (- q) 0,
   2 ^ Z.max (- e) 0 * 10 ^ Z.max q 0)%Z.

(** For [m * 2^e] below one, the least [t] with [10^-t <= m * 2^e]. *)
Fixpoint below_one (fuel : nat) (m : positive) (e : Z) (t : Z) : Z :=
  match fuel with
  | O => t
  | S f =>
      if (2 ^ (- e) <=? Zpos m * 10 ^ t)%Z then t
      else below_one f m e (t + 1)%Z
  end.

(** The [n] with [10^(n-1) <= m * 2^e < 10^n]. *)
Definition magnitude (m : positive) (e : Z) : Z :=
  if (0 <=? e)%Z then digits10 (Z.to_N (Zpos m * 2 ^ e))
  else
    let whole := (Zpos m / 2 ^ (- e))%Z in
    if (0 <? whole)%Z then digits10 (Z.to_N whole)
    else (1 - below_one 400 m e 1)%Z.

(** The decimals of [k] digits next to [m * 2^e], the one below it and the
    one above, each with its exponent [n], the nearer one first (of two as
    near, the even one). *)
Definition candidates (m : positive) (e : Z) (n0 k : Z) : list (N * Z) :=
  let q := (n0 - k)%Z in
  let (num, den) := scaled m e q in
  let lo := (num / den)%Z in
  let r := (num mod den)%Z in
  let below := (Z.to_N lo, n0) in
  let above :=
    if (lo + 1 =? 10 ^ k)%Z then (Z.to_N (10 ^ (k - 1)), (n0 + 1)%Z)
    else (Z.to_N (lo + 1), n0) in
  if (r =? 0)%Z then [below]
  else
    match (2 * r ?= den)%Z with
    | Lt => [below; above]
    | Gt => [above; below]
    | Eq => if Z.even lo then [below; above] else [above; below]
    end.

(** Whether [s * 10^(n-k)] is a decimal whose Number value is [m * 2^e]. *)
Definition denotes (negative : bool) (m : positive) (e : Z) (k : Z)
    (c : N * Z) : bool :=
  match of_decimal negative (fst c) (snd c - k) with
  | Float (Finite s m' e') =>
      Bool.eqb s negative && (m' =? m)%positive && (e' =? e)%Z
  | _ => false
  end.

(** The shortest decimal whose Number value is [m * 2^e], from [k] digits
    on: its digits [s], their number and the exponent [n], for the value
    [s * 10^(n-k)]. *)
Fixpoint shortest (fuel : nat) (negative : bool) (m : positive) (e : Z)
    (n0 k : Z) : option (N * Z * Z) :=
  match fuel with
  | O => None
  | S f =>
      match filter (denotes negative m e k) (candidates m e n0 k) with
      | c :: _ => Some (fst c, k, snd c)
      | [] => shortest f negative m e n0 (k + 1)%Z
      end
  end.

(** Seventeen digits are enough for every binary64 value. *)
Definition digits_of (negative : bool) (m : positive) (e : Z) : N * Z * Z :=
  let n0 := magnitude m e in
  match shortest 17 negative m e n0 1 with
  | Some d => d
  | None =>
      match candidates m e n0 17 with
      | c :: _ => (fst c, 17%Z, snd c)
      | [] => (0%N, 1%Z, 1%Z)
      end
  end.

Fixpoint zeros (n : nat) : string :=
  match n with
  | O => EmptyString
  | S n' => String "0" (zeros n')
  end.

(** The first [n] characters of a string and the others. *)
Fixpoint split_at (n : nat) (s : string) : string * string :=
  match n, s with
  | S n', String c r => let (a, b) := split_at n' r in (String c a, b)
  | _, _ => (EmptyString, s)
  end.

(** The notation of Number::toString for the digits [s], their number [k]
    and the exponent [n]. *)
Definition format (s : N) (k n : Z) : string :=
  let ds := dec s in
  if ((k <=? n) && (n <=? 21))%Z then ds ++ zeros (Z.to_nat (n - k))
  else if ((0 <? n) && (n <=? 21))%Z then
    let (whole, fraction) := split_at (Z.to_nat n) ds in
    whole ++ "." ++ fraction
  else if ((-6 <? n) && (n <=? 0))%Z then "0." ++ zeros (Z.to_nat (- n)) ++ ds
  else
    let exponent :=
      "e" ++ (if (0 <=? n - 1)%Z then "+" else "-") ++ dec (Z.abs_N (n - 1)) in
    match ds with
    | String d EmptyString => String d exponent
    | String d rest => String d ("." ++ rest) ++ exponent
    | EmptyString => exponent
    end.

(** Number::toString. *)
Definition to_string (x : number) : string :=
  match x with
  | Int n => if (n <? 0)%Z then "-" ++ dec (Z.abs_N n) else dec (Z.abs_N n)
  | Float (Infinity false) => "Infinity"
  | Float (Infinity true) => "-Infinity"
  | Float (Finite negative m e) =>
      let '(s, k, n) := digits_of negative m e in
      (if negative then "-" else EmptyString) ++ format s k n
  end.

End Double.

(** ** JavaScript values and built-ins *)

Module JS.

(** A number is [NaN], an integer of magnitude at most 2^53 ([VNum]), or any
    other binary64 value ([VFloat]); [VNum n] with a larger [n] stands for
    the Number value for [n], as the numeral [n] does in the source.  Zero
    has no sign: nothing the code does tells [-0] from [0].  Strings range
    over 8-bit code units.  An object is its own enumerable properties in
    enumeration order. *)
#[local] Unset Elimination Schemes.
Inductive value : Type :=
| VUndefined
| VNull
| VBool (b : bool)
| VNaN
| VNum (n : Z)
| VFloat (f : Double.float64)
| VStr (s : string)
| VArr (elems : list value)
| VObj (props : list (string * value)).
#[local] Set Elimination Schemes.

Definition typeof (v : value) : string :=
  match v with
  | VUndefined => "undefined"
  | VNull => "object"
  | VBool _ => "boolean"
  | VNaN | VNum _ | VFloat _ => "number"
  | VStr _ => "string"
  | VArr _ | VObj _ => "object"
  end.

(** ToBoolean. *)
Definition truthy (v : value) : bool :=
  match v with
  | VUndefined | VNull | VNaN => false
  | VBool b => b
  | VNum n => negb (n =? 0)%Z
  | VFloat _ => true
  | VStr s => negb (s =? EmptyString)
  | VArr _ | VObj _ => true
  end.

(** [a || b] on two values already evaluated. *)
Definition or (a b : value) : value := if truthy a then a else b.

(** [v === 'lit'] for a string literal. *)
Definition is_str (v : value) (lit : string) : bool :=
  match v with
  | VStr s => s =? lit
  | _ => false
  end.

(** [v === undefined]. *)
Definition is_undefined (v : value) : bool :=
  match v with
  | VUndefined => true
  | _ => false
  end.

(** [typeof v !== 'string' || v.length <= 0], the test the code applies to
    every mandatory string argument. *)
Definition not_nonempty_string (v : value) : bool :=
  match v with
  | VStr s => (Z.of_nat (String.length s) <=? 0)%Z
  | _ => true
  end.

Fixpoint assoc (k : string) (props : list (string * value)) : option value :=
  match props with
  | [] => None
  | (k', v) :: rest => if k' =? k then Some v else assoc k rest
  end.

(** [o.k] for an object that is not [null] or [undefined]. *)
Definition get (o : value) (k : string) : value :=
  match o with
  | VObj props =>
      match assoc k props with
      | Some v => v
      | None => VUndefined
      end
  | _ => VUndefined
  end.

(** The array index a property name stands for: the canonical numeral of an
    integer below 2^32 - 1. *)
Definition array_index (k : string) : option N :=
  match NilEmpty.uint_of_string k with
  | Some u =>
      let n := N.of_uint u in
      if (dec n =? k) && (n <? 4294967295)%N then Some n else None
  | None => None
  end.

(** Whether a new property [k] is enumerated before the property [k']: the
    array indices come first, in ascending order, then the other names in
    the order they were added. *)
Definition enumerated_before (k k' : string) : bool :=
  match array_index k, array_index k' with
  | Some i, Some j => (i <? j)%N
  | Some _, None => true
  | None, _ => false
  end.

(** [o[k] = v] on a property list: an existing property keeps its place, a
    new one goes to its place in the enumeration order. *)
Fixpoint put (k : string) (v : value) (props : list (string * value))
  : list (string * value) :=
  match props with
  | [] => [(k, v)]
  | (k', v') :: rest =>
      if k' =? k then (k', v) :: rest
      else if enumerated_before k k' then (k, v) :: (k', v') :: rest
      else (k', v') :: put k v rest
  end.

Definition set (o : value) (k : string) (v : value) : value :=
  match o with
  | VObj props => VObj (put k v props)
  | _ => o
  end.

(** The value a Number is held as. *)
Definition number_value (x : Double.number) : value :=
  match x with
  | Double.Int n => VNum n
  | Double.Float f => VFloat f
  end.

(** Number::toString. *)
Definition number_to_string (z : Z) : string :=
  Double.to_string (Double.of_Z z).

Fixpoint join (sep : string) (parts : list string) : string :=
  match parts with
  | [] => EmptyString
  | [p] => p
  | p :: rest => p ++ sep ++ join sep rest
  end.

(** ToString. *)
Fixpoint to_string (v : value) : string :=
  match v with
  | VUndefined => "undefined"
  | VNull => "null"
  | VBool true => "true"
  | VBool false => "false"
  | VNaN => "NaN"
  | VNum n => number_to_string n
  | VFloat f => Double.to_string (Double.Float f)
  | VStr s => s
  | VArr elems =>
      join ","
        (map (fun e =>
                match e with
                | VUndefined | VNull => EmptyString
                | _ => to_string e
                end) elems)
  | VObj _ => "[object Object]"
  end.

(** ['lit' + v] and [s + v]. *)
Definition concat (s : string) (v : value) : string := s ++ to_string v.

Definition clamp (len i : Z) : Z := Z.min (Z.max i 0) len.

(** [s.substring(from, to)]: both indices are clamped to [0, length] and
    swapped when out of order. *)
Definition substring (s : string) (from to : Z) : string :=
  let len := Z.of_nat (String.length s) in
  let a := clamp len from in
  let b := clamp len to in
  let lo := Z.min a b in
  let hi := Z.max a b in
  String.substring (Z.to_nat lo) (Z.to_nat (hi - lo)) s.

Fixpoint indexOf_from (i : Z) (s p : string) : Z :=
  if String.prefix p s then i
  else match s with
       | EmptyString => (-1)%Z
       | String _ s' => indexOf_from (i + 1) s' p
       end.

(** [s.indexOf(p)]. *)
Definition indexOf (s p : string) : Z := indexOf_from 0 s p.

End JS.

(** ** JSON.stringify and JSON.parse *)

Module JSON.
Import JS.

Definition dquote : ascii := "034"%char.
Definition backslash : ascii := "092"%char.

Definition hex_digit (n : N) : ascii :=
  match String.get (N.to_nat n) "0123456789abcdef" with
  | Some c => c
  | None => "0"%char
  end.

(** QuoteJSONString, one code unit. *)
Definition quote_char (c : ascii) : string :=
  if (c =? dquote)%char then String backslash (String dquote EmptyString)
  else if (c =? backslash)%char then String backslash (String backslash EmptyString)
  else if (c =? "008")%char then String backslash "b"
  else if (c =? "012")%char then String backslash "f"
  else if (c =? "010")%char then String backslash "n"
  else if (c =? "013")%char then String backslash "r"
  else if (c =? "009")%char then String backslash "t"
  else if (N_of_ascii c <? 32)%N then
    String backslash
      (String "u" (String "0" (String "0"
        (String (hex_digit (N_of_ascii c / 16))
          (String (hex_digit (N_of_ascii c mod 16)) EmptyString)))))
  else String c EmptyString.

Fixpoint quote_body (s : string) : string :=
  match s with
  | EmptyString => EmptyString
  | String c s' => quote_char c ++ quote_body s'
  end.

Definition quote (s : string) : string :=
  String dquote (quote_body s ++ String dquote EmptyString).

(** A number in JSON text: an infinity is written [null]. *)
Definition number_text (x : Double.number) : string :=
  match x with
  | Double.Float (Double.Infinity _) => "null"
  | _ => Double.to_string x
  end.

(** SerializeJSONProperty for a value in array position: [undefined],
    [NaN] and the infinities are written [null]; a property whose value is
    [undefined] is left out of its object. *)
Fixpoint ser (v : value) : string :=
  match v with
  | VUndefined => "null"
  | VNull => "null"
  | VBool true => "true"
  | VBool false => "false"
  | VNaN => "null"
  | VNum n => number_text (Double.of_Z n)
  | VFloat f => number_text (Double.Float f)
  | VStr s => quote s
  | VArr elems => "[" ++ join "," (map ser elems) ++ "]"
  | VObj props =>
      "{" ++
      join ","
        ((fix members (ps : list (string * value)) : list string :=
            match ps with
            | [] => []
            | (k, VUndefined) :: rest => members rest
            | (k, w) :: rest => (quote k ++ ":" ++ ser w) :: members rest
            end) props)
      ++ "}"
  end.

(** [JSON.stringify(v)]. *)
Definition stringify (v : value) : value :=
  match v with
  | VUndefined => VUndefined
  | _ => VStr (ser v)
  end.

(** The parser answers with a value and the input left, or with the input
    left at the place it gave up (the unexpected token, or nothing at the end
    of the input). *)
Inductive result (A : Type) : Type :=
| Ok (a : A) (rest : string)
| Unexpected (at_ : string).
Arguments Ok {A} a rest.
Arguments Unexpected {A} at_.

Definition is_ws (c : ascii) : bool :=
  (c =? " ")%char || (c =? "009")%char || (c =? "010")%char || (c =? "013")%char.

Fixpoint skip_ws (s : string) : string :=
  match s with
  | String c s' => if is_ws c then skip_ws s' else s
  | EmptyString => s
  end.

Definition is_digit (c : ascii) : bool :=
  (48 <=? N_of_ascii c)%N && (N_of_ascii c <=? 57)%N.

(** The longest run of digits at the head of [s], and what follows it. *)
Fixpoint digits (s : string) : string * string :=
  match s with
  | String c s' =>
      if is_digit c then let (ds, r) := digits s' in (String c ds, r)
      else (EmptyString, s)
  | EmptyString => (EmptyString, s)
  end.

(** The number a run of digits stands for, after the digits already read
    gave [acc]. *)
Fixpoint digits_value (acc : N) (ds : string) : N :=
  match ds with
  | String c r => digits_value (10 * acc + (N_of_ascii c - 48)) r
  | EmptyString => acc
  end.

(** The Number value of a numeral, from the digits before and after its
    point and its exponent. *)
Definition numeral_value (negative : bool) (whole fraction : string)
    (exponent : Z) : Double.number :=
  Double.of_decimal negative (digits_value 0 (whole ++ fraction))
    (exponent - Z.of_nat (String.length fraction)).

(** The exponent part of a numeral, which may be missing. *)
Definition parse_exponent (negative : bool) (whole fraction : string)
    (s : string) : result Double.number :=
  match s with
  | String c r =>
      if (c =? "e")%char || (c =? "E")%char then
        let (minus, r1) :=
          match r with
          | String sign r' =>
              if (sign =? "-")%char then (true, r')
              else if (sign =? "+")%char then (false, r')
              else (false, r)
          | EmptyString => (false, r)
          end in
        match digits r1 with
        | (EmptyString, _) => Unexpected r1
        | (ds, r2) =>
            Ok (numeral_value negative whole fraction
                  (Double.signed minus (Z.of_N (digits_value 0 ds)))) r2
        end
      else Ok (numeral_value negative whole fraction 0) s
  | EmptyString => Ok (numeral_value negative whole fraction 0) s
  end.

(** The fraction part of a numeral, which may be missing. *)
Definition parse_fraction (negative : bool) (whole : string) (s : string)
  : result Double.number :=
  match s with
  | String c r =>
      if (c =? ".")%char then
        match digits r with
        | (EmptyString, _) => Unexpected r
        | (fraction, r1) => parse_exponent negative whole fraction r1
        end
      else parse_exponent negative whole EmptyString s
  | EmptyString => parse_exponent negative whole EmptyString s
  end.

(** A numeral without its sign: a single 0 or digits that start with another
    digit, then the fraction and the exponent. *)
Definition parse_unsigned (negative : bool) (s : string) : result Double.number :=
  match s with
  | String c r =>
      if (c =? "0")%char then parse_fraction negative "0" r
      else if is_digit c then
        let (ds, r') := digits s in parse_fraction negative ds r'
      else Unexpected s
  | EmptyString => Unexpected s
  end.

Definition parse_number (s : string) : result Double.number :=
  match s with
  | String c r =>
      if (c =? "-")%char then parse_unsigned true r else parse_unsigned false s
  | EmptyString => Unexpected s
  end.

Definition hex_value (c : ascii) : option N :=
  let n := N_of_ascii c in
  if is_digit c then Some (n - 48)%N
  else if ((97 <=? n) && (n <=? 102))%N then Some (n - 87)%N
  else if ((65 <=? n) && (n <=? 70))%N then Some (n - 55)%N
  else None.

(** The code unit of [\uXXXX].  The strings of this model hold 8-bit code
    units: the escape of a code unit from 0x100 up is read, as the grammar
    has it, and kept by its low eight bits. *)
Definition unicode_escape (h1 h2 h3 h4 : ascii) : option ascii :=
  match hex_value h1, hex_value h2, hex_value h3, hex_value h4 with
  | Some a, Some b, Some c, Some d =>
      let n := (((a * 16 + b) * 16 + c) * 16 + d)%N in
      Some (ascii_of_N (n mod 256))
  | _, _, _, _ => None
  end.

Definition push (c : ascii) (r : result string) : result string :=
  match r with
  | Ok s rest => Ok (String c s) rest
  | Unexpected u => Unexpected u
  end.

(** The characters of a string literal after its opening quote, up to and
    including the closing quote. *)
Fixpoint parse_string (s : string) : result string :=
  match s with
  | EmptyString => Unexpected s
  | String c r =>
      if (c =? dquote)%char then Ok EmptyString r
      else if (c =? backslash)%char then
        match r with
        | String e r1 =>
            if (e =? dquote)%char then push dquote (parse_string r1)
            else if (e =? backslash)%char then push backslash (parse_string r1)
            else if (e =? "/")%char then push "/"%char (parse_string r1)
            else if (e =? "b")%char then push "008"%char (parse_string r1)
            else if (e =? "f")%char then push "012"%char (parse_string r1)
            else if (e =? "n")%char then push "010"%char (parse_string r1)
            else if (e =? "r")%char then push "013"%char (parse_string r1)
            else if (e =? "t")%char then push "009"%char (parse_string r1)
            else if (e =? "u")%char then
              match r1 with
              | String h1 (String h2 (String h3 (String h4 r2))) =>
                  match unicode_escape h1 h2 h3 h4 with
                  | Some u => push u (parse_string r2)
                  | None => Unexpected r1
                  end
              | _ => Unexpected r1
              end
            else Unexpected r
        | EmptyString => Unexpected r
        end
      else if (N_of_ascii c <? 32)%N then Unexpected s
      else push c (parse_string r)
  end.

Fixpoint strip_prefix (p s : string) : option string :=
  match p, s with
  | EmptyString, _ => Some s
  | String a p', String b s' => if (a =? b)%char then strip_prefix p' s' else None
  | String _ _, EmptyString => None
  end.

Definition parse_literal (s : string) : result value :=
  match strip_prefix "null" s with
  | Some r => Ok VNull r
  | None =>
      match strip_prefix "true" s with
      | Some r => Ok (VBool true) r
      | None =>
          match strip_prefix "false" s with
          | Some r => Ok (VBool false) r
          | None => Unexpected s
          end
      end
  end.

(** A string, a number or one of the three literals. *)
Definition parse_scalar (s : string) : result value :=
  match s with
  | EmptyString => Unexpected EmptyString
  | String c r =>
      if (c =? dquote)%char then
        match parse_string r with
        | Ok str r' => Ok (VStr str) r'
        | Unexpected u => Unexpected u
        end
      else if (c =? "-")%char || is_digit c then
        match parse_number s with
        | Ok n r' => Ok (number_value n) r'
        | Unexpected u => Unexpected u
        end
      else parse_literal s
  end.

(** Recursive descent on the JSON grammar.  [fuel] bounds the nesting and
    the number of elements; the length of the input is always enough. *)
Fixpoint parse_value (fuel : nat) (s : string) : result value :=
  match fuel with
  | O => Unexpected s
  | S f =>
      match skip_ws s with
      | EmptyString => Unexpected EmptyString
      | String c r as s1 =>
          if (c =? "[")%char then
            match skip_ws r with
            | String c' r' as r1 =>
                if (c' =? "]")%char then Ok (VArr []) r'
                else
                  match parse_elements f r1 with
                  | Ok vs r2 => Ok (VArr vs) r2
                  | Unexpected u => Unexpected u
                  end
            | EmptyString => Unexpected EmptyString
            end
          else if (c =? "{")%char then
            match skip_ws r with
            | String c' r' as r1 =>
                if (c' =? "}")%char then Ok (VObj []) r'
                else
                  match parse_members f r1 with
                  | Ok ms r2 =>
                      Ok (VObj (fold_left (fun o m => put (fst m) (snd m) o) ms [])) r2
                  | Unexpected u => Unexpected u
                  end
            | EmptyString => Unexpected EmptyString
            end
          else parse_scalar s1
      end
  end

with parse_elements (fuel : nat) (s : string) : result (list value) :=
  match fuel with
  | O => Unexpected s
  | S f =>
      match parse_value f s with
      | Unexpected u => Unexpected u
      | Ok v r =>
          match skip_ws r with
          | String c r' as r1 =>
              if (c =? ",")%char then
                match parse_elements f r' with
                | Ok vs r2 => Ok (v :: vs) r2
                | Unexpected u => Unexpected u
                end
              else if (c =? "]")%char then Ok [v] r'
              else Unexpected r1
          | EmptyString => Unexpected EmptyString
          end
      end
  end

with parse_members (fuel : nat) (s : string) : result (list (string * value)) :=
  match fuel with
  | O => Unexpected s
  | S f =>
      match skip_ws s with
      | String q r as s1 =>
          if (q =? dquote)%char then
            match parse_string r with
            | Unexpected u => Unexpected u
            | Ok k r1 =>
                match skip_ws r1 with
                | String c r2 as r1' =>
                    if (c =? ":")%char then
                      match parse_value f r2 with
                      | Unexpected u => Unexpected u
                      | Ok v r3 =>
                          match skip_ws r3 with
                          | String c' r4 as r3' =>
                              if (c' =? ",")%char then
                                match parse_members f r4 with
                                | Ok ms r5 => Ok ((k, v) :: ms) r5
                                | Unexpected u => Unexpected u
                                end
                              else if (c' =? "}")%char then Ok [(k, v)] r4
                              else Unexpected r3'
                          | EmptyString => Unexpected EmptyString
                          end
                      end
                    else Unexpected r1'
                | EmptyString => Unexpected EmptyString
                end
            end
          else Unexpected s1
      | EmptyString => Unexpected EmptyString
      end
  end.

(** What [JSON.parse] throws: a [SyntaxError] whose message names the
    unexpected token, here the input left at that token. *)
Inductive exception : Type :=
| SyntaxError (unexpected : string).

(** [JSON.parse(text)]. *)
Definition parse (text : string) : exception + value :=
  match parse_value (S (String.length text)) text with
  | Unexpected u => inl (SyntaxError u)
  | Ok v r =>
      match skip_ws r with
      | EmptyString => inr v
      | u => inl (SyntaxError u)
      end
  end.

End JSON.

(** ** app/commander.js *)

Import JS.

(** The mqtt client, as far as this layer uses it: the [publish] calls and
    the [subscribe] calls made on it, oldest first. *)
Record Client : Type := {
  published : list (string * value);
  subscribed : list string
}.

Definition publish (topic : string) (message : value) (cl : Client) : Client :=
  {| published := (published cl ++ [(topic, message)])%list;
     subscribed := subscribed cl |}.

Definition subscribe (topic : string) (cl : Client) : Client :=
  {| published := published cl;
     subscribed := (subscribed cl ++ [topic])%list |}.

(** Every failure is a [throw new Error(message)]; one constructor per
    message, carrying the value the message quotes. *)
Inductive error : Type :=
| InvalidGateway            (* Invalid gateway specified (arg #3) *)
| InvalidUsername           (* Invalid username specified (arg #2) *)
| InvalidCategory (category : value)     (* Invalid category specified: [%s] *)
| InvalidId (id : value)                 (* Invalid id specified: [%s] *)
| InvalidType (type : value)             (* Invalid type specified: [%s] *)
| InvalidModulePath (modulePath : value) (* Invalid module path specified: [%s] *)
| InvalidGatewayName        (* Invalid gateway name specified (arg #1) *)
| ErrorParsingConfiguration (ex : JSON.exception)
                            (* Error parsing configuration: [%s] *)
| InvalidConfig             (* Invalid config specified - must be string or object (arg #3) *)
| InvalidOptions            (* Invalid provisioning options specified (arg #1) *)
| InvalidHost               (* Options does not define a valid host (options.host) *)
| InvalidCurrentGatewayName (* ... a valid current gateway name (options.currentGatewayName) *)
| InvalidNewGatewayName     (* ... a valid new gateway name (options.newGatewayName) *)
| InvalidOptionsUsername    (* ... a valid user name (options.username) *)
| InvalidPassword           (* ... a valid password (options.password) *)
| AlreadyLaunched           (* Cannot launch shell. Shell was previously launched *)
| TypeError                 (* raised by the engine, not by this code *)
| ReferenceError.           (* raised by the engine, not by this code *)

(** The kinds of failure: the two the protocol layer raises on its
    arguments, and the rest. *)
Inductive error_kind : Type :=
| InvalidArgument
| ConfigParseError
| OtherError.

Definition kind (e : error) : error_kind :=
  match e with
  | ErrorParsingConfiguration _ => ConfigParseError
  | AlreadyLaunched | TypeError | ReferenceError => OtherError
  | _ => InvalidArgument
  end.

(** The fields of a Commander.  The request counter counts in [N]: a
    JavaScript number counts by one up to 2^53, more ids than a session
    generates. *)
Record Commander : Type := {
  _client : Client;
  _topicPrefix : string;
  _requestCounter : N;
  _sessionId : string
}.

(** [new Commander(client, gateway, username, sessionId)].  [generated] is
    what [shortid.generate()] answers when it is asked.  The client is an
    object by its type. *)
Definition new_Commander (client : Client) (gateway username sessionId : value)
    (generated : string) : error + Commander :=
  if not_nonempty_string gateway then inl InvalidGateway
  else if not_nonempty_string username then inl InvalidUsername
  else
    let sessionId :=
      if not_nonempty_string sessionId then generated else to_string sessionId in
    inr {| _client := client;
           _topicPrefix :=
             "cloud/" ++ to_string username ++ "/" ++ to_string gateway ++ "/";
           _requestCounter := 0;
           _sessionId := sessionId |}.

(** A method body: it reads and updates the Commander and returns or
    throws. *)
Definition M (A : Type) : Type := Commander -> (error + A) * Commander.

Definition ret {A : Type} (a : A) : M A := fun c => (inr a, c).

Definition throw {A : Type} (e : error) : M A := fun c => (inl e, c).

Definition bind {A B : Type} (m : M A) (k : A -> M B) : M B :=
  fun c =>
    match m c with
    | (inr a, c') => k a c'
    | (inl e, c') => (inl e, c')
    end.

Notation "x <- m ;; k" := (bind m (fun x => k))
  (at level 61, m at next level, right associativity).
Notation "m ;;; k" := (bind m (fun _ => k))
  (at level 61, right associativity).

Definition client_publish (topic : string) (message : value) : M unit :=
  fun c =>
    (inr tt,
     {| _client := publish topic message (_client c);
        _topicPrefix := _topicPrefix c;
        _requestCounter := _requestCounter c;
        _sessionId := _sessionId c |}).

Definition _getNextRequestId : M value :=
  fun c =>
    let counter := (_requestCounter c + 1)%N in
    (inr (VStr (_sessionId c ++ "::" ++ dec counter)),
     {| _client := _client c;
        _topicPrefix := _topicPrefix c;
        _requestCounter := counter;
        _sessionId := _sessionId c |}).

Definition _sendPayload (payload requestId : value) : M unit :=
  requestId <- (if truthy requestId then ret requestId else _getNextRequestId) ;;
  topic <- (fun c => (inr (concat (_topicPrefix c) requestId), c)) ;;
  client_publish topic (JSON.stringify payload).

Definition stopConnector (category id requestId : value) : M unit :=
  ci <- (if is_str category "all" then ret (VUndefined, category)
         else if is_str id "all" then ret (VUndefined, id)
         else if negb (is_str category "cloud") && negb (is_str category "device")
              then throw (InvalidCategory category)
         else ret (category, id)) ;;
  let category := fst ci in
  let id := or (snd ci) (VStr "all") in
  let payload :=
    VObj [ ("category", category);
           ("action", VStr (if is_str id "all" then "stop_all_connectors"
                            else "stop_connector"));
           ("id", if is_str id "all" then VUndefined else id) ] in
  _sendPayload payload requestId.

Definition startConnector (category id requestId : value) : M unit :=
  ci <- (if is_str category "all" then ret (VUndefined, category)
         else if is_str id "all" then ret (VUndefined, id)
         else if negb (is_str category "cloud") && negb (is_str category "device")
              then throw (InvalidCategory category)
         else ret (category, id)) ;;
  let category := fst ci in
  let id := or (snd ci) (VStr "all") in
  let payload :=
    VObj [ ("category", category);
           ("action", VStr (if is_str id "all" then "start_all_connectors"
                            else "start_connector"));
           ("id", if is_str id "all" then VUndefined else id) ] in
  _sendPayload payload requestId.

Definition listConnectors (category requestId : value) : M unit :=
  (if negb (is_undefined category) && negb (is_str category "cloud")
      && negb (is_str category "device")
   then throw (InvalidCategory category) else ret tt) ;;;
  let payload :=
    VObj [ ("category", category);
           ("action", VStr "list_connectors") ] in
  _sendPayload payload requestId.

Definition restartConnector (category id requestId : value) : M unit :=
  ci <- (if is_str category "all" then ret (VUndefined, category)
         else if is_str id "all" then ret (VUndefined, id)
         else if negb (is_str category "cloud") && negb (is_str category "device")
              then throw (InvalidCategory category)
         else ret (category, id)) ;;
  let category := fst ci in
  let id := or (snd ci) (VStr "all") in
  let payload :=
    VObj [ ("category", category);
           ("action", VStr (if is_str id "all" then "restart_all_connectors"
                            else "restart_connector"));
           ("id", if is_str id "all" then VUndefined else id) ] in
  _sendPayload payload requestId.

(** [v.length] of a string. *)
Definition length_of (v : value) : Z :=
  match v with
  | VStr s => Z.of_nat (String.length s)
  | _ => 0
  end.

Definition sendDataToConnector (category id data requestId : value) : M unit :=
  (if negb (is_str category "cloud") && negb (is_str category "device")
   then throw (InvalidCategory category) else ret tt) ;;;
  (if not_nonempty_string id then throw (InvalidId id) else ret tt) ;;;
  let data :=
    if (typeof data =? "string") && (2 <=? length_of data)%Z then
      VStr (substring (to_string data) 1 (length_of data - 1))
    else if negb (truthy data) then VStr EmptyString
    else if typeof data =? "object" then JSON.stringify data
    else VStr "{}" in
  let payload :=
    VObj [ ("action", VStr "send_data");
           ("category", category);
           ("id", id);
           ("data", data) ] in
  _sendPayload payload requestId.

(** [sysInfo] and [resetAgent] declare one parameter: a second argument is
    not looked at. *)
Definition sysInfo (gatewayname : value) : M unit :=
  (if not_nonempty_string gatewayname then throw InvalidGatewayName else ret tt) ;;;
  let connectorId := VStr (concat "cnc-gateway-" gatewayname) in
  sendDataToConnector (VStr "device") connectorId
    (VObj [("command", VStr "system_info")]) VUndefined.

Definition resetAgent (gatewayname : value) : M unit :=
  (if not_nonempty_string gatewayname then throw InvalidGatewayName else ret tt) ;;;
  let connectorId := VStr (concat "cnc-gateway-" gatewayname) in
  sendDataToConnector (VStr "device") connectorId
    (VObj [("command", VStr "reset_agent")]) VUndefined.

Definition updateConnectorConfig (category id config requestId : value) : M unit :=
  (if negb (is_str category "cloud") && negb (is_str category "device")
   then throw (InvalidCategory category) else ret tt) ;;;
  (if not_nonempty_string id then throw (InvalidId id) else ret tt) ;;;
  config <-
    (if typeof config =? "string" then
       let text := substring (to_string config) 1 (length_of config - 1) in
       match JSON.parse text with
       | inr parsed => ret parsed
       | inl ex => throw (ErrorParsingConfiguration ex)
       end
     else if negb (truthy config) || negb (typeof config =? "object") then
       throw InvalidConfig
     else ret config) ;;
  let payload :=
    VObj [ ("action", VStr "update_config");
           ("category", category);
           ("id", id);
           ("config", config) ] in
  _sendPayload payload requestId.

Definition deleteConnectorConfig (category id requestId : value) : M unit :=
  (if negb (is_str category "cloud") && negb (is_str category "device")
   then throw (InvalidCategory category) else ret tt) ;;;
  (if not_nonempty_string id then throw (InvalidId id) else ret tt) ;;;
  let payload :=
    VObj [ ("action", VStr "delete_config");
           ("category", category);
           ("id", id) ] in
  _sendPayload payload requestId.

Definition updateConnectorType (type modulePath requestId : value) : M unit :=
  (if not_nonempty_string type then throw (InvalidType type) else ret tt) ;;;
  (if not_nonempty_string modulePath then throw (InvalidModulePath modulePath)
   else ret tt) ;;;
  let payload :=
    VObj [ ("action", VStr "update_connector_type");
           ("type", type);
           ("modulePath", modulePath) ] in
  _sendPayload payload requestId.

Definition terminateAgent (requestId : value) : M unit :=
  let payload :=
    VObj [ ("action", VStr "maintenance_action");
           ("command", VStr "shutdown_program") ] in
  _sendPayload payload requestId.

Definition upgradeAgent (requestId : value) : M unit :=
  let payload :=
    VObj [ ("action", VStr "maintenance_action");
           ("command", VStr "upgrade_program") ] in
  _sendPayload payload requestId.

Definition rebootGateway (requestId : value) : M unit :=
  let payload :=
    VObj [ ("action", VStr "maintenance_action");
           ("command", VStr "reboot_gateway") ] in
  _sendPayload payload requestId.

Definition initAgent (options requestId : value) : M unit :=
  (if negb (truthy options) || negb (typeof options =? "object")
   then throw InvalidOptions else ret tt) ;;;
  (if not_nonempty_string (get options "host") then throw InvalidHost else ret tt) ;;;
  (if not_nonempty_string (get options "currentGatewayName")
   then throw InvalidCurrentGatewayName else ret tt) ;;;
  (if not_nonempty_string (get options "newGatewayName")
   then throw InvalidNewGatewayName else ret tt) ;;;
  (if not_nonempty_string (get options "username")
   then throw InvalidOptionsUsername else ret tt) ;;;
  (if not_nonempty_string (get options "password")
   then throw InvalidPassword else ret tt) ;;;
  let options := set options "port" (or (get options "port") (VStr "8443")) in
  let options := set options "protocol" (or (get options "protocol") (VStr "mqtts")) in
  let options :=
    set options "networkInterface"
      (or (get options "networkInterface") (VStr "eth0")) in
  let payload :=
    [ (* New cnc cloud connector. *)
      VObj [ ("action", VStr "update_config");
             ("category", VStr "cloud");
             ("id", VStr (concat "cnc-cloud-" (get options "newGatewayName")));
             ("config",
              VObj [ ("type", VStr "CncCloud");
                     ("config",
                      VObj [ ("host", get options "host");
                             ("port", get options "port");
                             ("protocol", get options "protocol");
                             ("networkInterface", get options "networkInterface");
                             ("gatewayname", get options "newGatewayName");
                             ("username", get options "username");
                             ("password", get options "password");
                             ("topics", VStr EmptyString) ]) ]) ];
      (* New cnc gateway connector. *)
      VObj [ ("action", VStr "update_config");
             ("category", VStr "device");
             ("id", VStr (concat "cnc-gateway-" (get options "newGatewayName")));
             ("config",
              VObj [ ("type", VStr "CncGateway");
                     ("config", VObj []) ]) ];
      (* Disable local network on reboot. *)
      VObj [ ("action", VStr "send_data");
             ("category", VStr "device");
             ("id", VStr (concat "cnc-gateway-" (get options "currentGatewayName")));
             ("data",
              JSON.stringify (VObj [("command", VStr "disable_local_network")])) ];
      (* Delete old cnc cloud connector *)
      VObj [ ("action", VStr "delete_config");
             ("category", VStr "cloud");
             ("id", VStr (concat "cnc-cloud-" (get options "currentGatewayName"))) ];
      (* Delete old cnc gateway connector *)
      VObj [ ("action", VStr "delete_config");
             ("category", VStr "device");
             ("id", VStr (concat "cnc-gateway-" (get options "currentGatewayName"))) ]
    ] in
  let payload :=
    if (typeof (get options "apiKey") =? "string")
       && (0 <? length_of (get options "apiKey"))%Z
    then
      (payload ++
       [ VObj [ ("action", VStr "update_config");
                ("category", VStr "cloud");
                ("id", VStr "http");
                ("config",
                 VObj [ ("type", VStr "Http");
                        ("config",
                         VObj [ ("pollFrequency", VNum 10000);
                                ("url", VStr (concat "https://" (get options "host")));
                                ("headers",
                                 VObj [ ("apiKey", get options "apiKey");
                                        ("content-type",
                                         VStr "application/json") ]) ]) ]) ] ])%list
    else payload in
  _sendPayload (VArr payload) requestId.

(** ** app/shell.js *)

Module Shell.

(** [args[i]] of an argument list: a parameter with no argument is
    [undefined]. *)
Definition arg (i : nat) (args : list value) : value := nth i args VUndefined.

(** [commander[name].bind(commander)], then [.apply(null, args)]. *)
Definition commander_method (name : string) : option (list value -> M unit) :=
  if name =? "stopConnector" then
    Some (fun a => stopConnector (arg 0 a) (arg 1 a) (arg 2 a))
  else if name =? "startConnector" then
    Some (fun a => startConnector (arg 0 a) (arg 1 a) (arg 2 a))
  else if name =? "restartConnector" then
    Some (fun a => restartConnector (arg 0 a) (arg 1 a) (arg 2 a))
  else if name =? "listConnectors" then
    Some (fun a => listConnectors (arg 0 a) (arg 1 a))
  else if name =? "sendDataToConnector" then
    Some (fun a => sendDataToConnector (arg 0 a) (arg 1 a) (arg 2 a) (arg 3 a))
  else if name =? "updateConnectorConfig" then
    Some (fun a => updateConnectorConfig (arg 0 a) (arg 1 a) (arg 2 a) (arg 3 a))
  else if name =? "deleteConnectorConfig" then
    Some (fun a => deleteConnectorConfig (arg 0 a) (arg 1 a) (arg 2 a))
  else if name =? "updateConnectorType" then
    Some (fun a => updateConnectorType (arg 0 a) (arg 1 a) (arg 2 a))
  else if name =? "sysInfo" then Some (fun a => sysInfo (arg 0 a))
  else if name =? "resetAgent" then Some (fun a => resetAgent (arg 0 a))
  else if name =? "terminateAgent" then Some (fun a => terminateAgent (arg 0 a))
  else if name =? "upgradeAgent" then Some (fun a => upgradeAgent (arg 0 a))
  else if name =? "rebootGateway" then Some (fun a => rebootGateway (arg 0 a))
  else if name =? "initAgent" then Some (fun a => initAgent (arg 0 a) (arg 1 a))
  else None.

(** White space as the regular expression class [\s] and [parseInt] see it,
    among the 8-bit code units. *)
Definition is_space (c : ascii) : bool :=
  let n := N_of_ascii c in
  ((9 <=? n) && (n <=? 13))%N || (n =? 32)%N || (n =? 160)%N.

Fixpoint trim_left (s : string) : string :=
  match s with
  | String c s' => if is_space c then trim_left s' else s
  | EmptyString => s
  end.

Fixpoint hex_run (acc : option N) (s : string) : option N :=
  match s with
  | String c s' =>
      match JSON.hex_value c with
      | Some d =>
          hex_run (Some (match acc with Some a => a * 16 + d | None => d end)%N) s'
      | None => acc
      end
  | EmptyString => acc
  end.

Definition dec_run (s : string) : option N :=
  match JSON.digits s with
  | (EmptyString, _) => None
  | (ds, _) =>
      match NilEmpty.uint_of_string ds with
      | Some u => Some (N.of_uint u)
      | None => None
      end
  end.

(** [parseInt(v)] with no radix. *)
Definition parseInt (v : value) : value :=
  let s := trim_left (to_string v) in
  let (negative, s) :=
    match s with
    | String c r =>
        if (c =? "-")%char then (true, r)
        else if (c =? "+")%char then (false, r)
        else (false, s)
    | EmptyString => (false, s)
    end in
  let magnitude :=
    match s with
    | String z (String x r) =>
        if (z =? "0")%char && ((x =? "x")%char || (x =? "X")%char)
        then hex_run None r else dec_run s
    | _ => dec_run s
    end in
  match magnitude with
  | Some n => number_value (Double.of_integer negative n)
  | None => VNaN
  end.

Definition isNaN (v : value) : bool :=
  match v with
  | VNaN => true
  | _ => false
  end.

(** One entry of the command map. *)
Record CommandInfo : Type := {
  method : list value -> M unit;
  args : value
}.

(** [commandMap[commandName] = info]. *)
Fixpoint assign (commandName : string) (info : CommandInfo)
    (commandMap : list (string * CommandInfo)) : list (string * CommandInfo) :=
  match commandMap with
  | [] => [(commandName, info)]
  | (name, old) :: rest =>
      if name =? commandName then (name, info) :: rest
      else (name, old) :: assign commandName info rest
  end.

(** [generateCommand]: the method is a function or the name of a Commander
    method. *)
Definition generateCommand (commandName : string)
    (method : string + (list value -> M unit)) (args : value)
    (commandMap : list (string * CommandInfo)) : list (string * CommandInfo) :=
  let args := or args (VArr []) in
  let method :=
    match method with
    | inr f => f
    | inl name =>
        match commander_method name with
        | Some f => f
        | None => fun _ => throw TypeError
        end
    end in
  assign commandName {| method := method; args := args |} commandMap.

Definition generateConnectorCommandFamily (commandName methodName : string)
    (commandMap : list (string * CommandInfo)) : list (string * CommandInfo) :=
  fold_left
    (fun commandMap opts =>
       generateCommand ("con:" ++ commandName ++ fst opts) (inl methodName)
         (snd opts) commandMap)
    [ (EmptyString, VArr []);
      ("_all", VArr [VStr "all"]);
      ("_cloud", VArr [VStr "cloud"]);
      ("_device", VArr [VStr "device"]) ]
    commandMap.

(** The function bound to [con:config_lepton].  Its first statement assigns
    to a property of [options], which in strict mode is a TypeError unless
    [options] is an object. *)
Definition config_lepton (a : list value) : M unit :=
  let options := arg 0 a in
  match options with
  | VArr _ | VObj _ =>
      let options :=
        set options "pollFrequency" (parseInt (get options "pollFrequency")) in
      let options :=
        set options "maxRetries" (parseInt (get options "maxRetries")) in
      let options :=
        if isNaN (get options "pollFrequency")
        then set options "pollFrequency" (VNum 60000) else options in
      let options :=
        if isNaN (get options "maxRetries")
        then set options "maxRetries" (VNum 600) else options in
      let config :=
        VObj [ ("type", VStr "LeptonCamera");
               ("config",
                VObj [ ("pollFrequency", get options "pollFrequency");
                       ("spiDevice", VStr "/dev/spidev0.1");
                       ("i2cDevice", VStr "/dev/i2c-1");
                       ("maxRetries", get options "maxRetries") ]) ] in
      updateConnectorConfig (VStr "device") (get options "id") config VUndefined
  | _ => throw TypeError
  end.

Definition _buildCommandMap (_gateway : string) : list (string * CommandInfo) :=
  let commandMap := [] in
  let commandMap := generateConnectorCommandFamily "stop" "stopConnector" commandMap in
  let commandMap := generateConnectorCommandFamily "start" "startConnector" commandMap in
  let commandMap := generateConnectorCommandFamily "restart" "restartConnector" commandMap in
  let commandMap := generateConnectorCommandFamily "list" "listConnectors" commandMap in
  let commandMap := generateCommand "con:send_data" (inl "sendDataToConnector") VUndefined commandMap in
  let commandMap := generateCommand "con:update_config" (inl "updateConnectorConfig") VUndefined commandMap in
  let commandMap := generateCommand "con:delete_config" (inl "deleteConnectorConfig") VUndefined commandMap in
  let commandMap := generateCommand "con:update_type" (inl "updateConnectorType") VUndefined commandMap in
  let commandMap := generateCommand "agent:reset" (inl "resetAgent") VUndefined commandMap in
  let commandMap := generateCommand "agent:terminate" (inl "terminateAgent") VUndefined commandMap in
  let commandMap := generateCommand "agent:upgrade" (inl "upgradeAgent") VUndefined commandMap in
  let commandMap :=
    generateCommand "agent:prov_dev" (inl "initAgent")
      (VObj [ ("host", VStr "api-iot-dev.analoggarage.com");
              ("port", VNum 8080);
              ("protocol", VStr "mqtts");
              ("networkInterface", VStr "eth0");
              ("currentGatewayName", VStr _gateway);
              ("newGatewayName", VStr EmptyString);
              ("username", VStr EmptyString);
              ("password", VStr EmptyString) ]) commandMap in
  let commandMap :=
    generateCommand "agent:prov_prod" (inl "initAgent")
      (VObj [ ("host", VStr "api-iot.analoggarage.com");
              ("port", VNum 8080);
              ("protocol", VStr "mqtts");
              ("networkInterface", VStr "eth0");
              ("currentGatewayName", VStr _gateway);
              ("newGatewayName", VStr EmptyString);
              ("username", VStr EmptyString);
              ("password", VStr EmptyString) ]) commandMap in
  let commandMap :=
    generateCommand "con:config_lepton" (inr config_lepton)
      (VObj [ ("id", VNull);
              ("pollFrequency", VNum 5000);
              ("maxRetries", VNum 600) ]) commandMap in
  let commandMap := generateCommand "sys:info" (inl "sysInfo") VUndefined commandMap in
  let commandMap := generateCommand "sys:reboot" (inl "rebootGateway") VUndefined commandMap in
  commandMap.

(** [for (var command in commandMap)]: the names, in insertion order. *)
Definition command_names (commandMap : list (string * CommandInfo)) : list string :=
  map fst commandMap.

(** The function [_tabComplete()] returns.  It closes over one array,
    [matches], which every call returns and every call with a non-empty
    partial refills; the argument [matches] is that array before the call,
    the result is the array the call returns. *)
Definition _tabComplete (commandMap : list (string * CommandInfo))
    (partial : string) (matches : list string) : list string :=
  if partial =? EmptyString then matches
  else
    filter (fun command => (0 <=? indexOf command partial)%Z)
      (command_names commandMap).

(** A session of completion queries on one closure, oldest first: the array
    after the last of them. *)
Definition completions (commandMap : list (string * CommandInfo))
    (queries : list string) : list string :=
  fold_left (fun matches partial => _tabComplete commandMap partial matches)
    queries [].

Definition apostrophe : ascii := "039"%char.

Fixpoint has_apostrophe (s : string) : bool :=
  match s with
  | String c s' => (c =? apostrophe)%char || has_apostrophe s'
  | EmptyString => false
  end.

Definition extend (cur : option string) (c : ascii) : option string :=
  match cur with
  | Some t => Some (t ++ String c EmptyString)
  | None => Some (String c EmptyString)
  end.

Definition flush (cur : option string) : list string :=
  match cur with
  | Some t => [t]
  | None => []
  end.

(** The matches of [/(?:[^\s']+|'[^']*')+/g], left to right.  [cur] is the
    match in progress; [quoted] says the scan is between the two apostrophes
    of a quoted piece.  An apostrophe that no later apostrophe closes ends the
    match in progress and belongs to no match. *)
Fixpoint scan (quoted : bool) (cur : option string) (s : string) : list string :=
  match s with
  | EmptyString => flush cur
  | String c r =>
      if quoted then scan (negb (c =? apostrophe)%char) (extend cur c) r
      else if (c =? apostrophe)%char then
        if has_apostrophe r then scan true (extend cur c) r
        else (flush cur ++ scan false None r)%list
      else if is_space c then (flush cur ++ scan false None r)%list
      else scan false (extend cur c) r
  end.

(** [resp.match(/(?:[^\s']+|'[^']*')+/g)]: [null] when nothing matches. *)
Definition match_tokens (resp : string) : option (list string) :=
  match scan false None resp with
  | [] => None
  | tokens => Some tokens
  end.

(** [arg.split('=')]. *)
Fixpoint split (sep : ascii) (s : string) : list string :=
  match s with
  | EmptyString => [EmptyString]
  | String c r =>
      if (c =? sep)%char then EmptyString :: split sep r
      else
        match split sep r with
        | h :: t => String c h :: t
        | [] => [String c EmptyString]
        end
  end.

(** [tokens[i]]: [undefined] past the end. *)
Definition token (i : nat) (tokens : list string) : value :=
  match nth_error tokens i with
  | Some t => VStr t
  | None => VUndefined
  end.

(** [finalArgs[key] = v].  Assigning a string or [undefined] to [__proto__]
    creates no property. *)
Definition assign_property (finalArgs : value) (key v : value) : value :=
  if to_string key =? "__proto__" then finalArgs
  else set finalArgs (to_string key) v.

Definition _applyArgs (defaults : value) (userArgs : list string) : list value :=
  let defaults := or defaults (VArr []) in
  let userArgs := tl userArgs in
  match defaults with
  | VArr fixed => (fixed ++ map VStr userArgs)%list
  | _ =>
      let finalArgs :=
        fold_left
          (fun finalArgs arg =>
             let tokens := split "=" arg in
             assign_property finalArgs (token 0 tokens) (token 1 tokens))
          userArgs defaults in
      [finalArgs]
  end.

(** The properties every object inherits from [Object.prototype]:
    [commandMap[name]] finds them although they are no commands. *)
Definition object_prototype_names : list string :=
  [ "constructor"; "toString"; "toLocaleString"; "valueOf"; "hasOwnProperty";
    "isPrototypeOf"; "propertyIsEnumerable"; "__proto__";
    "__defineGetter__"; "__defineSetter__"; "__lookupGetter__";
    "__lookupSetter__" ].

Inductive lookup_result : Type :=
| Own (info : CommandInfo)
| Inherited
| Absent.

Fixpoint own (name : string) (commandMap : list (string * CommandInfo))
  : option CommandInfo :=
  match commandMap with
  | [] => None
  | (name', info) :: rest => if name' =? name then Some info else own name rest
  end.

(** [commandMap[name]]. *)
Definition lookup (commandMap : list (string * CommandInfo)) (name : string)
  : lookup_result :=
  match own name commandMap with
  | Some info => Own info
  | None =>
      if existsb (String.eqb name) object_prototype_names then Inherited
      else Absent
  end.

(** What the shell writes to the console. *)
Inductive output : Type :=
| Prompt
| BadCommand
| Thrown (ex : error)
| SavingHistory.

Inductive deferred : Type :=
| Pending
| Resolved.

(** The shell.  [this._client] is the object the Commander holds, so the
    model keeps the one copy inside [_commander].  [console] is the process
    console, kept with the shell. *)
Record Shell : Type := {
  _sessionId : string;
  _gateway : string;
  _commander : Commander;
  _promptDef : option deferred;
  _commandMap : list (string * CommandInfo);
  console : list output
}.

Definition log (o : output) (sh : Shell) : Shell :=
  {| _sessionId := _sessionId sh;
     _gateway := _gateway sh;
     _commander := _commander sh;
     _promptDef := _promptDef sh;
     _commandMap := _commandMap sh;
     console := (console sh ++ [o])%list |}.

Definition with_commander (c : Commander) (sh : Shell) : Shell :=
  {| _sessionId := _sessionId sh;
     _gateway := _gateway sh;
     _commander := c;
     _promptDef := _promptDef sh;
     _commandMap := _commandMap sh;
     console := console sh |}.

Definition with_promptDef (d : option deferred) (sh : Shell) : Shell :=
  {| _sessionId := _sessionId sh;
     _gateway := _gateway sh;
     _commander := _commander sh;
     _promptDef := d;
     _commandMap := _commandMap sh;
     console := console sh |}.

(** [new Shell(client, gateway, username, sessionId)].  The file never
    defines [_shortId], so asking it for a session id is a ReferenceError. *)
Definition new_Shell (client : Client) (gateway username sessionId : value)
  : error + Shell :=
  if not_nonempty_string gateway then inl InvalidGateway
  else if not_nonempty_string username then inl InvalidUsername
  else if not_nonempty_string sessionId then inl ReferenceError
  else
    let subTopic :=
      "gateway/" ++ to_string username ++ "/" ++ to_string gateway ++ "/+" in
    let client := subscribe subTopic client in
    match new_Commander client gateway username sessionId EmptyString with
    | inl e => inl e
    | inr commander =>
        inr {| _sessionId := to_string sessionId;
               _gateway := to_string gateway;
               _commander := commander;
               _promptDef := None;
               _commandMap := _buildCommandMap (to_string gateway);
               console := [] |}
    end.

(** One turn of the [do ... while(!done)] loop of [_repl], on the line the
    prompt answered ([None] for [null]): the new value of [done] and the
    shell after the turn. *)
Definition repl_turn (resp : option string) (sh : Shell) : bool * Shell :=
  let sh := log Prompt sh in
  let resp := match resp with Some line => line | None => EmptyString end in
  match match_tokens resp with
  | None => (false, sh)
  | Some tokens =>
      let commandInfo := lookup (_commandMap sh) (to_string (token 0 tokens)) in
      if is_str (token 0 tokens) "q" || is_str (token 1 tokens) "quit" then
        (true, sh)
      else
        match commandInfo with
        | Absent => (false, log BadCommand sh)
        | Inherited => (false, log (Thrown TypeError) sh)
        | Own info =>
            let args := _applyArgs (args info) tokens in
            match method info args (_commander sh) with
            | (inr _, c) => (false, with_commander c sh)
            | (inl ex, c) => (false, log (Thrown ex) (with_commander c sh))
            end
        end
  end.

(** How far [_repl] gets on the lines the operator has typed so far. *)
Inductive repl_result : Type :=
| Returned (sh : Shell) (unread : list (option string))
| Reading (sh : Shell).

Fixpoint _repl (responses : list (option string)) (sh : Shell) : repl_result :=
  match responses with
  | [] => Reading sh
  | resp :: rest =>
      let (done, sh') := repl_turn resp sh in
      if done then Returned sh' rest else _repl rest sh'
  end.

(** [launch()]: the promise is resolved when [_repl] has returned. *)
Definition launch (responses : list (option string)) (sh : Shell)
  : error + repl_result :=
  match _promptDef sh with
  | Some _ => inl AlreadyLaunched
  | None =>
      let sh := with_promptDef (Some Pending) sh in
      match _repl responses sh with
      | Returned sh' unread =>
          inr (Returned (with_promptDef (Some Resolved) (log SavingHistory sh')) unread)
      | Reading sh' => inr (Reading sh')
      end
  end.

(** What the handler of the [message] event writes: the text in the colour
    of its severity. *)
Inductive colour : Type :=
| Red
| Yellow
| Blue.

Inductive display : Type :=
| Display (c : colour) (text : string).

(** [s.substring(from)]: to the end of the string. *)
Definition substring_from (s : string) (from : Z) : string :=
  substring s from (Z.of_nat (String.length s)).

(** The function [launch] registers for the [message] event, on the text of
    the message.  On a string nothing in it throws, so its [catch] is never
    entered. *)
Definition on_message (message : string) : display :=
  if (indexOf message "[error]" =? 0)%Z then
    Display Red (substring_from message 7)
  else if (indexOf message "[warn]" =? 0)%Z then
    Display Yellow (substring_from message 6)
  else Display Blue (substring_from message 6).

End Shell.

(** ** app/arg-parser.js *)

Module ArgParser.

(** The module keeps the parsed command line in [_args], an object.
    [_getPromptSchemaForMissingArgs] reads it, not its parameter, and returns
    the schema: here the names of its properties, in the order they are
    added.  What each property says to the prompt (description, pattern,
    message) is read by the prompt alone. *)
Definition _getPromptSchemaForMissingArgs (_args : list (string * value))
  : list string :=
  ((if negb (truthy (get (VObj _args) "brokerEndpoint"))
    then ["brokerEndpoint"] else [])
   ++ (if negb (truthy (get (VObj _args) "gateway")) then ["gateway"] else [])
   ++ (if negb (truthy (get (VObj _args) "username")) then ["username"] else [])
   ++ (if negb (truthy (get (VObj _args) "password")) then ["password"] else []))%list.

(** The promise of [ensureArgs] after the prompt has called back.  When the
    callback throws, the promise is neither resolved nor rejected. *)
Inductive promise : Type :=
| Rejected (err : value)
| Resolved
| Unsettled (ex : error).

(** [ensureArgs()], on what the prompt calls back with, [err] and [data].
    The result is the promise, the arguments of the module and
    [GLOBAL.config] afterwards; [config] is [GLOBAL.config] before.  Reading
    a property of a [data] that is [null] or [undefined] is a TypeError. *)
Definition ensureArgs (_args : list (string * value)) (config : value)
    (err data : value) : promise * list (string * value) * value :=
  let schema := _getPromptSchemaForMissingArgs _args in
  if truthy err then (Rejected err, _args, config)
  else
    match schema, data with
    | _ :: _, (VUndefined | VNull) => (Unsettled TypeError, _args, config)
    | _, _ =>
        let _args :=
          fold_left
            (fun _args property => put property (get data property) _args)
            schema _args in
        (Resolved, _args,
         VObj [ ("cfg_broker_endpoint", get (VObj _args) "brokerEndpoint");
                ("cfg_gateway", get (VObj _args) "gateway");
                ("cfg_username", get (VObj _args) "username");
                ("cfg_password", get (VObj _args) "password");
                ("cfg_session_id", get (VObj _args) "sessionId") ])
    end.

End ArgParser.

(** ** Vocabulary of the statements *)

(** The Commander after one [publish(topic, message)] that leaves the
    request counter at [counter]. *)
Definition sent (topic : string) (message : value) (counter : N) (c : Commander)
  : Commander :=
  {| _client := publish topic message (_client c);
     _topicPrefix := _topicPrefix c;
     _requestCounter := counter;
     _sessionId := _sessionId c |}.

(** The request id the [n]-th call of the generator answers. *)
Definition request_id (sessionId : string) (n : N) : string :=
  sessionId ++ "::" ++ dec n.

(** The topics of the next [count] messages published under generated
    request ids, when [counter] ids have been generated before. *)
Definition generated_topics (prefix sessionId : string) (counter : N) (count : nat)
  : list string :=
  map (fun i => prefix ++ request_id sessionId (counter + N.of_nat i)) (seq 1 count).

(** The normalization of a (category, id) pair in the words of the
    specification: the resolved (category, id), or the category that is
    refused.  An id counts as missing when it is [undefined] or any other
    value JavaScript takes for false. *)
Definition resolve_target (category id : value) : value + (value * value) :=
  if is_str category "all" then inr (VUndefined, VStr "all")
  else if is_str id "all" then inr (VUndefined, VStr "all")
  else if is_str category "cloud" || is_str category "device" then
    inr (category, if truthy id then id else VStr "all")
  else inl category.

(** A field of a request: it is there unless its value is [undefined]. *)
Definition field (k : string) (v : value) : list (string * value) :=
  match v with
  | VUndefined => []
  | _ => [(k, v)]
  end.

(** The request a resolved target stands for, in the words of the
    specification: [<verb>_all_connectors] and no id when the id resolved to
    all, [<verb>_connector] and the id otherwise. *)
Definition request_of (verb : string) (target : value * value) : value :=
  let (category, id) := target in
  if is_str id "all" then
    VObj (field "category" category
          ++ [("action", VStr (verb ++ "_all_connectors"))])%list
  else
    VObj (field "category" category
          ++ [("action", VStr (verb ++ "_connector")); ("id", id)])%list.

(** The behaviour the specification gives the stop, start and restart
    operations. *)
Definition connector_operation (verb : string) (category id requestId : value)
  : M unit :=
  match resolve_target category id with
  | inl bad => throw (InvalidCategory bad)
  | inr target => _sendPayload (request_of verb target) requestId
  end.

(** A category outside cloud, device, all and [undefined]. *)
Definition foreign_category (category : value) : bool :=
  negb (is_str category "cloud") && negb (is_str category "device")
  && negb (is_str category "all") && negb (is_undefined category).

(** The calls a client of the Commander can make, each with its arguments
    in the order of the call.  [sysInfo] and [resetAgent] are documented with
    a trailing request id, so a caller may pass one. *)
Inductive operation : Type :=
| StopConnector (category id requestId : value)
| StartConnector (category id requestId : value)
| ListConnectors (category requestId : value)
| RestartConnector (category id requestId : value)
| SendDataToConnector (category id data requestId : value)
| SysInfo (gatewayname requestId : value)
| ResetAgent (gatewayname requestId : value)
| UpdateConnectorConfig (category id config requestId : value)
| DeleteConnectorConfig (category id requestId : value)
| UpdateConnectorType (type modulePath requestId : value)
| TerminateAgent (requestId : value)
| UpgradeAgent (requestId : value)
| RebootGateway (requestId : value)
| InitAgent (options requestId : value).

Definition exec (o : operation) : M unit :=
  match o with
  | StopConnector category id requestId => stopConnector category id requestId
  | StartConnector category id requestId => startConnector category id requestId
  | ListConnectors category requestId => listConnectors category requestId
  | RestartConnector category id requestId => restartConnector category id requestId
  | SendDataToConnector category id data requestId =>
      sendDataToConnector category id data requestId
  | SysInfo gatewayname _ => sysInfo gatewayname
  | ResetAgent gatewayname _ => resetAgent gatewayname
  | UpdateConnectorConfig category id config requestId =>
      updateConnectorConfig category id config requestId
  | DeleteConnectorConfig category id requestId =>
      deleteConnectorConfig category id requestId
  | UpdateConnectorType type modulePath requestId =>
      updateConnectorType type modulePath requestId
  | TerminateAgent requestId => terminateAgent requestId
  | UpgradeAgent requestId => upgradeAgent requestId
  | RebootGateway requestId => rebootGateway requestId
  | InitAgent options requestId => initAgent options requestId
  end.

(** The request id argument of a call. *)
Definition requestId_of (o : operation) : value :=
  match o with
  | StopConnector _ _ r | StartConnector _ _ r | RestartConnector _ _ r
  | DeleteConnectorConfig _ _ r | UpdateConnectorType _ _ r => r
  | ListConnectors _ r | SysInfo _ r | ResetAgent _ r | InitAgent _ r => r
  | SendDataToConnector _ _ _ r | UpdateConnectorConfig _ _ _ r => r
  | TerminateAgent r | UpgradeAgent r | RebootGateway r => r
  end.

(** The two calls whose body does not take the request id it is given. *)
Definition drops_requestId (o : operation) : bool :=
  match o with
  | SysInfo _ _ | ResetAgent _ _ => true
  | _ => false
  end.

(** A session: the calls are made one after the other, and a call that
    throws leaves the session going, as the shell does. *)
Fixpoint run (ops : list operation) (c : Commander) : Commander :=
  match ops with
  | [] => c
  | o :: rest => run rest (snd (exec o c))
  end.

(** The number of calls of a session that published under a generated
    request id. *)
Fixpoint issued (ops : list operation) (c : Commander) : N :=
  match ops with
  | [] => 0%N
  | o :: rest =>
      let (outcome, c') := exec o c in
      ((match outcome with
        | inr _ =>
            if drops_requestId o || negb (truthy (requestId_of o)) then 1 else 0
        | inl _ => 0
        end) + issued rest c')%N
  end.

(** The number of calls of a session that were made without a request id
    ([undefined], or any other value JavaScript takes for false) and
    published. *)
Fixpoint invoked_without_requestId (ops : list operation) (c : Commander) : N :=
  match ops with
  | [] => 0%N
  | o :: rest =>
      let (outcome, c') := exec o c in
      ((match outcome with
        | inr _ => if truthy (requestId_of o) then 0 else 1
        | inl _ => 0
        end) + invoked_without_requestId rest c')%N
  end.

(** [k] calls of the request id generator, oldest first. *)
Fixpoint nextRequestIds (k : nat) (c : Commander) : list value * Commander :=
  match k with
  | O => ([], c)
  | S k' =>
      match _getNextRequestId c with
      | (inr id, c') =>
          let (ids, c'') := nextRequestIds k' c' in (id :: ids, c'')
      | (inl _, c') => ([], c')
      end
  end.

(** A Commander as [new Commander(client, 'gw1', 'bob', 's1')] makes it, for
    the examples. *)
Definition fresh_commander : Commander :=
  {| _client := {| published := []; subscribed := [] |};
     _topicPrefix := "cloud/bob/gw1/";
     _requestCounter := 0;
     _sessionId := "s1" |}.

(** A configuration for the examples: an array index among its names, the
    numbers 1.5, 1e21 and 5e-324, a string and an object. *)
Definition example_properties : list (string * value) :=
  [ ("1", VFloat (Double.Finite false 6755399441055744 (-52)));
    ("big", VFloat (Double.Finite false 7629394531250000 17));
    ("tiny", VFloat (Double.Finite false 1 (-1074)));
    ("name", VStr "lepton");
    ("nested", VObj [("on", VBool true); ("ids", VArr [VNum 1; VNull])]) ].

Definition example_config : value := VObj example_properties.

(** The topic [_sendPayload] publishes on. *)
Definition topic_for (requestId : value) (c : Commander) : string :=
  _topicPrefix c
  ++ (if truthy requestId then to_string requestId
      else request_id (_sessionId c) (_requestCounter c + 1)).

(** The options [initAgent] accepts: an object whose host, current and new
    gateway name, user name and password are non-empty strings. *)
Definition accepted (options : value) : bool :=
  truthy options && (typeof options =? "object")
  && negb (not_nonempty_string (get options "host"))
  && negb (not_nonempty_string (get options "currentGatewayName"))
  && negb (not_nonempty_string (get options "newGatewayName"))
  && negb (not_nonempty_string (get options "username"))
  && negb (not_nonempty_string (get options "password")).

(** [options.apiKey] is a non-empty string. *)
Definition has_apiKey (options : value) : bool :=
  match get options "apiKey" with
  | VStr key => negb (key =? EmptyString)
  | _ => false
  end.

(** The step of a plan at some index is a request with this action,
    category and connector id. *)
Definition step_is (step : option value) (action category id : string) : Prop :=
  exists request,
    step = Some request
    /\ get request "action" = VStr action
    /\ get request "category" = VStr category
    /\ get request "id" = VStr id.

(** The step writes a connector configuration of this type. *)
Definition configures (step : option value) (type : string) : Prop :=
  exists request,
    step = Some request /\ get (get request "config") "type" = VStr type.

(** The step sends this command to its connector. *)
Definition commands (step : option value) (command : string) : Prop :=
  exists request,
    step = Some request
    /\ get request "data" = JSON.stringify (VObj [("command", VStr command)]).

(** Options [initAgent] accepts, with an api key, for the examples. *)
Definition example_options : value :=
  VObj [ ("host", VStr "iot.example.com");
         ("currentGatewayName", VStr "gw1");
         ("newGatewayName", VStr "gw2");
         ("username", VStr "bob");
         ("password", VStr "secret");
         ("apiKey", VStr "k1") ].

(** A category that names one connector category: cloud or device. *)
Definition connector_category (category : value) : bool :=
  is_str category "cloud" || is_str category "device".

Fixpoint drop_last (s : string) : string :=
  match s with
  | EmptyString => EmptyString
  | String c EmptyString => EmptyString
  | String c r => String c (drop_last r)
  end.

(** A string without its first and its last character. *)
Definition strip_ends (s : string) : string :=
  match s with
  | EmptyString => EmptyString
  | String _ r => drop_last r
  end.

(** The [send_data] request for a connector. *)
Definition data_request (category id data : value) : value :=
  VObj [ ("action", VStr "send_data");
         ("category", category);
         ("id", id);
         ("data", data) ].

(** The [update_config] request for a connector. *)
Definition config_request (category id config : value) : value :=
  VObj [ ("action", VStr "update_config");
         ("category", category);
         ("id", id);
         ("config", config) ].

(** The shell [new Shell(client, 'gw1', 'bob', 's1')] makes, for the
    examples. *)
Definition example_shell : Shell.Shell :=
  {| Shell._sessionId := "s1";
     Shell._gateway := "gw1";
     Shell._commander :=
       {| _client := {| published := []; subscribed := ["gateway/bob/gw1/+"] |};
          _topicPrefix := "cloud/bob/gw1/";
          _requestCounter := 0;
          _sessionId := "s1" |};
     Shell._promptDef := None;
     Shell._commandMap := Shell._buildCommandMap "gw1";
     Shell.console := [] |}.

(** [name] contains [partial] as a substring. *)
Definition contains (name partial : string) : Prop :=
  exists before after, name = before ++ partial ++ after.

(** Whether a turn of the loop on this line ends the loop, as the code
    decides it. *)
Definition ends_loop (line : string) : bool :=
  match Shell.match_tokens line with
  | Some tokens =>
      is_str (Shell.token 0 tokens) "q" || is_str (Shell.token 1 tokens) "quit"
  | None => false
  end.

(** The property lists that are the properties of an object: no two
    properties of one name, and every property at its place in the
    enumeration order. *)
Fixpoint distinct_keys (props : list (string * value)) : bool :=
  match props with
  | [] => true
  | (k, _) :: rest =>
      negb (existsb (String.eqb k) (map fst rest)) && distinct_keys rest
  end.

Fixpoint enumeration_order (props : list (string * value)) : bool :=
  match props with
  | [] => true
  | (k, _) :: rest =>
      forallb (fun k' => negb (enumerated_before k' k)) (map fst rest)
      && enumeration_order rest
  end.

(** The payloads of [VFloat] that are finite binary64 values, as the engine
    holds them: no integer up to 2^53, mantissa and exponent in their
    ranges.  The test is the condition Number::toString puts on the digits
    it writes: [Double.digits_of] has found digits, as many as it says, and
    the decimal they make has the value for its Number value.  It is
    computed number by number; a pair of a mantissa and an exponent that is
    no binary64 value fails it. *)
Definition finite (f : Double.float64) : bool :=
  match f with
  | Double.Finite negative m e =>
      let '(s, k, n) := Double.digits_of negative m e in
      (0 <? s)%N && (k =? Double.digits10 s)%Z
      && Double.denotes negative m e k (s, n)
  | Double.Infinity _ => false
  end.

(** The values JSON text can carry: no [undefined], no [NaN] and no infinity
    anywhere; the integers up to 2^53 and the other finite numbers; objects
    as the engine holds them, each name once, the names that are array
    indices first and ascending. *)
Fixpoint is_json (v : value) : bool :=
  match v with
  | VUndefined | VNaN => false
  | VNull | VBool _ | VStr _ => true
  | VNum n => (Z.abs n <=? Double.two53)%Z
  | VFloat f => finite f
  | VArr elems => forallb is_json elems
  | VObj props =>
      distinct_keys props && enumeration_order props
      && (fix all (ps : list (string * value)) : bool :=
            match ps with
            | [] => true
            | (_, w) :: rest => is_json w && all rest
            end) props
  end.

(** The fuel the parser needs to read a value back. *)
Fixpoint weight (v : value) : nat :=
  match v with
  | VArr elems =>
      S ((fix sum (es : list value) : nat :=
            match es with
            | [] => 0
            | e :: rest => S (weight e + sum rest)
            end) elems)
  | VObj props =>
      S ((fix sum (ps : list (string * value)) : nat :=
            match ps with
            | [] => 0
            | (_, w) :: rest => S (weight w + sum rest)
            end) props)
  | _ => 1
  end.

(** Text that starts a value: its first character is no white space and
    closes no array and no object. *)
Definition starts_value (s : string) : Prop :=
  exists c r,
    s = String c r /\ JSON.is_ws c = false
    /\ (c =? "]")%char = false /\ (c =? "}")%char = false.

(** The fuel for the elements of an array and for the properties of an
    object. *)
Fixpoint elems_weight (es : list value) : nat :=
  match es with
  | [] => 0
  | e :: rest => S (weight e + elems_weight rest)
  end.

Fixpoint props_weight (ps : list (string * value)) : nat :=
  match ps with
  | [] => 0
  | (_, w) :: rest => S (weight w + props_weight rest)
  end.

(** The text of one property of an object. *)
Definition member_text (p : string * value) : string :=
  JSON.quote (fst p) ++ ":" ++ JSON.ser (snd p).

(** Text at which a numeral ends: no digit, point or exponent mark comes
    first. *)
Definition number_end (r : string) : bool :=
  match r with
  | String c _ =>
      negb (JSON.is_digit c || (c =? ".")%char || (c =? "e")%char
            || (c =? "E")%char)
  | EmptyString => true
  end.

(** Runs of digits, and text at which a run of digits ends. *)
Fixpoint all_digits (s : string) : bool :=
  match s with
  | EmptyString => true
  | String c r => JSON.is_digit c && all_digits r
  end.

Definition digits_end (r : string) : bool :=
  match r with
  | String c _ => negb (JSON.is_digit c)
  | EmptyString => true
  end.

(** What the induction gives for a value: read at any place where a value
    may end, with fuel for its weight, its text gives it back. *)
Definition reads_back (v : value) : Prop :=
  forall fuel rest,
    weight v <= fuel ->
    number_end rest = true ->
    JSON.parse_value fuel (JSON.ser v ++ rest) = JSON.Ok v rest.

(** A word of a line: it has no white space outside apostrophes, and its
    apostrophes come in pairs.  [quoted] says the word is entered between the
    two apostrophes of a pair. *)
Fixpoint balanced (quoted : bool) (t : string) : bool :=
  match t with
  | EmptyString => negb quoted
  | String c r =>
      if quoted then balanced (negb (c =? Shell.apostrophe)%char) r
      else if (c =? Shell.apostrophe)%char then balanced true r
      else negb (Shell.is_space c) && balanced false r
  end.

Definition word (t : string) : bool :=
  negb (t =? EmptyString) && balanced false t.

(** The match in progress after the characters of [t] were added to it. *)
Fixpoint grow (cur : option string) (t : string) : option string :=
  match t with
  | EmptyString => cur
  | String c r => grow (Shell.extend cur c) r
  end.

(** The key and the value a [key=value] token of the line stands for, as
    [_applyArgs] takes them from [arg.split('=')]. *)
Definition key_of (arg : string) : string :=
  to_string (Shell.token 0 (Shell.split "=" arg)).

Definition value_of (arg : string) : value :=
  Shell.token 1 (Shell.split "=" arg).

(** A string with no equals sign in it. *)
Fixpoint no_equals (s : string) : bool :=
  match s with
  | EmptyString => true
  | String c r => negb (c =? "=")%char && no_equals r
  end.

(** The line a response of the prompt stands for. *)
Definition line_of (resp : option string) : string :=
  match resp with
  | Some line => line
  | None => EmptyString
  end.

(** The shell a run of the loop has got to. *)
Definition shell_of (r : Shell.repl_result) : Shell.Shell :=
  match r with
  | Shell.Returned sh _ => sh
  | Shell.Reading sh => sh
  end.


(** The verbs of the connector command families and the categories they
    come bound to. *)
Definition family_verbs : list string := ["stop"; "start"; "restart"; "list"].

Definition bound_categories : list string := ["all"; "cloud"; "device"].

(** A string without its first [n] characters. *)
Fixpoint skip (n : nat) (s : string) : string :=
  match n, s with
  | O, _ => s
  | S n', String _ r => skip n' r
  | S _, EmptyString => EmptyString
  end.

(** The [update_config] request that configures the Lepton camera connector
    [id]. *)
Definition lepton_request (id : value) (pollFrequency maxRetries : Double.number)
  : value :=
  config_request (VStr "device") id
    (VObj [ ("type", VStr "LeptonCamera");
            ("config",
             VObj [ ("pollFrequency", number_value pollFrequency);
                    ("spiDevice", VStr "/dev/spidev0.1");
                    ("i2cDevice", VStr "/dev/i2c-1");
                    ("maxRetries", number_value maxRetries) ]) ]).

(** The fields of [GLOBAL.config] that describe the connection, each with
    the command-line argument it is taken from. *)
Definition connection_fields : list (string * string) :=
  [ ("cfg_broker_endpoint", "brokerEndpoint");
    ("cfg_gateway", "gateway");
    ("cfg_username", "username");
    ("cfg_password", "password") ].

(** What a Commander keeps from [c] to [c']: its topic prefix, its session
    id and its subscriptions, and the messages published before; it has
    published at most [n] more, each on a topic under its prefix. *)
Definition kept_since (c c' : Commander) (n : nat) : Prop :=
  _topicPrefix c' = _topicPrefix c
  /\ _sessionId c' = _sessionId c
  /\ subscribed (_client c') = subscribed (_client c)
  /\ exists new,
       published (_client c') = (published (_client c) ++ new)%list
       /\ length new <= n
       /\ Forall (fun m => String.prefix (_topicPrefix c) (fst m) = true) new.

(** The word after the command is [quit]: the turn ends the loop before the
    command is looked at. *)
Definition followed_by_quit (userArgs : list string) : bool :=
  match userArgs with
  | first :: _ => first =? "quit"
  | [] => false
  end.

(** The two provisioning commands, by the environment they name, and the
    options their template leaves empty. *)
Definition provisioning_environments : list string := ["dev"; "prod"].

Definition provisioning_names : list string :=
  ["newGatewayName"; "username"; "password"].

(** ** Strings *)

Lemma append_assoc (a b c : string) : (a ++ b) ++ c = a ++ (b ++ c).
Proof. induction a as [|x a IH]; simpl; [reflexivity | now rewrite IH]. Qed.

Lemma append_nil_r (a : string) : a ++ EmptyString = a.
Proof. induction a as [|x a IH]; simpl; [reflexivity | now rewrite IH]. Qed.

Lemma length_append (a b : string) :
  String.length (a ++ b) = String.length a + String.length b.
Proof. induction a as [|x a IH]; simpl; [reflexivity | now rewrite IH]. Qed.

Lemma append_inj_l (p x y : string) : p ++ x = p ++ y -> x = y.
Proof.
  induction p as [|a p IH]; simpl; intros H; [exact H|].
  injection H as H. now apply IH.
Qed.

(** ** Sending a payload *)

Lemma is_str_true (v : value) (lit : string) :
  is_str v lit = true -> v = VStr lit.
Proof.
  destruct v; simpl; try discriminate.
  intros H. apply String.eqb_eq in H. now subst.
Qed.

Lemma sendPayload_generated (payload requestId : value) (c : Commander) :
  truthy requestId = false ->
  _sendPayload payload requestId c =
  (inr tt,
   sent (_topicPrefix c ++ request_id (_sessionId c) (_requestCounter c + 1))
        (JSON.stringify payload) (_requestCounter c + 1) c).
Proof.
  intros H. unfold _sendPayload, bind. rewrite H. reflexivity.
Qed.

Lemma sendPayload_explicit (payload requestId : value) (c : Commander) :
  truthy requestId = true ->
  _sendPayload payload requestId c =
  (inr tt,
   sent (_topicPrefix c ++ to_string requestId)
        (JSON.stringify payload) (_requestCounter c) c).
Proof.
  intros H. unfold _sendPayload, bind. rewrite H. reflexivity.
Qed.

(** Two payloads with the same JSON text are sent alike. *)
Lemma sendPayload_ext (p q requestId : value) (c : Commander) :
  JSON.stringify p = JSON.stringify q ->
  _sendPayload p requestId c = _sendPayload q requestId c.
Proof.
  intros H. unfold _sendPayload, bind.
  destruct (truthy requestId); simpl; now rewrite H.
Qed.

(** ** Stop, start and restart *)

Ltac connector_cases category id :=
  unfold connector_operation, resolve_target, bind;
  destruct (is_str category "all") eqn:Hall;
  [ apply is_str_true in Hall; subst category; simpl;
    apply sendPayload_ext; reflexivity
  | destruct (is_str id "all") eqn:Hid;
    [ apply is_str_true in Hid; subst id; simpl;
      apply sendPayload_ext; reflexivity
    | destruct (is_str category "cloud") eqn:Hcloud;
      [ apply is_str_true in Hcloud; subst category; simpl;
        unfold or; destruct (truthy id); simpl;
        [ rewrite Hid; apply sendPayload_ext; reflexivity
        | apply sendPayload_ext; reflexivity ]
      | destruct (is_str category "device") eqn:Hdevice;
        [ apply is_str_true in Hdevice; subst category; simpl;
          unfold or; destruct (truthy id); simpl;
          [ rewrite Hid; apply sendPayload_ext; reflexivity
          | apply sendPayload_ext; reflexivity ]
        | reflexivity ] ] ] ].

Lemma stopConnector_normalizes (category id requestId : value) (c : Commander) :
  stopConnector category id requestId c
  = connector_operation "stop" category id requestId c.
Proof. unfold stopConnector. connector_cases category id. Qed.

Lemma startConnector_normalizes (category id requestId : value) (c : Commander) :
  startConnector category id requestId c
  = connector_operation "start" category id requestId c.
Proof. unfold startConnector. connector_cases category id. Qed.

Lemma restartConnector_normalizes (category id requestId : value) (c : Commander) :
  restartConnector category id requestId c
  = connector_operation "restart" category id requestId c.
Proof. unfold restartConnector. connector_cases category id. Qed.

(** C2.  The stop, start and restart operations do what the normalization
    of the specification says, for every category, id and request id:
    category all is taken for the id and the category is cleared; otherwise
    an id all clears the category whatever it was; otherwise a category other
    than cloud and device is refused with an InvalidArgument error that names
    it; a missing id stands for all; and the request carries
    [<verb>_all_connectors] and no id when the id resolved to all,
    [<verb>_connector] and the id otherwise. *)
Theorem connector_operations_normalize (category id requestId : value) (c : Commander) :
  stopConnector category id requestId c
    = connector_operation "stop" category id requestId c
  /\ startConnector category id requestId c
    = connector_operation "start" category id requestId c
  /\ restartConnector category id requestId c
    = connector_operation "restart" category id requestId c
  /\ kind (InvalidCategory category) = InvalidArgument.
Proof.
  repeat split.
  - apply stopConnector_normalizes.
  - apply startConnector_normalizes.
  - apply restartConnector_normalizes.
Qed.

(** The examples of the specification. *)
Example stop_all_example (c : Commander) :
  stopConnector VUndefined (VStr "all") VUndefined c
  = _sendPayload (VObj [("action", VStr "stop_all_connectors")]) VUndefined c.
Proof. apply sendPayload_ext. reflexivity. Qed.

Example stop_one_example (c : Commander) :
  stopConnector (VStr "cloud") (VStr "sensor1") VUndefined c
  = _sendPayload
      (VObj [ ("category", VStr "cloud"); ("action", VStr "stop_connector");
              ("id", VStr "sensor1") ]) VUndefined c.
Proof. reflexivity. Qed.

(** ** Categories that are refused *)

(** C3, as stated, fails: with the id all, a category outside cloud, device,
    all and [undefined] is not refused; the stop operation publishes. *)
Lemma foreign_category_with_id_all_publishes :
  foreign_category (VStr "foo") = true
  /\ fst (stopConnector (VStr "foo") (VStr "all") VUndefined fresh_commander) = inr tt
  /\ published (_client (snd (stopConnector (VStr "foo") (VStr "all") VUndefined
                                fresh_commander)))
     = [("cloud/bob/gw1/s1::1",
         JSON.stringify (VObj [("action", VStr "stop_all_connectors")]))].
Proof. repeat split. Qed.

(** C3, amended.  For every category outside cloud, device, all and
    [undefined]: the stop, start and restart operations, called with an id
    other than all, fail with an InvalidArgument error and publish nothing;
    the list operation fails so whatever else it is given.  The Commander is
    left as it was. *)
Theorem foreign_category_refused (category id requestId : value) (c : Commander) :
  foreign_category category = true ->
  (is_str id "all" = false ->
     stopConnector category id requestId c = (inl (InvalidCategory category), c)
     /\ startConnector category id requestId c = (inl (InvalidCategory category), c)
     /\ restartConnector category id requestId c = (inl (InvalidCategory category), c))
  /\ listConnectors category requestId c = (inl (InvalidCategory category), c)
  /\ kind (InvalidCategory category) = InvalidArgument.
Proof.
  unfold foreign_category. intros H.
  apply andb_prop in H as [H Hundef].
  apply andb_prop in H as [H Hall].
  apply andb_prop in H as [Hcloud Hdevice].
  apply negb_true_iff in Hundef, Hall, Hcloud, Hdevice.
  repeat split.
  - unfold stopConnector, bind. now rewrite Hall, H, Hcloud, Hdevice.
  - unfold startConnector, bind. now rewrite Hall, H, Hcloud, Hdevice.
  - unfold restartConnector, bind. now rewrite Hall, H, Hcloud, Hdevice.
  - unfold listConnectors, bind. now rewrite Hundef, Hcloud, Hdevice.
Qed.

(** The category [foo] with the connector [c1], and the list operation on
    [foo]. *)
Lemma foreign_category_refused_witness :
  stopConnector (VStr "foo") (VStr "c1") VUndefined fresh_commander
    = (inl (InvalidCategory (VStr "foo")), fresh_commander)
  /\ listConnectors (VStr "foo") VUndefined fresh_commander
    = (inl (InvalidCategory (VStr "foo")), fresh_commander).
Proof.
  destruct (foreign_category_refused (VStr "foo") (VStr "c1") VUndefined
              fresh_commander) as [Hops [Hlist _]].
  - reflexivity.
  - split.
    + apply Hops. reflexivity.
    + exact Hlist.
Defined.

(** ** Sessions *)

Lemma bind_ret {A B : Type} (a : A) (k : A -> M B) (c : Commander) :
  bind (ret a) k c = k a c.
Proof. reflexivity. Qed.

Lemma bind_guard {B : Type} (b : bool) (e : error) (k : unit -> M B) (c : Commander) :
  bind (if b then throw e else ret tt) k c = if b then (inl e, c) else k tt c.
Proof. now destruct b. Qed.

Ltac settle :=
  solve [ left; eexists; reflexivity | right; eexists; reflexivity ].

(** A call throws and leaves the Commander alone, or gets as far as
    [_sendPayload], with the request id it was given unless its body drops
    it. *)
Lemma exec_cases (o : operation) (c : Commander) :
  (exists e, exec o c = (inl e, c))
  \/ (exists payload,
        exec o c
        = _sendPayload payload
            (if drops_requestId o then VUndefined else requestId_of o) c).
Proof.
  destruct o; cbn [exec drops_requestId requestId_of].
  - rewrite stopConnector_normalizes.
    unfold connector_operation. destruct (resolve_target category id); settle.
  - rewrite startConnector_normalizes.
    unfold connector_operation. destruct (resolve_target category id); settle.
  - unfold listConnectors. rewrite bind_guard.
    destruct (_ && _); settle.
  - rewrite restartConnector_normalizes.
    unfold connector_operation. destruct (resolve_target category id); settle.
  - unfold sendDataToConnector. rewrite bind_guard.
    destruct (_ && _); [settle|]. rewrite bind_guard.
    destruct (not_nonempty_string id); settle.
  - unfold sysInfo. rewrite bind_guard.
    destruct (not_nonempty_string gatewayname); [settle|].
    unfold sendDataToConnector. rewrite bind_guard.
    cbn [is_str String.eqb Ascii.eqb Bool.eqb negb andb]. rewrite bind_guard.
    destruct (not_nonempty_string _); settle.
  - unfold resetAgent. rewrite bind_guard.
    destruct (not_nonempty_string gatewayname); [settle|].
    unfold sendDataToConnector. rewrite bind_guard.
    cbn [is_str String.eqb Ascii.eqb Bool.eqb negb andb]. rewrite bind_guard.
    destruct (not_nonempty_string _); settle.
  - unfold updateConnectorConfig. rewrite bind_guard.
    destruct (_ && _); [settle|]. rewrite bind_guard.
    destruct (not_nonempty_string id); [settle|].
    unfold bind at 1.
    destruct (typeof config =? "string").
    + destruct (JSON.parse _); cbn [throw ret]; settle.
    + destruct (_ || _); cbn [throw ret]; settle.
  - unfold deleteConnectorConfig. rewrite bind_guard.
    destruct (_ && _); [settle|]. rewrite bind_guard.
    destruct (not_nonempty_string id); settle.
  - unfold updateConnectorType. rewrite bind_guard.
    destruct (not_nonempty_string type); [settle|]. rewrite bind_guard.
    destruct (not_nonempty_string modulePath); settle.
  - unfold terminateAgent. settle.
  - unfold upgradeAgent. settle.
  - unfold rebootGateway. settle.
  - unfold initAgent.
    do 6 (rewrite bind_guard;
          match goal with
          | |- context [if ?b then (inl _, _) else _] => destruct b; [settle|]
          end).
    settle.
Qed.

(** What a call does to the Commander: nothing when it throws; one
    [publish] when it returns, under a generated request id (and the counter
    moves by one) or under the request id it was given (and the counter
    stays). *)
Lemma exec_effect (o : operation) (c : Commander) :
  (exists e, exec o c = (inl e, c))
  \/ (drops_requestId o || negb (truthy (requestId_of o)) = true
      /\ exists message,
           exec o c
           = (inr tt,
              sent (_topicPrefix c
                    ++ request_id (_sessionId c) (_requestCounter c + 1))
                   message (_requestCounter c + 1) c))
  \/ (drops_requestId o || negb (truthy (requestId_of o)) = false
      /\ exists message,
           exec o c
           = (inr tt,
              sent (_topicPrefix c ++ to_string (requestId_of o))
                   message (_requestCounter c) c)).
Proof.
  destruct (exec_cases o c) as [He | [payload Hp]]; [now left | right].
  destruct (drops_requestId o) eqn:Hd.
  - left. split; [reflexivity|]. eexists.
    rewrite Hp. now apply sendPayload_generated.
  - destruct (truthy (requestId_of o)) eqn:Ht.
    + right. split; [reflexivity|]. eexists.
      rewrite Hp. now apply sendPayload_explicit.
    + left. split; [reflexivity|]. eexists.
      rewrite Hp. now apply sendPayload_generated.
Qed.

Lemma exec_frame (o : operation) (c : Commander) :
  _topicPrefix (snd (exec o c)) = _topicPrefix c
  /\ _sessionId (snd (exec o c)) = _sessionId c.
Proof.
  destruct (exec_effect o c) as [[e H] | [[_ [m H]] | [_ [m H]]]];
    rewrite H; now split.
Qed.

Lemma run_frame (ops : list operation) (c : Commander) :
  _topicPrefix (run ops c) = _topicPrefix c
  /\ _sessionId (run ops c) = _sessionId c.
Proof.
  revert c. induction ops as [|o ops IH]; intros c; simpl; [now split|].
  destruct (IH (snd (exec o c))) as [Hp Hs].
  destruct (exec_frame o c) as [Hp' Hs'].
  split; congruence.
Qed.

(** The counter counts the request ids that were generated. *)
Lemma run_counter (ops : list operation) (c : Commander) :
  _requestCounter (run ops c) = (_requestCounter c + issued ops c)%N.
Proof.
  revert c. induction ops as [|o ops IH]; intros c; cbn [run issued].
  - lia.
  - rewrite IH.
    destruct (exec_effect o c) as [[e H] | [[Hg [m H]] | [Hg [m H]]]];
      rewrite H; cbn [snd sent _requestCounter]; rewrite ?Hg; lia.
Qed.

Lemma dec_inj (n m : N) : dec n = dec m -> n = m.
Proof.
  unfold dec. intros H.
  apply (f_equal NilEmpty.uint_of_string) in H.
  rewrite !NilEmpty.usu in H. injection H as H.
  now apply Unsigned.to_uint_inj.
Qed.

Lemma request_id_inj (sessionId : string) (n m : N) :
  request_id sessionId n = request_id sessionId m -> n = m.
Proof.
  unfold request_id. intros H.
  apply append_inj_l in H. apply (append_inj_l "::") in H.
  now apply dec_inj.
Qed.

Lemma nextRequestIds_from (k : nat) (c : Commander) :
  fst (nextRequestIds k c)
  = map (fun i => VStr (request_id (_sessionId c)
                          (_requestCounter c + N.of_nat i)))
        (seq 1 k).
Proof.
  revert c. induction k as [|k IH]; intros c; [reflexivity|].
  cbn [nextRequestIds _getNextRequestId].
  destruct (nextRequestIds k _) as [ids c''] eqn:Hk.
  cbn [fst seq map]. f_equal.
  pose proof (IH {| _client := _client c;
                    _topicPrefix := _topicPrefix c;
                    _requestCounter := _requestCounter c + 1;
                    _sessionId := _sessionId c |}) as H.
  rewrite Hk in H. cbn [fst _sessionId _requestCounter] in H.
  rewrite <- (seq_shift k 1), map_map, H.
  apply map_ext. intros i. do 2 f_equal. lia.
Qed.

(** A session in which no call is given a request id publishes under the
    generated ids, one after the other. *)
Lemma run_generated (ops : list operation) (c : Commander) :
  (forall o, In o ops -> truthy (requestId_of o) = false) ->
  exists messages,
    published (_client (run ops c))
    = (published (_client c)
       ++ combine
            (generated_topics (_topicPrefix c) (_sessionId c) (_requestCounter c)
               (List.length messages))
            messages)%list.
Proof.
  revert c. induction ops as [|o ops IH]; intros c Hops.
  - exists []. cbn. now rewrite List.app_nil_r.
  - cbn [run].
    assert (Hrest : forall o', In o' ops -> truthy (requestId_of o') = false)
      by (intros o' Ho'; apply Hops; now right).
    destruct (exec_effect o c) as [[e H] | [[_ [m H]] | [Hg [m H]]]].
    + rewrite H. cbn [snd]. now apply IH.
    + rewrite H. cbn [snd].
      destruct (IH (sent (_topicPrefix c
                          ++ request_id (_sessionId c) (_requestCounter c + 1))
                      m (_requestCounter c + 1) c) Hrest) as [messages Hm].
      exists (m :: messages). rewrite Hm. unfold generated_topics.
      cbn [sent _client publish published _topicPrefix _sessionId
             _requestCounter List.length seq map combine].
      rewrite <- List.app_assoc. cbn [app]. do 3 f_equal.
      rewrite <- (seq_shift (List.length messages) 1), map_map.
      apply map_ext. intros i. do 2 f_equal. lia.
    + rewrite (Hops o) in Hg by now left.
      destruct (drops_requestId o); discriminate.
Qed.

(** In a session whose calls of [sysInfo] and [resetAgent] are given no
    request id, the ids that were generated are as many as the calls made
    without a request id that published. *)
Lemma issued_without_requestId (ops : list operation) (c : Commander) :
  (forall o,
     In o ops -> drops_requestId o = true -> truthy (requestId_of o) = false) ->
  issued ops c = invoked_without_requestId ops c.
Proof.
  revert c. induction ops as [|o ops IH]; intros c Hops; [reflexivity|].
  cbn [issued invoked_without_requestId].
  destruct (exec o c) as [outcome c'].
  rewrite IH by (intros o' Ho'; apply Hops; now right).
  destruct outcome as [e|u]; [reflexivity|].
  destruct (drops_requestId o) eqn:Hd; cbn [orb].
  - now rewrite (Hops o (or_introl eq_refl) Hd).
  - now destruct (truthy (requestId_of o)).
Qed.

(** C4 fails on the code.  The ids are generated in sequence, but the calls
    made without a request id are not numbered by their own count: [sysInfo]
    (and [resetAgent] alike) drops the request id it is given and takes a
    generated one.  On the Commander of [new Commander(client, 'gw1', 'bob',
    's1')], [sysInfo('gw1', 'req-7')] publishes on [s1::1], and the call
    after it, [stopConnector('all')], which is the first call of the session
    made without a request id, publishes on [s1::2] and not on [s1::1]. *)
Theorem dropped_request_id_shifts_sequence :
  new_Commander {| published := []; subscribed := [] |}
    (VStr "gw1") (VStr "bob") (VStr "s1") EmptyString
  = inr fresh_commander
  /\ truthy (requestId_of (SysInfo (VStr "gw1") (VStr "req-7"))) = true
  /\ invoked_without_requestId [SysInfo (VStr "gw1") (VStr "req-7")]
       fresh_commander
     = 0%N
  /\ requestId_of (StopConnector (VStr "all") VUndefined VUndefined) = VUndefined
  /\ fst (exec (StopConnector (VStr "all") VUndefined VUndefined)
            (run [SysInfo (VStr "gw1") (VStr "req-7")] fresh_commander))
     = inr tt
  /\ map fst
       (published
          (_client
             (run [ SysInfo (VStr "gw1") (VStr "req-7");
                    StopConnector (VStr "all") VUndefined VUndefined ]
                fresh_commander)))
     = ["cloud/bob/gw1/s1::1"; "cloud/bob/gw1/s1::2"]
  /\ map fst
       (published
          (_client
             (run [ ResetAgent (VStr "gw1") (VStr "req-7");
                    StopConnector (VStr "all") VUndefined VUndefined ]
                fresh_commander)))
     = ["cloud/bob/gw1/s1::1"; "cloud/bob/gw1/s1::2"].
Proof. repeat split. Qed.

(** X23.  A Commander just constructed holds the session id the constructor
    was given, or the one [shortid] generated when it was given none.  On
    it, [k] calls of the request id generator answer [<sessionId>::1] to
    [<sessionId>::k], in that order and all different.  In a session of
    calls made without a request id, the [n]-th call that publishes does so
    on [cloud/<username>/<gateway>/<sessionId>::<n>].  In a session in which
    [sysInfo] and [resetAgent] are given no request id, whatever the other
    calls are given, the [n]-th call that publishes among those made without
    a request id does so on that topic.  And in any session, a call that
    publishes under a generated id ([sysInfo] and [resetAgent] always do)
    does so on the topic numbered by the ids generated so far. *)
Theorem generated_ids_in_sequence (client : Client)
    (gateway username sessionId : value) (generated : string) (c0 : Commander) :
  new_Commander client gateway username sessionId generated = inr c0 ->
  _sessionId c0
  = (if not_nonempty_string sessionId then generated else to_string sessionId)
  /\ (forall k,
        fst (nextRequestIds k c0)
        = map (fun n => VStr (request_id (_sessionId c0) (N.of_nat n))) (seq 1 k)
        /\ NoDup (fst (nextRequestIds k c0)))
  /\ (forall ops,
        (forall o, In o ops -> truthy (requestId_of o) = false) ->
        exists messages,
          published (_client (run ops c0))
          = (published client
             ++ combine
                  (generated_topics
                     ("cloud/" ++ to_string username ++ "/" ++ to_string gateway
                      ++ "/")%string
                     (_sessionId c0) 0 (List.length messages))
                  messages)%list)
  /\ (forall pre o,
        (forall o',
           In o' pre -> drops_requestId o' = true ->
           truthy (requestId_of o') = false) ->
        truthy (requestId_of o) = false ->
        fst (exec o (run pre c0)) = inr tt ->
        exists message,
          published (_client (snd (exec o (run pre c0))))
          = (published (_client (run pre c0))
             ++ [(("cloud/" ++ to_string username ++ "/" ++ to_string gateway
                    ++ "/"
                    ++ request_id (_sessionId c0)
                         (invoked_without_requestId pre c0 + 1))%string,
                  message)])%list)
  /\ (forall pre o,
        drops_requestId o || negb (truthy (requestId_of o)) = true ->
        fst (exec o (run pre c0)) = inr tt ->
        exists message,
          published (_client (snd (exec o (run pre c0))))
          = (published (_client (run pre c0))
             ++ [(("cloud/" ++ to_string username ++ "/" ++ to_string gateway
                    ++ "/" ++ request_id (_sessionId c0) (issued pre c0 + 1))%string,
                  message)])%list).
Proof.
  intros Hnew.
  assert (Hc0 : _requestCounter c0 = 0%N
                /\ _topicPrefix c0
                   = "cloud/" ++ to_string username ++ "/" ++ to_string gateway ++ "/"
                /\ _client c0 = client
                /\ _sessionId c0
                   = (if not_nonempty_string sessionId then generated
                      else to_string sessionId)).
  { unfold new_Commander in Hnew.
    destruct (not_nonempty_string gateway); [discriminate|].
    destruct (not_nonempty_string username); [discriminate|].
    injection Hnew as <-. now repeat split. }
  destruct Hc0 as (Hcounter & Hprefix & Hclient & Hsession).
  assert (Hany : forall pre o,
             drops_requestId o || negb (truthy (requestId_of o)) = true ->
             fst (exec o (run pre c0)) = inr tt ->
             exists message,
               published (_client (snd (exec o (run pre c0))))
               = (published (_client (run pre c0))
                  ++ [(("cloud/" ++ to_string username ++ "/" ++ to_string gateway
                         ++ "/" ++ request_id (_sessionId c0) (issued pre c0 + 1))%string,
                       message)])%list).
  { intros pre o Hgen Hok.
    destruct (run_frame pre c0) as [Hp Hs].
    pose proof (run_counter pre c0) as Hn. rewrite Hcounter, N.add_0_l in Hn.
    destruct (exec_effect o (run pre c0)) as [[e H] | [[Hg [m H]] | [Hg [m H]]]].
    - rewrite H in Hok. discriminate.
    - exists m. rewrite H. cbn [snd sent _client publish published].
      rewrite Hp, Hs, Hn, Hprefix.
      now rewrite !append_assoc.
    - congruence. }
  split; [exact Hsession|]. split; [|split; [|split]].
  - intros k.
    assert (Hids : fst (nextRequestIds k c0)
                   = map (fun n => VStr (request_id (_sessionId c0) (N.of_nat n)))
                       (seq 1 k)).
    { rewrite nextRequestIds_from, Hcounter. apply map_ext.
      intros i. now rewrite N.add_0_l. }
    split; [exact Hids|].
    rewrite Hids. apply Injective_map_NoDup; [|apply seq_NoDup].
    intros n m H. injection H as H.
    apply request_id_inj in H. lia.
  - intros ops Hops.
    destruct (run_generated ops c0 Hops) as [messages Hm].
    exists messages. now rewrite Hm, Hclient, Hprefix, Hcounter.
  - intros pre o Hpre Hrid Hok.
    rewrite <- (issued_without_requestId pre c0 Hpre).
    apply Hany; [|exact Hok].
    rewrite Hrid. now destruct (drops_requestId o).
  - exact Hany.
Qed.

(** The session id given; three generated ids; a session of three calls of
    which one throws; a call made without a request id after one that was
    given its own; and [sysInfo] given a request id after a call that
    published. *)
Lemma generated_ids_in_sequence_witness :
  _sessionId fresh_commander = "s1"
  /\ fst (nextRequestIds 3 fresh_commander)
     = [VStr "s1::1"; VStr "s1::2"; VStr "s1::3"]
  /\ (exists messages,
        published
          (_client
             (run [ StopConnector (VStr "all") VUndefined VUndefined;
                    ListConnectors (VStr "all") VUndefined;
                    SysInfo (VStr "gw1") VUndefined ] fresh_commander))
        = combine
            (generated_topics "cloud/bob/gw1/" "s1" 0 (List.length messages))
            messages)
  /\ (exists message,
        published
          (_client
             (snd (exec (SysInfo (VStr "gw1") VUndefined)
                     (run [StopConnector (VStr "all") VUndefined (VStr "r1")]
                        fresh_commander))))
        = (published
             (_client (run [StopConnector (VStr "all") VUndefined (VStr "r1")]
                         fresh_commander))
           ++ [("cloud/bob/gw1/s1::1", message)])%list)
  /\ exists message,
       published
         (_client
            (snd (exec (SysInfo (VStr "gw1") (VStr "req-7"))
                    (run [StopConnector (VStr "all") VUndefined VUndefined]
                       fresh_commander))))
       = (published
            (_client (run [StopConnector (VStr "all") VUndefined VUndefined]
                        fresh_commander))
          ++ [("cloud/bob/gw1/s1::2", message)])%list.
Proof.
  destruct (generated_ids_in_sequence
              {| published := []; subscribed := [] |}
              (VStr "gw1") (VStr "bob") (VStr "s1") EmptyString
              fresh_commander eq_refl)
    as (Hsession & Hids & Hmany & Hclaim & Hany).
  split; [exact Hsession|]. split; [|split; [|split]].
  - exact (proj1 (Hids 3)).
  - apply (Hmany [ StopConnector (VStr "all") VUndefined VUndefined;
                   ListConnectors (VStr "all") VUndefined;
                   SysInfo (VStr "gw1") VUndefined ]).
    intros o [<- | [<- | [<- | []]]]; reflexivity.
  - apply (Hclaim [StopConnector (VStr "all") VUndefined (VStr "r1")]
             (SysInfo (VStr "gw1") VUndefined)); try reflexivity.
    intros o' [<- | []]; discriminate.
  - exact (Hany [StopConnector (VStr "all") VUndefined VUndefined]
             (SysInfo (VStr "gw1") (VStr "req-7")) eq_refl eq_refl).
Defined.

(** ** A request id given by the caller *)

(** X2.  Every call but [sysInfo] and [resetAgent] that is given a request id
    and publishes does so on the topic prefix followed by that request id, and
    leaves the request counter alone. *)
Lemma explicit_requestId_respected (o : operation) (c : Commander) :
  drops_requestId o = false ->
  truthy (requestId_of o) = true ->
  fst (exec o c) = inr tt ->
  _requestCounter (snd (exec o c)) = _requestCounter c
  /\ exists message,
       published (_client (snd (exec o c)))
       = (published (_client c)
          ++ [((_topicPrefix c ++ to_string (requestId_of o))%string, message)])%list.
Proof.
  intros Hd Ht Hok.
  destruct (exec_effect o c) as [[e H] | [[Hg [m H]] | [Hg [m H]]]].
  - rewrite H in Hok. discriminate.
  - rewrite Hd, Ht in Hg. discriminate.
  - rewrite H. split; [reflexivity|]. now exists m.
Qed.

(** C10 fails on the code: [sysInfo] (and [resetAgent] alike) is documented
    with an optional request id but declares no such parameter.  Called with
    the request id [req-7], as a client or the shell may, it publishes under a
    generated id and moves the counter. *)
Theorem sysInfo_drops_requestId :
  requestId_of (SysInfo (VStr "gw1") (VStr "req-7")) = VStr "req-7"
  /\ exec (SysInfo (VStr "gw1") (VStr "req-7")) fresh_commander
     = (inr tt,
        sent "cloud/bob/gw1/s1::1"
          (JSON.stringify
             (VObj [ ("action", VStr "send_data");
                     ("category", VStr "device");
                     ("id", VStr "cnc-gateway-gw1");
                     ("data",
                      JSON.stringify (VObj [("command", VStr "system_info")])) ]))
          1 fresh_commander)
  /\ option_map (fun f => f [VStr "gw1"; VStr "req-7"] fresh_commander)
       (Shell.commander_method "sysInfo")
     = Some (exec (SysInfo (VStr "gw1") (VStr "req-7")) fresh_commander)
  /\ _requestCounter
       (snd (exec (ResetAgent (VStr "gw1") (VStr "req-7")) fresh_commander)) = 1%N.
Proof. repeat split. Qed.

(** ** The provisioning plan *)

Lemma sendPayload_publishes (payload requestId : value) (c : Commander) :
  fst (_sendPayload payload requestId c) = inr tt
  /\ published (_client (snd (_sendPayload payload requestId c)))
     = (published (_client c)
        ++ [(topic_for requestId c, JSON.stringify payload)])%list.
Proof.
  unfold topic_for. destruct (truthy requestId) eqn:Ht.
  - rewrite sendPayload_explicit by assumption. now split.
  - rewrite sendPayload_generated by assumption. now split.
Qed.

Lemma assoc_put_other (k k' : string) (v : value) (props : list (string * value)) :
  k <> k' -> assoc k' (put k v props) = assoc k' props.
Proof.
  intros Hne. induction props as [|[k0 v0] props IH]; simpl.
  - destruct (k =? k') eqn:E; [apply String.eqb_eq in E; contradiction | reflexivity].
  - destruct (k0 =? k) eqn:E0; simpl.
    + apply String.eqb_eq in E0. subst k0.
      destruct (k =? k') eqn:E; [apply String.eqb_eq in E; contradiction | reflexivity].
    + destruct (enumerated_before k k0); simpl.
      * destruct (k =? k') eqn:E;
          [apply String.eqb_eq in E; contradiction | reflexivity].
      * destruct (k0 =? k'); [reflexivity | exact IH].
Qed.

Lemma get_set_other (o : value) (k k' : string) (v : value) :
  k <> k' -> get (set o k v) k' = get o k'.
Proof.
  intros Hne. destruct o; simpl; try reflexivity.
  now rewrite assoc_put_other.
Qed.

Lemma not_nonempty_string_false (v : value) :
  not_nonempty_string v = false ->
  exists s, v = VStr s /\ s <> EmptyString.
Proof.
  destruct v; simpl; try discriminate.
  intros H. exists s. split; [reflexivity|].
  intros ->. discriminate.
Qed.

Ltac other_key key :=
  repeat (rewrite get_set_other with (k' := key) by discriminate).

(** C1.  For every options object [initAgent] accepts, the plan is
    published as one JSON array in one message on one request id topic, and
    its steps stand at fixed places: 0 writes the CncCloud configuration
    [cnc-cloud-<newGatewayName>], 1 writes the CncGateway configuration
    [cnc-gateway-<newGatewayName>], 2 sends [disable_local_network] to
    [cnc-gateway-<currentGatewayName>], 3 deletes the cloud configuration
    [cnc-cloud-<currentGatewayName>], 4 deletes the device configuration
    [cnc-gateway-<currentGatewayName>]; a sixth step, the Http cloud
    connector [http], stands at 5 exactly when [options.apiKey] is a
    non-empty string. *)
Theorem provisioning_plan_order (options requestId : value) (c : Commander) :
  accepted options = true ->
  exists plan,
    fst (initAgent options requestId c) = inr tt
    /\ published (_client (snd (initAgent options requestId c)))
       = (published (_client c)
          ++ [(topic_for requestId c, JSON.stringify (VArr plan))])%list
    /\ step_is (nth_error plan 0) "update_config" "cloud"
         ("cnc-cloud-" ++ to_string (get options "newGatewayName"))
    /\ configures (nth_error plan 0) "CncCloud"
    /\ step_is (nth_error plan 1) "update_config" "device"
         ("cnc-gateway-" ++ to_string (get options "newGatewayName"))
    /\ configures (nth_error plan 1) "CncGateway"
    /\ step_is (nth_error plan 2) "send_data" "device"
         ("cnc-gateway-" ++ to_string (get options "currentGatewayName"))
    /\ commands (nth_error plan 2) "disable_local_network"
    /\ step_is (nth_error plan 3) "delete_config" "cloud"
         ("cnc-cloud-" ++ to_string (get options "currentGatewayName"))
    /\ step_is (nth_error plan 4) "delete_config" "device"
         ("cnc-gateway-" ++ to_string (get options "currentGatewayName"))
    /\ (has_apiKey options = true ->
          List.length plan = 6
          /\ step_is (nth_error plan 5) "update_config" "cloud" "http"
          /\ configures (nth_error plan 5) "Http")
    /\ (has_apiKey options = false -> List.length plan = 5).
Proof.
  unfold accepted. intros H.
  apply andb_prop in H as [H Hpassword].
  apply andb_prop in H as [H Husername].
  apply andb_prop in H as [H Hnew].
  apply andb_prop in H as [H Hcurrent].
  apply andb_prop in H as [H Hhost].
  apply andb_prop in H as [Htruthy Hobject].
  apply negb_true_iff in Hpassword, Husername, Hnew, Hcurrent, Hhost.
  unfold initAgent.
  rewrite bind_guard, Htruthy, Hobject.
  cbv beta iota.
  do 5 (rewrite bind_guard;
        match goal with
        | Hn : ?b = false |- context [if ?b then _ else _] => rewrite Hn
        end;
        cbv beta iota).
  assert (Hkey : (typeof (get options "apiKey") =? "string")
                 && (0 <? length_of (get options "apiKey"))%Z
                 = has_apiKey options).
  { unfold has_apiKey. destruct (get options "apiKey"); try reflexivity.
    simpl. now destruct s. }
  other_key "host". other_key "newGatewayName". other_key "currentGatewayName".
  other_key "username". other_key "password". other_key "apiKey".
  rewrite Hkey.
  eexists. split; [apply sendPayload_publishes|].
  split; [apply sendPayload_publishes|].
  destruct (has_apiKey options);
    repeat match goal with
           | |- _ /\ _ => split
           | |- _ -> _ => intros Hk; try discriminate Hk
           | |- step_is _ _ _ _ => unfold step_is; eexists; repeat split
           | |- configures _ _ => unfold configures; eexists; repeat split
           | |- commands _ _ => unfold commands; eexists; repeat split
           | |- List.length _ = _ => reflexivity
           end.
Qed.

(** The plan for [example_options], which carry an api key. *)
Lemma provisioning_plan_order_witness :
  exists plan,
    published (_client (snd (initAgent example_options VUndefined fresh_commander)))
      = [("cloud/bob/gw1/s1::1", JSON.stringify (VArr plan))]
    /\ List.length plan = 6
    /\ step_is (nth_error plan 0) "update_config" "cloud" "cnc-cloud-gw2"
    /\ step_is (nth_error plan 4) "delete_config" "device" "cnc-gateway-gw1".
Proof.
  destruct (provisioning_plan_order example_options VUndefined fresh_commander
              eq_refl)
    as [plan (_ & Hpub & H0 & _ & _ & _ & _ & _ & _ & H4 & Hkey & _)].
  exists plan. repeat split.
  - exact Hpub.
  - exact (proj1 (Hkey eq_refl)).
  - exact H0.
  - exact H4.
Defined.

(** ** Configuration text that does not parse *)

Lemma connector_category_guard (category : value) :
  connector_category category = true ->
  negb (is_str category "cloud") && negb (is_str category "device") = false.
Proof.
  unfold connector_category.
  destruct (is_str category "cloud"), (is_str category "device");
    simpl; congruence.
Qed.

(** C6.  For a category of cloud or device and an id that is a non-empty
    string: when the config argument is a string and its text between the
    outer two characters is not valid JSON, [updateConnectorConfig] fails with
    a ConfigParseError that carries what the parser threw, nothing is
    published, and the Commander is left as it was. *)
Theorem malformed_config_not_published (category id requestId : value)
    (config : string) (ex : JSON.exception) (c : Commander) :
  connector_category category = true ->
  not_nonempty_string id = false ->
  JSON.parse (substring config 1 (Z.of_nat (String.length config) - 1)) = inl ex ->
  updateConnectorConfig category id (VStr config) requestId c
    = (inl (ErrorParsingConfiguration ex), c)
  /\ kind (ErrorParsingConfiguration ex) = ConfigParseError.
Proof.
  intros Hcat Hid Hparse. split; [|reflexivity].
  unfold updateConnectorConfig.
  rewrite bind_guard, (connector_category_guard _ Hcat).
  rewrite bind_guard, Hid.
  unfold bind. cbn [typeof to_string length_of String.eqb Ascii.eqb Bool.eqb].
  now rewrite Hparse.
Qed.

(** The config ['{bad'] between quotes. *)
Lemma malformed_config_not_published_witness :
  updateConnectorConfig (VStr "cloud") (VStr "c1") (VStr "'{bad'") VUndefined
    fresh_commander
  = (inl (ErrorParsingConfiguration (JSON.SyntaxError "bad")), fresh_commander).
Proof.
  exact (proj1 (malformed_config_not_published (VStr "cloud") (VStr "c1")
                  VUndefined "'{bad'" (JSON.SyntaxError "bad") fresh_commander
                  eq_refl eq_refl eq_refl)).
Defined.

(** Text that writes its numbers with a fraction or an exponent is JSON: it
    is parsed, and published as the numbers it writes. *)
Lemma config_numbers_are_read :
  updateConnectorConfig (VStr "cloud") (VStr "c1")
    (VStr "'[1.5, 2e3, -0.25E-2]'") VUndefined fresh_commander
  = _sendPayload
      (config_request (VStr "cloud") (VStr "c1")
         (VArr [ VFloat (Double.Finite false 6755399441055744 (-52));
                 VNum 2000;
                 VFloat (Double.Finite true 5764607523034235 (-61)) ]))
      VUndefined fresh_commander
  /\ JSON.stringify
       (VArr [ VFloat (Double.Finite false 6755399441055744 (-52));
               VNum 2000;
               VFloat (Double.Finite true 5764607523034235 (-61)) ])
     = VStr "[1.5,2000,-0.0025]".
Proof. split; vm_compute; reflexivity. Qed.

(** ** The data of a send_data request *)

Lemma substring_0_drop_last (r : string) :
  String.substring 0 (String.length r - 1) r = drop_last r.
Proof.
  induction r as [|a r IH]; [reflexivity|].
  destruct r as [|b r]; [reflexivity|].
  replace (String.length (String a (String b r)) - 1)
    with (S (String.length (String b r) - 1)) by (cbn [String.length]; lia).
  change (String.substring 0 (S ?m) (String a ?t))
    with (String a (String.substring 0 m t)).
  now rewrite IH.
Qed.

(** On a string of two characters or more, [s.substring(1, s.length - 1)] is
    [s] without its first and last character. *)
Lemma substring_strip_ends (s : string) :
  2 <= String.length s ->
  substring s 1 (Z.of_nat (String.length s) - 1) = strip_ends s.
Proof.
  destruct s as [|a r]; cbn [String.length]; [lia|]. intros Hlen.
  unfold substring, clamp. cbn [String.length strip_ends].
  replace (Z.min (Z.min (Z.max 1 0) (Z.of_nat (S (String.length r))))
             (Z.min (Z.max (Z.of_nat (S (String.length r)) - 1) 0)
                (Z.of_nat (S (String.length r))))) with 1%Z by lia.
  replace (Z.max (Z.min (Z.max 1 0) (Z.of_nat (S (String.length r))))
             (Z.min (Z.max (Z.of_nat (S (String.length r)) - 1) 0)
                (Z.of_nat (S (String.length r)))) - 1)%Z
    with (Z.of_nat (String.length r - 1)) by lia.
  rewrite Nat2Z.id. change (Z.to_nat 1) with 1.
  cbn [String.substring]. apply substring_0_drop_last.
Qed.

(** C7, as stated, fails: a string of one character is data that is a
    string, yet what is published as the data is the two characters of an
    empty JSON object, not the string with a character taken off each end. *)
Lemma one_character_data_not_stripped :
  connector_category (VStr "device") = true
  /\ not_nonempty_string (VStr "gw1") = false
  /\ sendDataToConnector (VStr "device") (VStr "gw1") (VStr "a") VUndefined
       fresh_commander
     = _sendPayload (data_request (VStr "device") (VStr "gw1") (VStr "{}"))
         VUndefined fresh_commander
  /\ JSON.stringify (data_request (VStr "device") (VStr "gw1") (VStr "{}"))
     <> JSON.stringify
          (data_request (VStr "device") (VStr "gw1") (VStr (strip_ends "a")))
  /\ JSON.stringify (data_request (VStr "device") (VStr "gw1") (VStr "{}"))
     <> JSON.stringify
          (data_request (VStr "device") (VStr "gw1") (VStr (substring "a" 1 0))).
Proof. repeat split; discriminate. Qed.

(** C7, amended.  For a category of cloud or device and an id that is a
    non-empty string, the data of the published request is: the string without
    its first and last character, when the data is a string of two characters
    or more; its JSON text, when the data is an object; the empty string, when
    the data is the empty string or absent. *)
Theorem send_data_normalizes (category id data requestId : value) (c : Commander) :
  connector_category category = true ->
  not_nonempty_string id = false ->
  (forall s, data = VStr s -> 2 <= String.length s ->
     sendDataToConnector category id data requestId c
     = _sendPayload (data_request category id (VStr (strip_ends s))) requestId c)
  /\ (forall elems, data = VArr elems ->
        sendDataToConnector category id data requestId c
        = _sendPayload (data_request category id (JSON.stringify data)) requestId c)
  /\ (forall props, data = VObj props ->
        sendDataToConnector category id data requestId c
        = _sendPayload (data_request category id (JSON.stringify data)) requestId c)
  /\ (data = VStr EmptyString \/ data = VUndefined \/ data = VNull ->
        sendDataToConnector category id data requestId c
        = _sendPayload (data_request category id (VStr EmptyString)) requestId c).
Proof.
  intros Hcat Hid.
  assert (Hbody : forall d,
             sendDataToConnector category id d requestId c
             = _sendPayload
                 (data_request category id
                    (if (typeof d =? "string") && (2 <=? length_of d)%Z
                     then VStr (substring (to_string d) 1 (length_of d - 1))
                     else if negb (truthy d) then VStr EmptyString
                     else if typeof d =? "object" then JSON.stringify d
                     else VStr "{}"))
                 requestId c).
  { intros d. unfold sendDataToConnector.
    rewrite bind_guard, (connector_category_guard _ Hcat).
    now rewrite bind_guard, Hid. }
  repeat split.
  - intros s -> Hlen. rewrite Hbody.
    cbn [typeof to_string length_of String.eqb Ascii.eqb Bool.eqb andb].
    replace (2 <=? Z.of_nat (String.length s))%Z with true
      by (symmetry; apply Z.leb_le; lia).
    now rewrite substring_strip_ends.
  - intros elems ->. now rewrite Hbody.
  - intros props ->. now rewrite Hbody.
  - intros [-> | [-> | ->]]; now rewrite Hbody.
Qed.

(** The data [hello] between quotes. *)
Lemma send_data_normalizes_witness :
  sendDataToConnector (VStr "device") (VStr "gw1") (VStr "'hello'") VUndefined
    fresh_commander
  = _sendPayload (data_request (VStr "device") (VStr "gw1") (VStr "hello"))
      VUndefined fresh_commander.
Proof.
  exact (proj1 (send_data_normalizes (VStr "device") (VStr "gw1")
                  (VStr "'hello'") VUndefined fresh_commander eq_refl eq_refl)
           "'hello'" eq_refl (le_S _ _ (le_S _ _ (le_S _ _ (le_S _ _ (le_S _ _ (le_n 2))))))).
Defined.

(** The example of the specification: an object is sent as its JSON text. *)
Example send_data_example (c : Commander) :
  sendDataToConnector (VStr "device") (VStr "gw1")
    (VObj [("command", VStr "system_info")]) VUndefined c
  = _sendPayload
      (data_request (VStr "device") (VStr "gw1")
         (JSON.stringify (VObj [("command", VStr "system_info")])))
      VUndefined c.
Proof. reflexivity. Qed.

(** ** The loop of the shell *)

Lemma example_shell_constructed :
  Shell.new_Shell {| published := []; subscribed := [] |}
    (VStr "gw1") (VStr "bob") (VStr "s1") = inr example_shell.
Proof. reflexivity. Qed.

(** A turn ends the loop exactly when the first token is [q] or the second
    token is [quit]; it publishes nothing then. *)
Lemma repl_turn_done (line : string) (sh : Shell.Shell) :
  fst (Shell.repl_turn (Some line) sh) = ends_loop line
  /\ (ends_loop line = true ->
      snd (Shell.repl_turn (Some line) sh) = Shell.log Shell.Prompt sh).
Proof.
  unfold Shell.repl_turn, ends_loop.
  destruct (Shell.match_tokens line) as [tokens|]; [|split; [reflexivity|discriminate]].
  destruct (is_str (Shell.token 0 tokens) "q" || is_str (Shell.token 1 tokens) "quit").
  - now split.
  - split; [|discriminate].
    destruct (Shell.lookup _ _); try reflexivity.
    now destruct (Shell.method info _ _) as [[e|u] c'].
Qed.

(** C8 fails on the code: of the four quit tokens only [q] ends the loop.
    A line [quit], [exit] or [bye] is answered with bad command and the loop
    goes on, so the promise of [launch] stays pending; and a line whose second
    token is [quit] ends the loop whatever its first token is. *)
Theorem quit_tokens_not_honoured :
  Shell.repl_turn (Some "quit") example_shell
    = (false, Shell.log Shell.BadCommand (Shell.log Shell.Prompt example_shell))
  /\ Shell.repl_turn (Some "exit") example_shell
    = (false, Shell.log Shell.BadCommand (Shell.log Shell.Prompt example_shell))
  /\ Shell.repl_turn (Some "bye") example_shell
    = (false, Shell.log Shell.BadCommand (Shell.log Shell.Prompt example_shell))
  /\ Shell.repl_turn (Some "q") example_shell
    = (true, Shell.log Shell.Prompt example_shell)
  /\ Shell.repl_turn (Some "sys:reboot quit") example_shell
    = (true, Shell.log Shell.Prompt example_shell)
  /\ Shell.launch [Some "quit"; Some "exit"; Some "bye"] example_shell
    = inr (Shell.Reading
             (Shell.log Shell.BadCommand (Shell.log Shell.Prompt
               (Shell.log Shell.BadCommand (Shell.log Shell.Prompt
                 (Shell.log Shell.BadCommand (Shell.log Shell.Prompt
                   (Shell.with_promptDef (Some Shell.Pending) example_shell))))))))
  /\ (exists sh,
        Shell.launch [Some "sys:reboot quit"; Some "sys:reboot"] example_shell
        = inr (Shell.Returned sh [Some "sys:reboot"])
        /\ Shell._promptDef sh = Some Shell.Resolved
        /\ published (_client (Shell._commander sh)) = []).
Proof.
  repeat split.
  eexists. repeat split.
Qed.

(** ** Tab completion *)

Lemma prefix_iff (p s : string) :
  String.prefix p s = true <-> exists t, s = p ++ t.
Proof.
  revert s. induction p as [|a p IH]; intros s.
  - split; [intros _; now exists s | intros _; now destruct s].
  - destruct s as [|b s]; simpl;
      [split; [discriminate | intros [t Ht]; discriminate]|].
    destruct (ascii_dec a b) as [->|Hne].
    + rewrite IH. split; intros [t Ht]; exists t; [now rewrite Ht | now injection Ht].
    + split; [discriminate|]. intros [t Ht]. congruence.
Qed.

(** [indexOf] finds the partial exactly in the names that contain it. *)
Lemma indexOf_contains (name partial : string) :
  (0 <=? indexOf name partial)%Z = true <-> contains name partial.
Proof.
  unfold indexOf, contains. rewrite Z.leb_le.
  assert (H : forall s i, (0 <= i)%Z ->
            ((0 <= indexOf_from i s partial)%Z
             <-> exists before after, s = before ++ partial ++ after)).
  { clear. induction s as [|a s IH]; intros i Hi; cbn [indexOf_from].
    - destruct (String.prefix partial EmptyString) eqn:Hp; cbv iota.
      + split; [intros _ | intros _; lia].
        apply prefix_iff in Hp as [t Ht]. now exists EmptyString, t.
      + split; [lia|]. intros [before [after Hs]].
        destruct before; [|discriminate].
        assert (String.prefix partial EmptyString = true)
          by (apply prefix_iff; now exists after).
        congruence.
    - destruct (String.prefix partial (String a s)) eqn:Hp; cbv iota.
      + split; [intros _ | intros _; lia].
        apply prefix_iff in Hp as [t Ht]. now exists EmptyString, t.
      + rewrite (IH (i + 1)%Z) by lia.
        split; intros [before [after Hs]].
        * exists (String a before), after. simpl. now rewrite Hs.
        * destruct before as [|b before].
          -- assert (String.prefix partial (String a s) = true)
               by (apply prefix_iff; now exists after).
             congruence.
          -- injection Hs as _ Hs. now exists before, after. }
  now apply H.
Qed.

(** The registered command names do not depend on the gateway. *)
Lemma registered_command_names (gateway : string) :
  Shell.command_names (Shell._buildCommandMap gateway)
  = [ "con:stop"; "con:stop_all"; "con:stop_cloud"; "con:stop_device";
      "con:start"; "con:start_all"; "con:start_cloud"; "con:start_device";
      "con:restart"; "con:restart_all"; "con:restart_cloud"; "con:restart_device";
      "con:list"; "con:list_all"; "con:list_cloud"; "con:list_device";
      "con:send_data"; "con:update_config"; "con:delete_config";
      "con:update_type"; "agent:reset"; "agent:terminate"; "agent:upgrade";
      "agent:prov_dev"; "agent:prov_prod"; "con:config_lepton";
      "sys:info"; "sys:reboot" ].
Proof. reflexivity. Qed.

(** For a partial that is not empty, the completions are the registered
    names that contain it, whatever was asked before. *)
Lemma tabComplete_nonempty (commandMap : list (string * Shell.CommandInfo))
    (partial : string) (matches : list string) (name : string) :
  partial <> EmptyString ->
  In name (Shell._tabComplete commandMap partial matches)
  <-> In name (Shell.command_names commandMap) /\ contains name partial.
Proof.
  intros Hne. unfold Shell._tabComplete.
  destruct (partial =? EmptyString) eqn:E;
    [apply String.eqb_eq in E; contradiction|].
  rewrite filter_In. now rewrite indexOf_contains.
Qed.

(** For the empty partial, the completions are the array as the closure
    holds it: empty on a new closure, the answer to the query before
    otherwise. *)
Lemma tabComplete_empty (commandMap : list (string * Shell.CommandInfo))
    (matches : list string) :
  Shell._tabComplete commandMap EmptyString matches = matches.
Proof. reflexivity. Qed.

(** C9, as stated, fails.  The empty partial is answered with no completion
    when it is the first query, but after the query [sys:] it is answered
    with the two completions of [sys:], which the closure still holds. *)
Lemma empty_partial_returns_stale_matches :
  Shell.completions (Shell._commandMap example_shell) [EmptyString] = []
  /\ Shell.completions (Shell._commandMap example_shell) ["sys:"]
     = ["sys:info"; "sys:reboot"]
  /\ Shell.completions (Shell._commandMap example_shell) ["sys:"; EmptyString]
     = ["sys:info"; "sys:reboot"].
Proof. repeat split. Qed.

(** C9, amended.  Whatever was asked before: for a partial that is not
    empty, the completions are exactly the registered command names that
    contain the partial, at their start or further on; for the empty partial
    they are the completions of the query before it, and there are none when
    it is the first query. *)
Theorem completion_contract (gateway : string) (earlier : list string)
    (partial : string) :
  (partial <> EmptyString ->
   forall name,
     In name
       (Shell.completions (Shell._buildCommandMap gateway)
          (earlier ++ [partial])%list)
     <-> In name (Shell.command_names (Shell._buildCommandMap gateway))
         /\ contains name partial)
  /\ Shell.completions (Shell._buildCommandMap gateway)
       (earlier ++ [EmptyString])%list
     = Shell.completions (Shell._buildCommandMap gateway) earlier
  /\ Shell.completions (Shell._buildCommandMap gateway) [EmptyString] = [].
Proof.
  unfold Shell.completions. split; [|split].
  - intros Hpartial name. rewrite fold_left_app. cbn [fold_left].
    now apply tabComplete_nonempty.
  - rewrite fold_left_app. cbn [fold_left]. apply tabComplete_empty.
  - reflexivity.
Qed.

(** The partial [art], which no command starts with, after the query
    [sys:]: [con:start] is among its completions; and the empty partial
    after them both. *)
Lemma completion_contract_witness :
  In "con:start"
    (Shell.completions (Shell._buildCommandMap "gw1") ["sys:"; "art"])
  /\ Shell.completions (Shell._buildCommandMap "gw1") ["sys:"; "art"; EmptyString]
     = Shell.completions (Shell._buildCommandMap "gw1") ["sys:"; "art"].
Proof.
  split.
  - apply (proj1 (completion_contract "gw1" ["sys:"] "art")); [discriminate|].
    split; [cbn; tauto|].
    now exists "con:st", EmptyString.
  - exact (proj1 (proj2 (completion_contract "gw1" ["sys:"; "art"] EmptyString))).
Defined.

(** ** JSON text read back *)

Lemma value_ind (P : value -> Prop) :
  P VUndefined -> P VNull -> (forall b, P (VBool b)) -> P VNaN ->
  (forall n, P (VNum n)) -> (forall f, P (VFloat f)) -> (forall s, P (VStr s)) ->
  (forall elems, Forall P elems -> P (VArr elems)) ->
  (forall props, Forall (fun p => P (snd p)) props -> P (VObj props)) ->
  forall v, P v.
Proof.
  intros Hu Hn Hb Ha Hz Hf Hs Harr Hobj.
  fix IH 1.
  intros [ | | b | | n | f | s | elems | props];
    [exact Hu | exact Hn | apply Hb | exact Ha | apply Hz | apply Hf | apply Hs | | ].
  - apply Harr. induction elems as [|e es IHes]; constructor;
      [apply IH | exact IHes].
  - apply Hobj. induction props as [|[k w] ps IHps]; constructor;
      [apply IH | exact IHps].
Qed.

(** *** Numbers *)

Lemma digit_is_no_other (c : ascii) :
  JSON.is_digit c = true ->
  JSON.is_ws c = false
  /\ (c =? "[")%char = false /\ (c =? "{")%char = false
  /\ (c =? "]")%char = false /\ (c =? "}")%char = false
  /\ (c =? JSON.dquote)%char = false /\ (c =? "-")%char = false
  /\ (c =? ".")%char = false /\ (c =? "e")%char = false
  /\ (c =? "E")%char = false.
Proof.
  destruct c as [[] [] [] [] [] [] [] []]; intros H;
    try discriminate H; repeat split.
Qed.

Lemma number_end_digits_end (rest : string) :
  number_end rest = true -> digits_end rest = true.
Proof.
  destruct rest as [|c r]; [reflexivity|]. cbn [number_end digits_end].
  destruct (JSON.is_digit c); [discriminate | reflexivity].
Qed.

Lemma digits_run (ds rest : string) :
  all_digits ds = true ->
  digits_end rest = true ->
  JSON.digits (ds ++ rest) = (ds, rest).
Proof.
  intros Hds Hrest. induction ds as [|c ds IH]; cbn [append].
  - destruct rest as [|c r]; [reflexivity|].
    cbn [JSON.digits]. cbn [digits_end] in Hrest.
    now destruct (JSON.is_digit c).
  - cbn [all_digits] in Hds. apply andb_prop in Hds as [Hc Hds].
    cbn [JSON.digits]. now rewrite Hc, (IH Hds).
Qed.

Lemma all_digits_app (a b : string) :
  all_digits (a ++ b) = all_digits a && all_digits b.
Proof.
  induction a as [|c a IH]; [reflexivity|].
  cbn [append all_digits]. now rewrite IH, andb_assoc.
Qed.

Lemma all_digits_uint (u : Decimal.uint) :
  all_digits (NilEmpty.string_of_uint u) = true.
Proof. induction u; cbn [NilEmpty.string_of_uint all_digits]; auto. Qed.

Lemma all_digits_dec (n : N) : all_digits (dec n) = true.
Proof. apply all_digits_uint. Qed.

Lemma all_digits_zeros (j : nat) : all_digits (Double.zeros j) = true.
Proof. induction j; [reflexivity | exact IHj]. Qed.

Lemma digits_value_app (a b : string) (acc : N) :
  JSON.digits_value acc (a ++ b) = JSON.digits_value (JSON.digits_value acc a) b.
Proof.
  revert acc. induction a as [|c a IH]; intros acc; [reflexivity|].
  cbn [append JSON.digits_value]. apply IH.
Qed.

Lemma digits_value_zeros (j : nat) (acc : N) :
  JSON.digits_value acc (Double.zeros j) = (acc * 10 ^ N.of_nat j)%N.
Proof.
  revert acc. induction j as [|j IH]; intros acc.
  - cbn. lia.
  - cbn [Double.zeros JSON.digits_value]. rewrite IH.
    rewrite Nat2N.inj_succ, N.pow_succ_r'.
    change (N_of_ascii "0" - 48)%N with 0%N. lia.
Qed.

Lemma digits_value_acc (u : Decimal.uint) (acc : positive) :
  JSON.digits_value (N.pos acc) (NilEmpty.string_of_uint u)
  = N.pos (Pos.of_uint_acc u acc).
Proof.
  revert acc.
  induction u; intros acc;
    cbn [NilEmpty.string_of_uint JSON.digits_value Pos.of_uint_acc];
    [reflexivity | ..];
    match goal with
    | |- context [(N_of_ascii ?c - 48)%N] =>
        let d := eval vm_compute in (N_of_ascii c - 48)%N in
        change (N_of_ascii c - 48)%N with d
    end;
    match goal with
    | |- JSON.digits_value ?x _ = N.pos (Pos.of_uint_acc _ ?y) =>
        replace x with (N.pos y) by lia
    end; apply IHu.
Qed.

Lemma digits_value_uint (u : Decimal.uint) :
  JSON.digits_value 0 (NilEmpty.string_of_uint u) = N.of_uint u.
Proof.
  induction u; cbn [NilEmpty.string_of_uint JSON.digits_value];
    [reflexivity | exact IHu | ..];
    match goal with
    | |- JSON.digits_value ?x _ = _ =>
        let y := eval vm_compute in x in change x with y
    end; apply digits_value_acc.
Qed.

Lemma digits_value_dec (n : N) : JSON.digits_value 0 (dec n) = n.
Proof. unfold dec. now rewrite digits_value_uint, Unsigned.of_to. Qed.

Lemma to_uint_normal (n : N) : Decimal.unorm (N.to_uint n) = N.to_uint n.
Proof. now rewrite <- Unsigned.to_of, Unsigned.of_to. Qed.

(** The numeral of a positive number starts with a digit that is not 0. *)
Lemma dec_pos_head (p : positive) :
  exists c r,
    dec (N.pos p) = String c r
    /\ JSON.is_digit c = true /\ (c =? "0")%char = false.
Proof.
  unfold dec. pose proof (to_uint_normal (N.pos p)) as Hnorm.
  destruct (N.to_uint (N.pos p)) as [|d|d|d|d|d|d|d|d|d|d] eqn:E;
    cbn [NilEmpty.string_of_uint];
    try (eexists; eexists; repeat split; reflexivity).
  - exfalso. apply (DecimalPos.Unsigned.to_uint_nonnil p). exact E.
  - exfalso. rewrite unorm_D0 in Hnorm.
    unfold Decimal.unorm in Hnorm.
    destruct (Decimal.nzhead d) eqn:Ed; try discriminate Hnorm.
    + injection Hnorm as <-.
      apply (DecimalPos.Unsigned.to_uint_nonzero p). exact E.
    + injection Hnorm as Hd. rewrite <- Hd in Ed.
      now apply nzhead_nonzero in Ed.
Qed.

Lemma dec_head (n : N) :
  exists c r, dec n = String c r /\ JSON.is_digit c = true.
Proof.
  destruct n as [|p].
  - now exists "0"%char, EmptyString.
  - destruct (dec_pos_head p) as (c & r & Hdec & Hdigit & _). now exists c, r.
Qed.

(** The parts of a numeral. *)
Lemma parse_exponent_end (negative : bool) (whole fraction rest : string) :
  number_end rest = true ->
  JSON.parse_exponent negative whole fraction rest
  = JSON.Ok (JSON.numeral_value negative whole fraction 0) rest.
Proof.
  intros Hrest. destruct rest as [|c r]; [reflexivity|].
  cbn [number_end] in Hrest. unfold JSON.parse_exponent.
  destruct ((c =? "e")%char || (c =? "E")%char) eqn:E; [|reflexivity].
  rewrite <- !orb_assoc, E, !orb_true_r in Hrest. discriminate.
Qed.

Lemma parse_exponent_mark (negative : bool) (whole fraction rest : string)
    (x : Z) :
  digits_end rest = true ->
  JSON.parse_exponent negative whole fraction
    ("e" ++ (if (0 <=? x)%Z then "+" else "-") ++ dec (Z.abs_N x) ++ rest)
  = JSON.Ok (JSON.numeral_value negative whole fraction x) rest.
Proof.
  intros Hrest.
  destruct (dec_head (Z.abs_N x)) as (c & r & Hdec & _).
  assert (Hdigits : JSON.digits (dec (Z.abs_N x) ++ rest)
                    = (String c r, rest)).
  { rewrite <- Hdec. apply digits_run; [apply all_digits_dec | exact Hrest]. }
  assert (Hvalue : JSON.digits_value 0 (String c r) = Z.abs_N x)
    by (rewrite <- Hdec; apply digits_value_dec).
  destruct (0 <=? x)%Z eqn:Hx; cbn [append JSON.parse_exponent Ascii.eqb Bool.eqb orb];
    rewrite Hdigits, Hvalue; do 2 f_equal; unfold Double.signed;
    [apply Z.leb_le in Hx | apply Z.leb_gt in Hx]; lia.
Qed.

Lemma parse_fraction_end (negative : bool) (whole rest : string) :
  number_end rest = true ->
  JSON.parse_fraction negative whole rest
  = JSON.Ok (JSON.numeral_value negative whole EmptyString 0) rest.
Proof.
  intros Hrest. unfold JSON.parse_fraction.
  destruct rest as [|c r]; [reflexivity|].
  destruct (c =? ".")%char eqn:E.
  - cbn [number_end] in Hrest. rewrite E, !orb_true_r in Hrest. discriminate.
  - now apply parse_exponent_end.
Qed.

Lemma parse_fraction_point (negative : bool) (whole fraction tail : string) :
  all_digits fraction = true ->
  fraction <> EmptyString ->
  digits_end tail = true ->
  JSON.parse_fraction negative whole ("." ++ fraction ++ tail)
  = JSON.parse_exponent negative whole fraction tail.
Proof.
  intros Hdigits Hne Htail. cbn [append JSON.parse_fraction Ascii.eqb Bool.eqb].
  rewrite digits_run by assumption.
  destruct fraction; [contradiction | reflexivity].
Qed.

Lemma parse_unsigned_whole (negative : bool) (c : ascii) (r tail : string) :
  all_digits (String c r) = true ->
  (c =? "0")%char = false ->
  digits_end tail = true ->
  JSON.parse_unsigned negative (String c r ++ tail)
  = JSON.parse_fraction negative (String c r) tail.
Proof.
  intros Hdigits Hzero Htail.
  pose proof Hdigits as Hc. cbn [all_digits] in Hc.
  apply andb_prop in Hc as [Hc _].
  unfold JSON.parse_unsigned. cbn [append]. rewrite Hzero, Hc.
  change (String c (r ++ tail)) with (String c r ++ tail).
  now rewrite digits_run.
Qed.

Lemma digits10_length (s : N) :
  Double.digits10 s = Z.of_nat (String.length (dec s)).
Proof. reflexivity. Qed.

Lemma length_zeros (j : nat) : String.length (Double.zeros j) = j.
Proof. induction j; [reflexivity | cbn; now rewrite IHj]. Qed.

Lemma split_at_app (n : nat) (s : string) :
  fst (Double.split_at n s) ++ snd (Double.split_at n s) = s.
Proof.
  revert s. induction n as [|n IH]; intros [|c r]; try reflexivity.
  cbn [Double.split_at]. specialize (IH r).
  destruct (Double.split_at n r) as [a b]. cbn [fst snd append] in *.
  now rewrite IH.
Qed.

Lemma split_at_length (n : nat) (s : string) :
  n <= String.length s ->
  String.length (fst (Double.split_at n s)) = n.
Proof.
  revert s. induction n as [|n IH]; intros [|c r]; cbn [String.length];
    try reflexivity; try lia.
  intros Hn. cbn [Double.split_at]. specialize (IH r).
  destruct (Double.split_at n r) as [a b]. cbn [fst String.length] in *.
  rewrite IH; lia.
Qed.

Lemma split_at_head (n : nat) (c : ascii) (r : string) :
  exists a, fst (Double.split_at (S n) (String c r)) = String c a.
Proof.
  cbn [Double.split_at]. destruct (Double.split_at n r) as [a b].
  now exists a.
Qed.

Lemma numeral_value_digits (negative : bool) (whole fraction : string)
    (x : Z) (s : N) (q : Z) :
  JSON.digits_value 0 (whole ++ fraction) = s ->
  (x - Z.of_nat (String.length fraction))%Z = q ->
  JSON.numeral_value negative whole fraction x = Double.of_decimal negative s q.
Proof. intros <- <-. reflexivity. Qed.

(** A decimal with trailing zeros for its exponent. *)
Lemma of_decimal_zeros (negative : bool) (s : N) (j : nat) :
  (0 < s)%N ->
  j <= 21 ->
  Double.of_decimal negative (s * 10 ^ N.of_nat j) 0
  = Double.of_decimal negative s (Z.of_nat j).
Proof.
  intros Hs Hj. unfold Double.of_decimal.
  destruct s as [|p]; [lia|].
  destruct (N.pos p * 10 ^ N.of_nat j)%N as [|p'] eqn:E; [lia|].
  change (0 <=? 0)%Z with true. change (310 <? 0)%Z with false. cbv iota.
  replace (0 <=? Z.of_nat j)%Z with true by (symmetry; apply Z.leb_le; lia).
  replace (310 <? Z.of_nat j)%Z with false by (symmetry; apply Z.ltb_ge; lia).
  rewrite <- E. f_equal. rewrite Z2N.inj_0, N.pow_0_r, N.mul_1_r.
  now rewrite <- nat_N_Z, N2Z.id.
Qed.

(** The text [Number::toString] writes for the digits [s] and the exponent
    [n] is read as the decimal [s * 10^(n-k)]. *)
Lemma parse_unsigned_format (negative : bool) (s : N) (k n : Z) (rest : string) :
  (0 < s)%N ->
  k = Double.digits10 s ->
  number_end rest = true ->
  JSON.parse_unsigned negative (Double.format s k n ++ rest)
  = JSON.Ok (Double.of_decimal negative s (n - k)) rest.
Proof.
  intros Hs Hk Hrest.
  pose proof (number_end_digits_end rest Hrest) as Hend.
  destruct s as [|p]; [lia|].
  destruct (dec_pos_head p) as (c & r & Hdec & Hc & Hzero).
  pose proof (all_digits_dec (N.pos p)) as Hdigits.
  pose proof (digits_value_dec (N.pos p)) as Hvalue.
  rewrite digits10_length in Hk.
  unfold Double.format. rewrite Hdec in *.
  destruct ((k <=? n) && (n <=? 21))%Z eqn:Hwhole.
  - (* digits and zeros *)
    apply andb_prop in Hwhole as [Hkn Hn].
    apply Z.leb_le in Hkn, Hn.
    assert (Hall : all_digits (String c (r ++ Double.zeros (Z.to_nat (n - k))))
                   = true).
    { change (String c (r ++ ?z)) with (String c r ++ z).
      now rewrite all_digits_app, Hdigits, all_digits_zeros. }
    change ((String c r ++ Double.zeros ?j) ++ rest)
      with (String c (r ++ Double.zeros j) ++ rest).
    rewrite parse_unsigned_whole by assumption.
    rewrite parse_fraction_end by assumption. f_equal.
    unfold JSON.numeral_value. rewrite append_nil_r.
    change (String c (r ++ Double.zeros ?j)) with (String c r ++ Double.zeros j).
    rewrite digits_value_app, Hvalue, digits_value_zeros.
    cbn [String.length Z.of_nat Z.sub].
    rewrite of_decimal_zeros by (try lia; assumption).
    f_equal. lia.
  - destruct ((0 <? n) && (n <=? 21))%Z eqn:Hpoint.
    + (* digits around a point *)
      apply andb_prop in Hpoint as [Hn0 Hn].
      apply Z.ltb_lt in Hn0. apply Z.leb_le in Hn.
      assert (Hkn : (n < k)%Z).
      { apply andb_false_iff in Hwhole as [H | H];
          [apply Z.leb_gt in H; lia | apply Z.leb_gt in H; lia]. }
      pose proof (split_at_app (Z.to_nat n) (String c r)) as Happ.
      pose proof (split_at_length (Z.to_nat n) (String c r)) as Hlen.
      destruct (split_at_head (Z.to_nat n - 1) c r) as [a Ha].
      replace (S (Z.to_nat n - 1)) with (Z.to_nat n) in Ha by lia.
      destruct (Double.split_at (Z.to_nat n) (String c r)) as [whole fraction].
      cbn [fst snd] in *. subst whole.
      assert (Hparts : all_digits (String c a) = true
                       /\ all_digits fraction = true).
      { rewrite <- Happ, all_digits_app in Hdigits.
        now apply andb_prop in Hdigits. }
      destruct Hparts as [Hwholed Hfractiond].
      assert (Hfraction : String.length fraction = Z.to_nat (k - n)).
      { apply (f_equal String.length) in Happ. rewrite length_append in Happ.
        rewrite Hlen in Happ by lia. lia. }
      rewrite !append_assoc.
      rewrite parse_unsigned_whole by (try assumption; reflexivity).
      change ("." ++ fraction ++ rest)
        with ("." ++ fraction ++ rest).
      rewrite parse_fraction_point
        by (try assumption; intros ->; cbn in Hfraction; lia).
      rewrite parse_exponent_end by assumption. f_equal.
      apply numeral_value_digits; [now rewrite Happ | lia].
    + destruct ((-6 <? n) && (n <=? 0))%Z eqn:Hsmall.
      * (* zero, a point, zeros and the digits *)
        apply andb_prop in Hsmall as [_ Hn]. apply Z.leb_le in Hn.
        change (("0." ++ ?z ++ String c r) ++ rest)
          with (String "0" ("." ++ (z ++ String c r) ++ rest)).
        cbn [JSON.parse_unsigned Ascii.eqb Bool.eqb].
        rewrite parse_fraction_point; try assumption.
        -- rewrite parse_exponent_end by assumption. f_equal.
           apply numeral_value_digits.
           ++ change ("0" ++ ?z) with (Double.zeros 1 ++ z).
              rewrite !digits_value_app, !digits_value_zeros.
              cbn [N.mul]. exact Hvalue.
           ++ rewrite length_append, length_zeros. cbn [String.length] in *. lia.
        -- now rewrite all_digits_app, all_digits_zeros.
        -- destruct (Double.zeros _); discriminate.
      * (* exponent notation *)
        set (sign := if (0 <=? n - 1)%Z then "+" else "-").
        set (dx := dec (Z.abs_N (n - 1))).
        destruct r as [|c' r'].
        -- assert (Htext : String c ("e" ++ sign ++ dx) ++ rest
                           = String c EmptyString ++ "e" ++ sign ++ dx ++ rest).
           { cbn [append]. do 2 f_equal. apply append_assoc. }
           rewrite Htext.
           rewrite parse_unsigned_whole by (try assumption; reflexivity).
           change (JSON.parse_fraction negative (String c EmptyString)
                     ("e" ++ sign ++ dx ++ rest))
             with (JSON.parse_exponent negative (String c EmptyString)
                     EmptyString ("e" ++ sign ++ dx ++ rest)).
           unfold sign, dx. rewrite parse_exponent_mark by assumption. f_equal.
           apply numeral_value_digits; [exact Hvalue|].
           cbn [String.length] in *. lia.
        -- assert (Htext : (String c ("." ++ String c' r') ++ "e" ++ sign ++ dx)
                           ++ rest
                           = String c EmptyString
                             ++ "." ++ String c' r' ++ "e" ++ sign ++ dx ++ rest).
           { cbn [append]. do 3 f_equal. rewrite !append_assoc. cbn [append].
             do 2 f_equal. apply append_assoc. }
           rewrite Htext.
           assert (Hfirst : all_digits (String c EmptyString) = true)
             by (cbn [all_digits]; now rewrite Hc).
           rewrite parse_unsigned_whole by (try assumption; reflexivity).
           cbn [all_digits] in Hdigits.
           apply andb_prop in Hdigits as [_ Hdigits].
           rewrite parse_fraction_point
             by (try assumption; try discriminate; reflexivity).
           unfold sign, dx. rewrite parse_exponent_mark by assumption. f_equal.
           apply numeral_value_digits; [exact Hvalue|].
           cbn [String.length] in *. lia.
Qed.

Lemma of_Z_safe (z : Z) :
  (Z.abs z <=? Double.two53)%Z = true -> Double.of_Z z = Double.Int z.
Proof.
  intros Hz. apply Z.leb_le in Hz. unfold Double.of_Z, Double.of_integer.
  destruct z as [|p|p]; cbn [Z.abs_N Z.abs] in *; [reflexivity | |].
  - replace (Z.pos p <=? Double.two53)%Z with true
      by (symmetry; now apply Z.leb_le).
    reflexivity.
  - replace (Z.pos p <=? Double.two53)%Z with true
      by (symmetry; now apply Z.leb_le).
    reflexivity.
Qed.

(** The text of a number starts with a digit, a sign or the [n] of
    [null]. *)
Lemma format_head (s : N) (k n : Z) :
  exists c r, Double.format s k n = String c r /\ JSON.is_digit c = true.
Proof.
  destruct (dec_head s) as (c & r & Hdec & Hc). unfold Double.format.
  rewrite Hdec.
  destruct ((k <=? n) && (n <=? 21))%Z; [now exists c, (r ++ Double.zeros (Z.to_nat (n - k)))|].
  destruct ((0 <? n) && (n <=? 21))%Z eqn:Hpoint.
  - apply andb_prop in Hpoint as [Hn _]. apply Z.ltb_lt in Hn.
    destruct (split_at_head (Z.to_nat n - 1) c r) as [a Ha].
    replace (S (Z.to_nat n - 1)) with (Z.to_nat n) in Ha by lia.
    destruct (Double.split_at (Z.to_nat n) (String c r)) as [whole fraction].
    cbn [fst] in Ha. subst whole. now exists c, (a ++ "." ++ fraction).
  - destruct ((-6 <? n) && (n <=? 0))%Z; [eexists; eexists; split; reflexivity|].
    destruct r; eexists; eexists; split; try reflexivity; exact Hc.
Qed.

Lemma number_text_head (x : Double.number) :
  exists c r,
    JSON.number_text x = String c r
    /\ JSON.is_ws c = false
    /\ (c =? "[")%char = false /\ (c =? "{")%char = false
    /\ (c =? "]")%char = false /\ (c =? "}")%char = false
    /\ (c =? JSON.dquote)%char = false.
Proof.
  assert (Hdigit : forall c r t,
             t = String c r -> JSON.is_digit c = true ->
             exists c r,
               t = String c r
               /\ JSON.is_ws c = false
               /\ (c =? "[")%char = false /\ (c =? "{")%char = false
               /\ (c =? "]")%char = false /\ (c =? "}")%char = false
               /\ (c =? JSON.dquote)%char = false).
  { intros c r t Ht Hc.
    destruct (digit_is_no_other c Hc) as (? & ? & ? & ? & ? & ? & _).
    exists c, r. repeat split; assumption. }
  destruct x as [n | [negative m e | negative]].
  - cbn [JSON.number_text Double.to_string]. destruct (n <? 0)%Z.
    + exists "-"%char, (dec (Z.abs_N n)). repeat split.
    + destruct (dec_head (Z.abs_N n)) as (c & r & Hdec & Hc).
      exact (Hdigit c r _ Hdec Hc).
  - cbn [JSON.number_text Double.to_string].
    destruct (Double.digits_of negative m e) as [[s k] n].
    destruct (format_head s k n) as (c & r & Hf & Hc). rewrite Hf.
    destruct negative; [|exact (Hdigit c r _ eq_refl Hc)].
    exists "-"%char, (String c r). repeat split.
  - exists "n"%char, "ull". repeat split.
Qed.

(** A number of JSON text is read back from its text. *)
Lemma of_decimal_safe (negative : bool) (p : positive) :
  (Z.pos p <=? Double.two53)%Z = true ->
  Double.of_decimal negative (N.pos p) 0
  = Double.Int (Double.signed negative (Z.pos p)).
Proof.
  intros Hp. unfold Double.of_decimal.
  change (0 <=? 0)%Z with true. change (310 <? 0)%Z with false. cbv iota.
  change (Z.to_N 0) with 0%N. rewrite N.pow_0_r, N.mul_1_r.
  unfold Double.of_integer. now rewrite Hp.
Qed.

Lemma parse_unsigned_safe (negative : bool) (n : N) (rest : string) :
  (Z.of_N n <=? Double.two53)%Z = true ->
  number_end rest = true ->
  JSON.parse_unsigned negative (dec n ++ rest)
  = JSON.Ok (Double.Int (Double.signed negative (Z.of_N n))) rest.
Proof.
  intros Hn Hrest. destruct n as [|p].
  - change (dec 0 ++ rest) with (String "0" rest).
    cbn [JSON.parse_unsigned Ascii.eqb Bool.eqb].
    rewrite parse_fraction_end by assumption. now destruct negative.
  - destruct (dec_pos_head p) as (c & r & Hdec & Hc & Hzero).
    pose proof (all_digits_dec (N.pos p)) as Hdigits.
    pose proof (digits_value_dec (N.pos p)) as Hvalue.
    rewrite Hdec in *.
    rewrite parse_unsigned_whole
      by (try assumption; now apply number_end_digits_end).
    rewrite parse_fraction_end by assumption. f_equal.
    unfold JSON.numeral_value. rewrite append_nil_r, Hvalue.
    now apply of_decimal_safe.
Qed.

Lemma parse_number_safe (z : Z) (rest : string) :
  (Z.abs z <=? Double.two53)%Z = true ->
  number_end rest = true ->
  JSON.parse_number (JSON.ser (VNum z) ++ rest) = JSON.Ok (Double.Int z) rest.
Proof.
  intros Hz Hrest. cbn [JSON.ser]. rewrite of_Z_safe by exact Hz.
  cbn [JSON.number_text Double.to_string].
  assert (Hn : (Z.of_N (Z.abs_N z) <=? Double.two53)%Z = true)
    by (apply Z.leb_le; apply Z.leb_le in Hz; lia).
  destruct (z <? 0)%Z eqn:Hneg.
  - cbn [append JSON.parse_number Ascii.eqb Bool.eqb].
    rewrite parse_unsigned_safe by assumption. do 2 f_equal.
    apply Z.ltb_lt in Hneg. cbn [Double.signed]. lia.
  - destruct (dec_head (Z.abs_N z)) as (c & r & Hdec & Hc).
    destruct (digit_is_no_other c Hc) as (_ & _ & _ & _ & _ & _ & Hminus & _).
    unfold JSON.parse_number. rewrite Hdec. cbn [append]. rewrite Hminus.
    change (String c (r ++ rest)) with (String c r ++ rest). rewrite <- Hdec.
    rewrite parse_unsigned_safe by assumption. do 2 f_equal.
    apply Z.ltb_ge in Hneg. cbn [Double.signed]. lia.
Qed.

Lemma parse_number_finite (f : Double.float64) (rest : string) :
  finite f = true ->
  number_end rest = true ->
  JSON.parse_number (JSON.ser (VFloat f) ++ rest)
  = JSON.Ok (Double.Float f) rest.
Proof.
  intros Hf Hrest. destruct f as [negative m e | negative]; [|discriminate].
  cbn [JSON.ser JSON.number_text Double.to_string]. unfold finite in Hf.
  destruct (Double.digits_of negative m e) as [[s k] n].
  apply andb_prop in Hf as [Hf Hdenotes]. apply andb_prop in Hf as [Hs Hk].
  apply N.ltb_lt in Hs. apply Z.eqb_eq in Hk.
  assert (Hvalue : Double.of_decimal negative s (n - k)
                   = Double.Float (Double.Finite negative m e)).
  { unfold Double.denotes in Hdenotes. cbn [fst snd] in Hdenotes.
    destruct (Double.of_decimal negative s (n - k)) as [|[s' m' e'|]];
      try discriminate Hdenotes.
    apply andb_prop in Hdenotes as [Hd He]. apply andb_prop in Hd as [Hs' Hm].
    apply Bool.eqb_prop in Hs'. apply Pos.eqb_eq in Hm. apply Z.eqb_eq in He.
    now subst. }
  destruct negative.
  - cbn [append JSON.parse_number Ascii.eqb Bool.eqb].
    rewrite parse_unsigned_format by assumption. now rewrite Hvalue.
  - destruct (format_head s k n) as (c & r & Hformat & Hc).
    destruct (digit_is_no_other c Hc) as (_ & _ & _ & _ & _ & _ & Hminus & _).
    cbn [append]. unfold JSON.parse_number. rewrite Hformat. cbn [append].
    rewrite Hminus.
    change (String c (r ++ rest)) with (String c r ++ rest). rewrite <- Hformat.
    rewrite parse_unsigned_format by assumption. now rewrite Hvalue.
Qed.

(** The smallest and the largest finite numbers, 0.1, -1e21 and 2^53 + 2
    are held as [finite] wants them; 2 written as a mantissa and an exponent
    is not. *)
Lemma finite_examples :
  forallb finite
    [ Double.Finite false 1 (-1074);
      Double.Finite false 9007199254740991 971;
      Double.Finite false 7205759403792794 (-56);
      Double.Finite true 7629394531250000 17;
      Double.Finite false 4503599627370497 1 ]
  = true
  /\ map (fun f => Double.to_string (Double.Float f))
       [ Double.Finite false 1 (-1074);
         Double.Finite false 9007199254740991 971;
         Double.Finite false 7205759403792794 (-56);
         Double.Finite true 7629394531250000 17;
         Double.Finite false 4503599627370497 1 ]
     = [ "5e-324"; "1.7976931348623157e+308"; "0.1"; "-1e+21";
         "9007199254740994" ]
  /\ finite (Double.Finite false 1 1) = false.
Proof. split; [|split]; vm_compute; reflexivity. Qed.

(** *** Strings *)

Lemma parse_string_quote_char (c : ascii) (tail : string) :
  JSON.parse_string (JSON.quote_char c ++ tail)
  = JSON.push c (JSON.parse_string tail).
Proof.
  destruct c as [[] [] [] [] [] [] [] []]; reflexivity.
Qed.

Lemma parse_string_roundtrip (s rest : string) :
  JSON.parse_string (JSON.quote_body s ++ String JSON.dquote rest)
  = JSON.Ok s rest.
Proof.
  induction s as [|c s IH]; [reflexivity|].
  cbn [JSON.quote_body]. rewrite append_assoc, parse_string_quote_char.
  now rewrite IH.
Qed.

(** *** Scalars *)

Lemma skip_ws_starts_value (s : string) :
  starts_value s -> JSON.skip_ws s = s.
Proof.
  intros (c & r & -> & Hws & _). cbn [JSON.skip_ws]. now rewrite Hws.
Qed.

Lemma ser_starts_value (v : value) (rest : string) :
  starts_value (JSON.ser v ++ rest).
Proof.
  assert (Hnumber : forall x, starts_value (JSON.number_text x ++ rest)).
  { intros x.
    destruct (number_text_head x) as (c & r & Hx & ? & _ & _ & ? & ? & _).
    exists c, (r ++ rest). rewrite Hx. repeat split; assumption. }
  destruct v as [ | | [|] | | n | f | s | elems | props];
    try (eexists; eexists; repeat split; reflexivity);
    cbn [JSON.ser]; apply Hnumber.
Qed.

(** A scalar is read back from its text. *)
Lemma parse_scalar_roundtrip (v : value) (rest : string) :
  match v with
  | VNull | VBool _ | VNum _ | VFloat _ | VStr _ => True
  | _ => False
  end ->
  is_json v = true ->
  number_end rest = true ->
  JSON.parse_scalar (JSON.ser v ++ rest) = JSON.Ok v rest.
Proof.
  intros Hv Hjson Hrest.
  assert (Hnumber : forall x w,
             JSON.ser w = JSON.number_text x ->
             JSON.parse_number (JSON.ser w ++ rest) = JSON.Ok x rest ->
             number_value x = w ->
             JSON.parse_scalar (JSON.ser w ++ rest) = JSON.Ok w rest).
  { intros x w Htext Hparse Hvalue.
    destruct (number_text_head x) as (c & r & Hx & _ & _ & _ & _ & _ & Hq).
    unfold JSON.parse_scalar. rewrite Htext, Hx. cbn [append]. rewrite Hq.
    change (String c (r ++ rest)) with (String c r ++ rest).
    rewrite <- Hx, <- Htext, Hparse, Hvalue.
    rewrite Htext, Hx in Hparse. cbn [append] in Hparse.
    unfold JSON.parse_number in Hparse.
    destruct ((c =? "-")%char || JSON.is_digit c) eqn:Hhead; [reflexivity|].
    apply orb_false_elim in Hhead as [Hminus Hdigit].
    rewrite Hminus in Hparse. unfold JSON.parse_unsigned in Hparse.
    rewrite Hdigit in Hparse.
    destruct (c =? "0")%char eqn:Hzero; [|discriminate Hparse].
    apply Ascii.eqb_eq in Hzero. subst c. discriminate Hdigit. }
  destruct v as [ | | [|] | | n | f | s | elems | props]; try contradiction;
    try reflexivity.
  - cbn [is_json] in Hjson.
    apply (Hnumber (Double.Int n)); [| now apply parse_number_safe | reflexivity].
    cbn [JSON.ser]. now rewrite of_Z_safe.
  - cbn [is_json] in Hjson.
    apply (Hnumber (Double.Float f));
      [reflexivity | now apply parse_number_finite | reflexivity].
  - assert (Htext : JSON.ser (VStr s) ++ rest
                    = String JSON.dquote
                        (JSON.quote_body s ++ String JSON.dquote rest)).
    { cbn [JSON.ser]. unfold JSON.quote. cbn [append].
      now rewrite append_assoc. }
    rewrite Htext. unfold JSON.parse_scalar.
    change (JSON.dquote =? JSON.dquote)%char with true. cbv iota.
    now rewrite parse_string_roundtrip.
Qed.

(** *** Arrays and objects *)

Lemma weight_array (es : list value) : weight (VArr es) = S (elems_weight es).
Proof. reflexivity. Qed.

Lemma weight_object (ps : list (string * value)) :
  weight (VObj ps) = S (props_weight ps).
Proof. reflexivity. Qed.

Lemma is_json_array (es : list value) :
  is_json (VArr es) = true -> Forall (fun e => is_json e = true) es.
Proof.
  cbn [is_json]. intros H. apply Forall_forall. intros e He.
  now apply (proj1 (forallb_forall _ _) H).
Qed.

Lemma is_json_object (ps : list (string * value)) :
  is_json (VObj ps) = true ->
  distinct_keys ps = true /\ enumeration_order ps = true
  /\ Forall (fun p => is_json (snd p) = true) ps.
Proof.
  cbn [is_json]. intros H. apply andb_prop in H as [Hd Hall].
  apply andb_prop in Hd as [Hd Ho].
  split; [exact Hd|]. split; [exact Ho|]. clear Hd Ho.
  induction ps as [|[k w] ps IH]; constructor.
  - now apply andb_prop in Hall as [Hw _].
  - apply IH. now apply andb_prop in Hall as [_ Hrest].
Qed.

Lemma ser_array (es : list value) :
  JSON.ser (VArr es) = "[" ++ join "," (map JSON.ser es) ++ "]".
Proof. reflexivity. Qed.

Lemma ser_object (ps : list (string * value)) :
  Forall (fun p => is_json (snd p) = true) ps ->
  JSON.ser (VObj ps) = "{" ++ join "," (map member_text ps) ++ "}".
Proof.
  intros Hall. cbn [JSON.ser]. do 3 f_equal.
  induction Hall as [|[k w] ps Hw _ IH]; [reflexivity|].
  cbn [map]. rewrite <- IH. unfold member_text. cbn [fst snd].
  cbn [snd] in Hw. now destruct w.
Qed.

(** One step of the parser on text that starts a scalar. *)
Lemma parse_value_scalar (fuel : nat) (v : value) (rest : string) :
  match v with
  | VNull | VBool _ | VNum _ | VFloat _ | VStr _ => True
  | _ => False
  end ->
  JSON.parse_value (S fuel) (JSON.ser v ++ rest)
  = JSON.parse_scalar (JSON.ser v ++ rest).
Proof.
  intros Hv. cbn [JSON.parse_value].
  rewrite skip_ws_starts_value by apply ser_starts_value.
  assert (Hnumber : forall x w,
             JSON.ser w = JSON.number_text x ->
             match JSON.ser w ++ rest with
             | EmptyString => JSON.Unexpected EmptyString
             | String c r =>
                 if (c =? "[")%char then
                   match JSON.skip_ws r with
                   | String c' r' =>
                       if (c' =? "]")%char then JSON.Ok (VArr []) r'
                       else
                         match JSON.parse_elements fuel (String c' r') with
                         | JSON.Ok vs r2 => JSON.Ok (VArr vs) r2
                         | JSON.Unexpected u => JSON.Unexpected u
                         end
                   | EmptyString => JSON.Unexpected EmptyString
                   end
                 else if (c =? "{")%char then
                   match JSON.skip_ws r with
                   | String c' r' =>
                       if (c' =? "}")%char then JSON.Ok (VObj []) r'
                       else
                         match JSON.parse_members fuel (String c' r') with
                         | JSON.Ok ms r2 =>
                             JSON.Ok
                               (VObj
                                  (fold_left
                                     (fun o m => put (fst m) (snd m) o) ms []))
                               r2
                         | JSON.Unexpected u => JSON.Unexpected u
                         end
                   | EmptyString => JSON.Unexpected EmptyString
                   end
                 else JSON.parse_scalar (String c r)
             end = JSON.parse_scalar (JSON.ser w ++ rest)).
  { intros x w Hw. rewrite Hw.
    destruct (number_text_head x) as (c & r & Hx & _ & Ha & Ho & _).
    rewrite Hx. cbn [append]. now rewrite Ha, Ho. }
  destruct v as [ | | [|] | | n | f | s | elems | props]; try contradiction;
    try reflexivity.
  - now apply (Hnumber (Double.of_Z n)).
  - now apply (Hnumber (Double.Float f)).
Qed.

Lemma parse_elements_roundtrip (es : list value) :
  es <> [] ->
  Forall reads_back es ->
  forall fuel rest,
    elems_weight es <= fuel ->
    JSON.parse_elements fuel (join "," (map JSON.ser es) ++ String "]" rest)
    = JSON.Ok es rest.
Proof.
  intros Hne Hall. induction Hall as [|e es He Hes IH]; [contradiction|].
  intros fuel rest Hfuel. cbn [elems_weight] in Hfuel.
  destruct fuel as [|f]; [lia|]. cbn [JSON.parse_elements].
  destruct es as [|e2 es].
  - cbn [map join].
    rewrite (He f (String "]" rest)) by (try reflexivity; lia).
    reflexivity.
  - assert (Htext : join "," (map JSON.ser (e :: e2 :: es)) ++ String "]" rest
                    = JSON.ser e
                      ++ String "," (join "," (map JSON.ser (e2 :: es))
                                     ++ String "]" rest)).
    { change (join "," (map JSON.ser (e :: e2 :: es)))
        with (JSON.ser e ++ "," ++ join "," (map JSON.ser (e2 :: es))).
      now rewrite !append_assoc. }
    rewrite Htext.
    rewrite (He f _) by (try reflexivity; lia).
    cbn [JSON.skip_ws JSON.is_ws Ascii.eqb Bool.eqb orb].
    cbv iota.
    rewrite IH by (try discriminate; lia).
    reflexivity.
Qed.

Lemma member_text_eq (k : string) (w : value) (tail : string) :
  member_text (k, w) ++ tail
  = String JSON.dquote
      (JSON.quote_body k
       ++ String JSON.dquote (String ":" (JSON.ser w ++ tail))).
Proof.
  unfold member_text, JSON.quote. cbn [fst snd append].
  now rewrite !append_assoc.
Qed.

Lemma parse_members_roundtrip (ps : list (string * value)) :
  ps <> [] ->
  Forall (fun p => reads_back (snd p)) ps ->
  forall fuel rest,
    props_weight ps <= fuel ->
    JSON.parse_members fuel (join "," (map member_text ps) ++ String "}" rest)
    = JSON.Ok ps rest.
Proof.
  intros Hne Hall. induction Hall as [|[k w] ps Hw Hps IH]; [contradiction|].
  intros fuel rest Hfuel. cbn [props_weight] in Hfuel. cbn [snd] in Hw.
  destruct fuel as [|f]; [lia|]. cbn [JSON.parse_members].
  destruct ps as [|p2 ps].
  - cbn [map join]. rewrite member_text_eq.
    cbn [JSON.skip_ws JSON.is_ws JSON.dquote Ascii.eqb Bool.eqb orb].
    cbv iota. fold JSON.dquote.
    rewrite parse_string_roundtrip.
    cbn [JSON.skip_ws JSON.is_ws Ascii.eqb Bool.eqb orb]. cbv iota.
    rewrite (Hw f (String "}" rest)) by (try reflexivity; lia).
    reflexivity.
  - assert (Htext : join "," (map member_text ((k, w) :: p2 :: ps))
                    ++ String "}" rest
                    = member_text (k, w)
                      ++ String "," (join "," (map member_text (p2 :: ps))
                                     ++ String "}" rest)).
    { change (join "," (map member_text ((k, w) :: p2 :: ps)))
        with (member_text (k, w) ++ "," ++ join "," (map member_text (p2 :: ps))).
      now rewrite !append_assoc. }
    rewrite Htext, member_text_eq.
    cbn [JSON.skip_ws JSON.is_ws JSON.dquote Ascii.eqb Bool.eqb orb].
    cbv iota. fold JSON.dquote.
    rewrite parse_string_roundtrip.
    cbn [JSON.skip_ws JSON.is_ws Ascii.eqb Bool.eqb orb]. cbv iota.
    rewrite (Hw f _) by (try reflexivity; lia).
    cbn [JSON.skip_ws JSON.is_ws Ascii.eqb Bool.eqb orb]. cbv iota.
    rewrite IH by (try discriminate; lia).
    reflexivity.
Qed.

(** Properties of different names, assigned one after the other to an
    object that has none of them, line up behind those it has. *)
Lemma put_fresh (k : string) (v : value) (props : list (string * value)) :
  existsb (String.eqb k) (map fst props) = false ->
  forallb (fun k' => negb (enumerated_before k k')) (map fst props) = true ->
  put k v props = (props ++ [(k, v)])%list.
Proof.
  induction props as [|[k' v'] props IH]; [reflexivity|].
  cbn [map fst existsb forallb put app]. intros H Ho.
  apply orb_false_elim in H as [Hk Hrest].
  apply andb_prop in Ho as [Hb Ho]. apply negb_true_iff in Hb.
  rewrite String.eqb_sym, Hk, Hb. now rewrite IH.
Qed.

Lemma existsb_app_false (k : string) (a b : list string) :
  existsb (String.eqb k) a = false ->
  existsb (String.eqb k) b = false ->
  existsb (String.eqb k) (a ++ b)%list = false.
Proof. intros Ha Hb. now rewrite existsb_app, Ha, Hb. Qed.

Lemma fold_put_distinct (ms acc : list (string * value)) :
  distinct_keys ms = true ->
  enumeration_order ms = true ->
  (forall k, In k (map fst ms) ->
     existsb (String.eqb k) (map fst acc) = false
     /\ forallb (fun k' => negb (enumerated_before k k')) (map fst acc) = true) ->
  fold_left (fun o m => put (fst m) (snd m) o) ms acc = (acc ++ ms)%list.
Proof.
  revert acc. induction ms as [|[k v] ms IH]; intros acc Hd Ho Hacc.
  - now rewrite List.app_nil_r.
  - cbn [fold_left fst snd]. cbn [distinct_keys] in Hd.
    cbn [enumeration_order] in Ho.
    apply andb_prop in Hd as [Hk Hd]. apply negb_true_iff in Hk.
    apply andb_prop in Ho as [Hbefore Ho].
    rewrite put_fresh by (apply Hacc; now left).
    rewrite IH; [now rewrite <- List.app_assoc | exact Hd | exact Ho |].
    intros k' Hin. rewrite map_app. cbn [map fst].
    destruct (Hacc k' (or_intror Hin)) as [Hfresh Hafter]. split.
    + apply existsb_app_false; [exact Hfresh|].
      cbn [existsb]. rewrite orb_false_r.
      destruct (k' =? k) eqn:E; [|reflexivity].
      apply String.eqb_eq in E. subst k'.
      assert (Hex : existsb (String.eqb k) (map fst ms) = true).
      { apply existsb_exists. exists k.
        split; [exact Hin | apply String.eqb_refl]. }
      congruence.
    + rewrite forallb_app, Hafter. cbn [forallb]. rewrite andb_true_r.
      exact (proj1 (forallb_forall _ _) Hbefore k' Hin).
Qed.

(** A JSON value is read back from its text, at any place where a value may
    end. *)
Lemma parse_value_roundtrip (v : value) :
  is_json v = true -> reads_back v.
Proof.
  induction v as [ | | b | | n | x | s | elems IH | props IH] using value_ind;
    intros Hjson; try discriminate Hjson; intros fuel rest Hfuel Hrest.
  - destruct fuel as [|f]; [cbn in Hfuel; lia|].
    rewrite parse_value_scalar by exact I. now apply parse_scalar_roundtrip.
  - destruct fuel as [|f]; [cbn in Hfuel; lia|].
    rewrite parse_value_scalar by exact I. now apply parse_scalar_roundtrip.
  - destruct fuel as [|f]; [cbn in Hfuel; lia|].
    rewrite parse_value_scalar by exact I. now apply parse_scalar_roundtrip.
  - destruct fuel as [|f]; [cbn in Hfuel; lia|].
    rewrite parse_value_scalar by exact I. now apply parse_scalar_roundtrip.
  - destruct fuel as [|f]; [cbn in Hfuel; lia|].
    rewrite parse_value_scalar by exact I. now apply parse_scalar_roundtrip.
  - rewrite weight_array in Hfuel. destruct fuel as [|f]; [lia|].
    apply is_json_array in Hjson.
    assert (Hall : Forall reads_back elems).
    { apply Forall_forall. intros e He.
      apply (proj1 (Forall_forall _ _) IH e He).
      apply (proj1 (Forall_forall _ _) Hjson e He). }
    rewrite ser_array.
    destruct elems as [|e es]; [reflexivity|].
    assert (Htext : ("[" ++ join "," (map JSON.ser (e :: es)) ++ "]") ++ rest
                    = String "[" (join "," (map JSON.ser (e :: es))
                                  ++ String "]" rest)).
    { cbn [append]. now rewrite append_assoc. }
    rewrite Htext. cbn [JSON.parse_value JSON.skip_ws JSON.is_ws Ascii.eqb Bool.eqb orb].
    cbv iota.
    assert (Hstart : starts_value (join "," (map JSON.ser (e :: es))
                                   ++ String "]" rest)).
    { destruct es; cbn [map join]; [apply ser_starts_value|].
      rewrite append_assoc. apply ser_starts_value. }
    rewrite skip_ws_starts_value by exact Hstart.
    destruct Hstart as (c & r & Hs & _ & Hclose & _).
    rewrite Hs, Hclose, <- Hs.
    rewrite parse_elements_roundtrip by (try discriminate; try assumption; lia).
    reflexivity.
  - rewrite weight_object in Hfuel. destruct fuel as [|f]; [lia|].
    apply is_json_object in Hjson as (Hkeys & Horder & Hjson).
    assert (Hall : Forall (fun p => reads_back (snd p)) props).
    { apply Forall_forall. intros p Hp.
      apply (proj1 (Forall_forall _ _) IH p Hp).
      apply (proj1 (Forall_forall _ _) Hjson p Hp). }
    rewrite ser_object by exact Hjson.
    destruct props as [|p ps]; [reflexivity|].
    assert (Htext : ("{" ++ join "," (map member_text (p :: ps)) ++ "}") ++ rest
                    = String "{" (join "," (map member_text (p :: ps))
                                  ++ String "}" rest)).
    { cbn [append]. now rewrite append_assoc. }
    rewrite Htext. cbn [JSON.parse_value JSON.skip_ws JSON.is_ws Ascii.eqb Bool.eqb orb].
    cbv iota.
    assert (Hstart : exists r,
               join "," (map member_text (p :: ps)) ++ String "}" rest
               = String JSON.dquote r).
    { destruct p as [k w]. destruct ps; cbn [map join].
      - rewrite member_text_eq. eauto.
      - rewrite append_assoc, member_text_eq. eauto. }
    destruct Hstart as [r Hs]. rewrite Hs.
    cbn [JSON.skip_ws JSON.is_ws JSON.dquote Ascii.eqb Bool.eqb orb]. cbv iota.
    fold JSON.dquote. rewrite <- Hs.
    rewrite parse_members_roundtrip by (try discriminate; try assumption; lia).
    rewrite fold_put_distinct;
      [reflexivity | exact Hkeys | exact Horder | now split].
Qed.

(** The text of a JSON value is at least as long as the value is heavy. *)
Lemma length_join_elems (es : list value) :
  Forall (fun e => weight e <= String.length (JSON.ser e)) es ->
  elems_weight es <= String.length (join "," (map JSON.ser es)) + 1.
Proof.
  induction 1 as [|e es He Hes IH]; [cbn; lia|].
  destruct es as [|e2 es].
  - cbn [map join elems_weight]. lia.
  - change (join "," (map JSON.ser (e :: e2 :: es)))
      with (JSON.ser e ++ "," ++ join "," (map JSON.ser (e2 :: es))).
    rewrite !length_append. cbn [elems_weight String.length] in *. lia.
Qed.

Lemma length_join_members (ps : list (string * value)) :
  Forall (fun p => weight (snd p) <= String.length (JSON.ser (snd p))) ps ->
  props_weight ps <= String.length (join "," (map member_text ps)) + 1.
Proof.
  induction 1 as [|[k w] ps Hw Hps IH]; [cbn; lia|].
  cbn [snd] in Hw.
  assert (Hm : weight w <= String.length (member_text (k, w))).
  { unfold member_text. rewrite !length_append. cbn [snd]. lia. }
  destruct ps as [|p2 ps].
  - cbn [map join props_weight]. lia.
  - change (join "," (map member_text ((k, w) :: p2 :: ps)))
      with (member_text (k, w) ++ "," ++ join "," (map member_text (p2 :: ps))).
    rewrite !length_append. cbn [props_weight String.length] in *. lia.
Qed.

Lemma weight_le_length (v : value) :
  is_json v = true -> weight v <= String.length (JSON.ser v).
Proof.
  induction v as [ | | b | | n | f | s | elems IH | props IH] using value_ind;
    intros Hjson; try discriminate Hjson.
  - cbn. lia.
  - destruct b; cbn; lia.
  - cbn [JSON.ser weight].
    destruct (number_text_head (Double.of_Z n)) as (c & r & Hn & _).
    rewrite Hn. cbn. lia.
  - cbn [JSON.ser weight].
    destruct (number_text_head (Double.Float f)) as (c & r & Hn & _).
    rewrite Hn. cbn. lia.
  - cbn. lia.
  - rewrite weight_array, ser_array, !length_append. cbn [String.length].
    apply is_json_array in Hjson.
    assert (Hall : Forall (fun e => weight e <= String.length (JSON.ser e)) elems).
    { apply Forall_forall. intros e He.
      apply (proj1 (Forall_forall _ _) IH e He).
      apply (proj1 (Forall_forall _ _) Hjson e He). }
    pose proof (length_join_elems elems Hall). lia.
  - apply is_json_object in Hjson as (_ & _ & Hjson).
    rewrite weight_object, ser_object, !length_append by exact Hjson.
    cbn [String.length].
    assert (Hall : Forall (fun p => weight (snd p)
                                    <= String.length (JSON.ser (snd p))) props).
    { apply Forall_forall. intros p Hp.
      apply (proj1 (Forall_forall _ _) IH p Hp).
      apply (proj1 (Forall_forall _ _) Hjson p Hp). }
    pose proof (length_join_members props Hall). lia.
Qed.

(** [JSON.parse(JSON.stringify(v))] is [v], for every JSON value [v]. *)
Lemma parse_stringify (v : value) :
  is_json v = true -> JSON.parse (JSON.ser v) = inr v.
Proof.
  intros Hjson. unfold JSON.parse.
  pose proof (weight_le_length v Hjson) as Hw.
  rewrite <- (append_nil_r (JSON.ser v)) at 2.
  rewrite (parse_value_roundtrip v Hjson) by (try reflexivity; lia).
  reflexivity.
Qed.

(** *** The configuration between quotes *)

Lemma drop_last_append (t : string) (b : ascii) :
  drop_last (t ++ String b EmptyString) = t.
Proof.
  induction t as [|a t IH]; [reflexivity|].
  cbn [append drop_last]. rewrite IH.
  now destruct t.
Qed.

Lemma substring_between (a b : ascii) (t : string) :
  substring (String a (t ++ String b EmptyString)) 1
    (Z.of_nat (String.length (String a (t ++ String b EmptyString))) - 1)
  = t.
Proof.
  rewrite substring_strip_ends.
  - cbn [strip_ends]. apply drop_last_append.
  - cbn [String.length]. rewrite length_append. cbn [String.length]. lia.
Qed.

(** C5, as stated, fails.  The text [JSON.stringify] makes of the object
    with the one property [a: 1], given as the config argument, loses its
    braces to the stripping of the outer characters: what is left does not
    parse and nothing is published.  And even between quotes an object that
    holds [undefined], [NaN] or an infinity is not what comes back:
    [JSON.stringify] leaves the first out and writes [null] for the
    others. *)
Lemma stringified_config_not_read_back :
  updateConnectorConfig (VStr "cloud") (VStr "c1")
    (JSON.stringify (VObj [("a", VNum 1)])) VUndefined fresh_commander
  = (inl (ErrorParsingConfiguration (JSON.SyntaxError ":1")), fresh_commander)
  /\ updateConnectorConfig (VStr "cloud") (VStr "c1")
       (VStr ("'" ++ JSON.ser (VObj [("a", VUndefined)]) ++ "'")) VUndefined
       fresh_commander
     = _sendPayload (config_request (VStr "cloud") (VStr "c1") (VObj []))
         VUndefined fresh_commander
  /\ VObj [] <> VObj [("a", VUndefined)]
  /\ updateConnectorConfig (VStr "cloud") (VStr "c1")
       (VStr ("'" ++ JSON.ser (VObj [("a", VNaN)]) ++ "'")) VUndefined
       fresh_commander
     = _sendPayload
         (config_request (VStr "cloud") (VStr "c1") (VObj [("a", VNull)]))
         VUndefined fresh_commander
  /\ updateConnectorConfig (VStr "cloud") (VStr "c1")
       (VStr ("'" ++ JSON.ser (VObj [("a", VFloat (Double.Infinity false))])
              ++ "'"))
       VUndefined fresh_commander
     = _sendPayload
         (config_request (VStr "cloud") (VStr "c1") (VObj [("a", VNull)]))
         VUndefined fresh_commander
  /\ VObj [("a", VNull)] <> VObj [("a", VNaN)]
  /\ VObj [("a", VNull)] <> VObj [("a", VFloat (Double.Infinity false))].
Proof. repeat split; discriminate. Qed.

(** C5, amended.  For a category of cloud or device and an id that is a
    non-empty string, and for every object [O] made of JSON values (null,
    booleans, finite numbers, strings, arrays and objects of these): the text
    [JSON.stringify] makes of [O], put between two more characters (the
    quotes of the operator) and given as the config argument, is published as
    a request whose config is [O]. *)
Theorem quoted_config_round_trip (category id requestId : value)
    (props : list (string * value)) (opening closing : ascii) (c : Commander) :
  connector_category category = true ->
  not_nonempty_string id = false ->
  is_json (VObj props) = true ->
  updateConnectorConfig category id
    (VStr (String opening
             (to_string (JSON.stringify (VObj props))
              ++ String closing EmptyString)))
    requestId c
  = _sendPayload (config_request category id (VObj props)) requestId c.
Proof.
  intros Hcat Hid Hjson.
  unfold updateConnectorConfig.
  rewrite bind_guard, (connector_category_guard _ Hcat).
  rewrite bind_guard, Hid.
  unfold bind at 1.
  cbn [typeof to_string length_of JSON.stringify String.eqb Ascii.eqb Bool.eqb].
  rewrite substring_between, (parse_stringify _ Hjson).
  reflexivity.
Qed.

(** An object between quotes that holds an array index as a name, the
    numbers 1.5, 1e21 and 5e-324, a string and a nested object. *)
Lemma quoted_config_round_trip_witness :
  updateConnectorConfig (VStr "cloud") (VStr "c1")
    (VStr ("'" ++ JSON.ser example_config ++ "'")) VUndefined fresh_commander
  = _sendPayload
      (config_request (VStr "cloud") (VStr "c1") example_config)
      VUndefined fresh_commander.
Proof.
  refine (quoted_config_round_trip (VStr "cloud") (VStr "c1") VUndefined
            example_properties "'"%char "'"%char fresh_commander _ _ _);
    vm_compute; reflexivity.
Defined.

(** ** What every call keeps *)

Ltac settle_kind :=
  solve [ left; eexists; split; [reflexivity | discriminate]
        | right; eexists; reflexivity ].

(** A call that throws throws one of the two kinds of error of the protocol
    layer. *)
Lemma exec_cases_kind (o : operation) (c : Commander) :
  (exists e, exec o c = (inl e, c) /\ kind e <> OtherError)
  \/ (exists payload,
        exec o c
        = _sendPayload payload
            (if drops_requestId o then VUndefined else requestId_of o) c).
Proof.
  destruct o; cbn [exec drops_requestId requestId_of].
  - rewrite stopConnector_normalizes.
    unfold connector_operation. destruct (resolve_target category id); settle_kind.
  - rewrite startConnector_normalizes.
    unfold connector_operation. destruct (resolve_target category id); settle_kind.
  - unfold listConnectors. rewrite bind_guard.
    destruct (_ && _); settle_kind.
  - rewrite restartConnector_normalizes.
    unfold connector_operation. destruct (resolve_target category id); settle_kind.
  - unfold sendDataToConnector. rewrite bind_guard.
    destruct (_ && _); [settle_kind|]. rewrite bind_guard.
    destruct (not_nonempty_string id); settle_kind.
  - unfold sysInfo. rewrite bind_guard.
    destruct (not_nonempty_string gatewayname); [settle_kind|].
    unfold sendDataToConnector. rewrite bind_guard.
    cbn [is_str String.eqb Ascii.eqb Bool.eqb negb andb]. rewrite bind_guard.
    destruct (not_nonempty_string _); settle_kind.
  - unfold resetAgent. rewrite bind_guard.
    destruct (not_nonempty_string gatewayname); [settle_kind|].
    unfold sendDataToConnector. rewrite bind_guard.
    cbn [is_str String.eqb Ascii.eqb Bool.eqb negb andb]. rewrite bind_guard.
    destruct (not_nonempty_string _); settle_kind.
  - unfold updateConnectorConfig. rewrite bind_guard.
    destruct (_ && _); [settle_kind|]. rewrite bind_guard.
    destruct (not_nonempty_string id); [settle_kind|].
    unfold bind at 1.
    destruct (typeof config =? "string").
    + destruct (JSON.parse _); cbn [throw ret]; settle_kind.
    + destruct (_ || _); cbn [throw ret]; settle_kind.
  - unfold deleteConnectorConfig. rewrite bind_guard.
    destruct (_ && _); [settle_kind|]. rewrite bind_guard.
    destruct (not_nonempty_string id); settle_kind.
  - unfold updateConnectorType. rewrite bind_guard.
    destruct (not_nonempty_string type); [settle_kind|]. rewrite bind_guard.
    destruct (not_nonempty_string modulePath); settle_kind.
  - unfold terminateAgent. settle_kind.
  - unfold upgradeAgent. settle_kind.
  - unfold rebootGateway. settle_kind.
  - unfold initAgent.
    do 6 (rewrite bind_guard;
          match goal with
          | |- context [if ?b then (inl _, _) else _] => destruct b; [settle_kind|]
          end).
    settle_kind.
Qed.

(** X1.  Whatever the call and its arguments, a call of the Commander
    either throws an InvalidArgument or ConfigParseError and leaves the
    Commander exactly as it was, or returns after exactly one [publish], which
    is appended to the log; the request counter then stays or moves by one.
    No call touches the topic prefix, the session id, the subscriptions or the
    messages published before. *)
Theorem call_publishes_once_or_nothing (o : operation) (c : Commander) :
  _topicPrefix (snd (exec o c)) = _topicPrefix c
  /\ _sessionId (snd (exec o c)) = _sessionId c
  /\ subscribed (_client (snd (exec o c))) = subscribed (_client c)
  /\ ((exists e,
         exec o c = (inl e, c)
         /\ (kind e = InvalidArgument \/ kind e = ConfigParseError))
      \/ (fst (exec o c) = inr tt
          /\ (exists topic message,
                published (_client (snd (exec o c)))
                = (published (_client c) ++ [(topic, message)])%list)
          /\ (_requestCounter (snd (exec o c)) = _requestCounter c
              \/ _requestCounter (snd (exec o c)) = (_requestCounter c + 1)%N))).
Proof.
  destruct (exec_cases_kind o c) as [[e [H Hk]] | [payload H]].
  - rewrite H. repeat split. left. exists e. split; [reflexivity|].
    destruct (kind e); [now left | now right | contradiction].
  - rewrite H.
    destruct (truthy (if drops_requestId o then VUndefined else requestId_of o))
      eqn:Ht.
    + rewrite sendPayload_explicit by exact Ht. repeat split.
      right. repeat split; [eexists; eexists; reflexivity | now left].
    + rewrite sendPayload_generated by exact Ht. repeat split.
      right. repeat split; [eexists; eexists; reflexivity | now right].
Qed.

(** The request id [r9] given to a stop of all connectors; and the number
    1e21 given as the request id, which JavaScript writes [1e+21]. *)
Lemma explicit_requestId_respected_witness :
  (_requestCounter
     (snd (exec (StopConnector (VStr "all") VUndefined (VStr "r9")) fresh_commander))
   = 0%N
   /\ exists message,
        published
          (_client (snd (exec (StopConnector (VStr "all") VUndefined (VStr "r9"))
                          fresh_commander)))
        = [("cloud/bob/gw1/r9", message)])
  /\ (_requestCounter
        (snd (exec (StopConnector (VStr "all") VUndefined
                      (VNum 1000000000000000000000)) fresh_commander))
      = 0%N
      /\ exists message,
           published
             (_client
                (snd (exec (StopConnector (VStr "all") VUndefined
                              (VNum 1000000000000000000000)) fresh_commander)))
           = [("cloud/bob/gw1/1e+21", message)]).
Proof.
  split.
  - exact (explicit_requestId_respected
             (StopConnector (VStr "all") VUndefined (VStr "r9")) fresh_commander
             eq_refl eq_refl eq_refl).
  - exact (explicit_requestId_respected
             (StopConnector (VStr "all") VUndefined (VNum 1000000000000000000000))
             fresh_commander eq_refl eq_refl eq_refl).
Defined.

(** ** What the operations accept *)

(** X3.  [initAgent] returns exactly on the options it accepts: an object
    whose host, current and new gateway name, user name and password are
    non-empty strings.  On anything else it throws an InvalidArgument error
    and leaves the Commander as it was, whatever the request id. *)
Theorem initAgent_validates (options requestId : value) (c : Commander) :
  (fst (initAgent options requestId c) = inr tt <-> accepted options = true)
  /\ (accepted options = false ->
      exists e,
        initAgent options requestId c = (inl e, c) /\ kind e = InvalidArgument).
Proof.
  unfold accepted, initAgent.
  rewrite bind_guard.
  destruct (truthy options); cbn [negb orb andb];
    [|split; [split; discriminate | intros _; eexists; split; reflexivity]].
  destruct (typeof options =? "object"); cbn [negb orb andb];
    [|split; [split; discriminate | intros _; eexists; split; reflexivity]].
  do 5 (rewrite bind_guard;
        match goal with
        | |- context [if ?b then (inl _, _) else _] =>
            destruct b; cbn [negb andb];
            [split; [split; discriminate | intros _; eexists; split; reflexivity]|]
        end).
  split; [|discriminate].
  split; [reflexivity|]. intros _. apply sendPayload_publishes.
Qed.

Lemma assoc_put_same (k : string) (v : value) (props : list (string * value)) :
  assoc k (put k v props) = Some v.
Proof.
  induction props as [|[k0 v0] props IH]; simpl.
  - now rewrite String.eqb_refl.
  - destruct (k0 =? k) eqn:E; simpl; [now rewrite E|].
    destruct (enumerated_before k k0); simpl;
      [now rewrite String.eqb_refl | now rewrite E].
Qed.

Lemma get_put_same (props : list (string * value)) (k : string) (v : value) :
  get (VObj (put k v props)) k = v.
Proof. simpl. now rewrite assoc_put_same. Qed.

Lemma get_put_other (props : list (string * value)) (k k' : string) (v : value) :
  k <> k' -> get (VObj (put k v props)) k' = get (VObj props) k'.
Proof. intros H. simpl. now rewrite assoc_put_other. Qed.

Ltac get_put :=
  repeat change (set (VObj ?p) ?k ?v) with (VObj (put k v p));
  repeat first [ rewrite get_put_same
               | rewrite get_put_other by discriminate ].

Lemma accepted_object (options : value) :
  accepted options = true -> exists props, options = VObj props.
Proof.
  unfold accepted. intros H.
  do 4 (apply andb_prop in H as [H _]).
  apply andb_prop in H as [_ H].
  destruct options as [ | | b | | n | f | s | elems | props];
    try discriminate H.
  now exists props.
Qed.

(** X4.  In the plan [initAgent] publishes, the cloud connector of the new
    gateway is configured with the host, user name and password of the
    options as they are, and with the port, protocol and network interface of
    the options where these are given, [8443], [mqtts] and [eth0] where they
    are not. *)
Theorem initAgent_fills_defaults (options requestId : value) (c : Commander) :
  accepted options = true ->
  exists plan step connection,
    published (_client (snd (initAgent options requestId c)))
    = (published (_client c)
       ++ [(topic_for requestId c, JSON.stringify (VArr plan))])%list
    /\ nth_error plan 0 = Some step
    /\ get (get step "config") "config" = connection
    /\ get connection "host" = get options "host"
    /\ get connection "port"
       = (if truthy (get options "port") then get options "port" else VStr "8443")
    /\ get connection "protocol"
       = (if truthy (get options "protocol") then get options "protocol"
          else VStr "mqtts")
    /\ get connection "networkInterface"
       = (if truthy (get options "networkInterface")
          then get options "networkInterface" else VStr "eth0")
    /\ get connection "gatewayname" = get options "newGatewayName"
    /\ get connection "username" = get options "username"
    /\ get connection "password" = get options "password"
    /\ get connection "topics" = VStr EmptyString.
Proof.
  intros Hacc. destruct (accepted_object options Hacc) as [props ->].
  unfold accepted in Hacc.
  apply andb_prop in Hacc as [H Hpassword].
  apply andb_prop in H as [H Husername].
  apply andb_prop in H as [H Hnew].
  apply andb_prop in H as [H Hcurrent].
  apply andb_prop in H as [H Hhost].
  apply negb_true_iff in Hpassword, Husername, Hnew, Hcurrent, Hhost.
  unfold initAgent.
  rewrite bind_guard. cbn [truthy typeof negb orb String.eqb Ascii.eqb Bool.eqb].
  cbv beta iota.
  do 5 (rewrite bind_guard;
        match goal with
        | Hn : ?b = false |- context [if ?b then _ else _] => rewrite Hn
        end;
        cbv beta iota).
  get_put.
  destruct ((typeof (get (VObj props) "apiKey") =? "string")
            && (0 <? length_of (get (VObj props) "apiKey"))%Z);
    (eexists; eexists; eexists;
     split; [apply sendPayload_publishes|];
     split; [reflexivity|]; split; [reflexivity|];
     repeat split).
Qed.

(** The plan for [example_options], which name no port. *)
Lemma initAgent_fills_defaults_witness :
  exists plan step,
    published (_client (snd (initAgent example_options VUndefined fresh_commander)))
    = [("cloud/bob/gw1/s1::1", JSON.stringify (VArr plan))]
    /\ nth_error plan 0 = Some step
    /\ get (get (get step "config") "config") "port" = VStr "8443"
    /\ get (get (get step "config") "config") "host" = VStr "iot.example.com".
Proof.
  destruct (initAgent_fills_defaults example_options VUndefined fresh_commander
              eq_refl)
    as (plan & step & connection & Hpub & Hstep & Hcon & Hhost & Hport & _).
  exists plan, step. rewrite Hcon. repeat split.
  - exact Hpub.
  - exact Hstep.
  - exact Hport.
  - exact Hhost.
Defined.

(** A connector is named by a category of cloud or device and an id that is
    a non-empty string. *)
Lemma target_guards (category id : value) :
  (connector_category category && negb (not_nonempty_string id) = true ->
   negb (is_str category "cloud") && negb (is_str category "device") = false
   /\ not_nonempty_string id = false)
  /\ (connector_category category && negb (not_nonempty_string id) = false ->
      negb (is_str category "cloud") && negb (is_str category "device") = true
      \/ (negb (is_str category "cloud") && negb (is_str category "device") = false
          /\ not_nonempty_string id = true)).
Proof.
  unfold connector_category.
  destruct (is_str category "cloud"), (is_str category "device"),
    (not_nonempty_string id); cbn; split; intros H;
    try discriminate H; auto.
Qed.

(** X5.  The operations on one connector (send data, update its
    configuration, delete its configuration) take no shortcut: the category
    must be cloud or device and the id a non-empty string.  Otherwise each of
    them throws the same InvalidArgument error, which names the category when
    the category is bad and the id otherwise, and publishes nothing; the
    category all and a missing id, which stop, start and restart take, are
    refused.  With a good category and id, sending data and deleting always
    return. *)
Theorem single_connector_operations_need_target
    (category id data config requestId : value) (c : Commander) :
  (connector_category category && negb (not_nonempty_string id) = false ->
   exists e,
     e = (if connector_category category then InvalidId id
          else InvalidCategory category)
     /\ kind e = InvalidArgument
     /\ sendDataToConnector category id data requestId c = (inl e, c)
     /\ updateConnectorConfig category id config requestId c = (inl e, c)
     /\ deleteConnectorConfig category id requestId c = (inl e, c))
  /\ (connector_category category && negb (not_nonempty_string id) = true ->
      fst (sendDataToConnector category id data requestId c) = inr tt
      /\ deleteConnectorConfig category id requestId c
         = _sendPayload
             (VObj [ ("action", VStr "delete_config");
                     ("category", category); ("id", id) ]) requestId c).
Proof.
  split; intros H.
  - apply (proj2 (target_guards category id)) in H.
    unfold sendDataToConnector, updateConnectorConfig, deleteConnectorConfig.
    rewrite !bind_guard.
    destruct H as [Hcat | [Hcat Hid]].
    + rewrite Hcat.
      assert (Hc : connector_category category = false).
      { unfold connector_category.
        destruct (is_str category "cloud"), (is_str category "device");
          try discriminate Hcat; reflexivity. }
      rewrite Hc. eexists. repeat split.
    + rewrite Hcat. cbv beta iota. rewrite ?bind_guard, Hid.
      assert (Hc : connector_category category = true).
      { unfold connector_category.
        destruct (is_str category "cloud"), (is_str category "device");
          try discriminate Hcat; reflexivity. }
      rewrite Hc. eexists. repeat split.
  - apply (proj1 (target_guards category id)) in H as [Hcat Hid].
    unfold sendDataToConnector, deleteConnectorConfig.
    rewrite !bind_guard, Hcat. cbv beta iota. rewrite ?bind_guard, Hid.
    split; [apply sendPayload_publishes | reflexivity].
Qed.

(** X6.  For a category of cloud or device and an id that is a non-empty
    string: a configuration given as an object or an array is published as it
    is, without parsing; one that is neither a string nor an object
    ([undefined], [null], a boolean, a number) is refused with an
    InvalidArgument error and nothing is published. *)
Theorem structured_config_passes_through (category id config requestId : value)
    (c : Commander) :
  connector_category category = true ->
  not_nonempty_string id = false ->
  match config with
  | VStr _ => True
  | VObj _ | VArr _ =>
      updateConnectorConfig category id config requestId c
      = _sendPayload (config_request category id config) requestId c
  | _ =>
      updateConnectorConfig category id config requestId c = (inl InvalidConfig, c)
      /\ kind InvalidConfig = InvalidArgument
  end.
Proof.
  intros Hcat Hid.
  assert (Hbody : forall cfg,
             typeof cfg <> "string" ->
             updateConnectorConfig category id cfg requestId c
             = if negb (truthy cfg) || negb (typeof cfg =? "object")
               then (inl InvalidConfig, c)
               else _sendPayload (config_request category id cfg) requestId c).
  { intros cfg Hty. unfold updateConnectorConfig.
    rewrite bind_guard, (connector_category_guard _ Hcat).
    rewrite bind_guard, Hid. unfold bind at 1.
    apply String.eqb_neq in Hty. rewrite Hty.
    now destruct (negb (truthy cfg) || negb (typeof cfg =? "object")). }
  destruct config as [ | | b | | n | f | s | elems | props]; try exact I;
    rewrite Hbody by discriminate; try reflexivity; try (split; reflexivity).
  - now destruct b.
  - cbn. now destruct (n =? 0)%Z.
Qed.

(** The configuration [{a: 1}] given as an object. *)
Lemma structured_config_passes_through_witness :
  updateConnectorConfig (VStr "cloud") (VStr "c1") (VObj [("a", VNum 1)])
    VUndefined fresh_commander
  = _sendPayload
      (config_request (VStr "cloud") (VStr "c1") (VObj [("a", VNum 1)]))
      VUndefined fresh_commander.
Proof.
  exact (structured_config_passes_through (VStr "cloud") (VStr "c1")
           (VObj [("a", VNum 1)]) VUndefined fresh_commander eq_refl eq_refl).
Defined.

(** ** System information and reset *)

Lemma nonempty_string_guard (s : string) :
  s <> EmptyString -> not_nonempty_string (VStr s) = false.
Proof.
  intros H. destruct s as [|a s]; [contradiction|].
  cbn [not_nonempty_string String.length]. apply Z.leb_gt. lia.
Qed.

Lemma device_command (g command : string) (c : Commander) :
  sendDataToConnector (VStr "device") (VStr (concat "cnc-gateway-" (VStr g)))
    (VObj [("command", VStr command)]) VUndefined c
  = _sendPayload
      (data_request (VStr "device") (VStr ("cnc-gateway-" ++ g))
         (VStr (JSON.ser (VObj [("command", VStr command)]))))
      VUndefined c.
Proof.
  unfold sendDataToConnector. rewrite bind_guard.
  cbn [is_str String.eqb Ascii.eqb Bool.eqb negb andb]. rewrite bind_guard.
  reflexivity.
Qed.

(** X7.  [sysInfo] and [resetAgent], given the name of the gateway, send the
    command [system_info] or [reset_agent] to the device connector
    [cnc-gateway-<name>] under a generated request id.  The message is JSON
    text whose data is itself JSON text: parsed once it gives the send_data
    request, and its data parsed again gives the command.  Given anything but
    a non-empty string they throw and publish nothing. *)
Theorem gateway_commands_are_nested_json (gatewayname : value) (c : Commander) :
  (forall g, gatewayname = VStr g -> g <> EmptyString ->
     exists text data,
       fst (sysInfo gatewayname c) = inr tt
       /\ published (_client (snd (sysInfo gatewayname c)))
          = (published (_client c) ++ [(topic_for VUndefined c, VStr text)])%list
       /\ JSON.parse text
          = inr (data_request (VStr "device") (VStr ("cnc-gateway-" ++ g))
                   (VStr data))
       /\ JSON.parse data = inr (VObj [("command", VStr "system_info")]))
  /\ (forall g, gatewayname = VStr g -> g <> EmptyString ->
        exists text data,
          fst (resetAgent gatewayname c) = inr tt
          /\ published (_client (snd (resetAgent gatewayname c)))
             = (published (_client c) ++ [(topic_for VUndefined c, VStr text)])%list
          /\ JSON.parse text
             = inr (data_request (VStr "device") (VStr ("cnc-gateway-" ++ g))
                      (VStr data))
          /\ JSON.parse data = inr (VObj [("command", VStr "reset_agent")]))
  /\ (not_nonempty_string gatewayname = true ->
      sysInfo gatewayname c = (inl InvalidGatewayName, c)
      /\ resetAgent gatewayname c = (inl InvalidGatewayName, c)).
Proof.
  repeat split.
  - intros g -> Hg. unfold sysInfo.
    rewrite bind_guard, (nonempty_string_guard g Hg), device_command.
    exists (JSON.ser (data_request (VStr "device") (VStr ("cnc-gateway-" ++ g))
                        (VStr (JSON.ser (VObj [("command", VStr "system_info")]))))).
    eexists.
    split; [apply sendPayload_publishes|].
    split; [exact (proj2 (sendPayload_publishes _ _ _))|].
    split; [now apply parse_stringify | reflexivity].
  - intros g -> Hg. unfold resetAgent.
    rewrite bind_guard, (nonempty_string_guard g Hg), device_command.
    exists (JSON.ser (data_request (VStr "device") (VStr ("cnc-gateway-" ++ g))
                        (VStr (JSON.ser (VObj [("command", VStr "reset_agent")]))))).
    eexists.
    split; [apply sendPayload_publishes|].
    split; [exact (proj2 (sendPayload_publishes _ _ _))|].
    split; [now apply parse_stringify | reflexivity].
  - unfold sysInfo. rewrite bind_guard. now rewrite H.
  - unfold resetAgent. rewrite bind_guard. now rewrite H.
Qed.

(** ** The tokens of a line *)

Lemma has_apostrophe_append (a b : string) :
  Shell.has_apostrophe a = true -> Shell.has_apostrophe (a ++ b) = true.
Proof.
  induction a as [|c a IH]; [discriminate|]. cbn [Shell.has_apostrophe append].
  destruct (c =? Shell.apostrophe)%char; [reflexivity|]. exact IH.
Qed.

Lemma balanced_quoted_closes (t : string) :
  balanced true t = true -> Shell.has_apostrophe t = true.
Proof.
  induction t as [|c t IH]; [discriminate|]. cbn [balanced Shell.has_apostrophe].
  destruct (c =? Shell.apostrophe)%char; [reflexivity|]. exact IH.
Qed.

(** The scan goes through a word in one piece. *)
Lemma scan_balanced (t : string) :
  forall quoted cur rest,
    balanced quoted t = true ->
    Shell.scan quoted cur (t ++ rest) = Shell.scan false (grow cur t) rest.
Proof.
  induction t as [|c t IH]; intros quoted cur rest H.
  - destruct quoted; [discriminate | reflexivity].
  - cbn [append Shell.scan grow]. cbn [balanced] in H.
    destruct quoted.
    + now apply IH.
    + destruct (c =? Shell.apostrophe)%char.
      * rewrite has_apostrophe_append by now apply balanced_quoted_closes.
        now apply IH.
      * apply andb_prop in H as [Hs H]. apply negb_true_iff in Hs.
        rewrite Hs. now apply IH.
Qed.

Lemma grow_some (t s : string) : grow (Some s) t = Some (s ++ t).
Proof.
  revert s. induction t as [|c t IH]; intros s; cbn [grow Shell.extend].
  - now rewrite append_nil_r.
  - rewrite IH, append_assoc. reflexivity.
Qed.

Lemma grow_none (t : string) : t <> EmptyString -> grow None t = Some t.
Proof.
  destruct t as [|c t]; [contradiction|]. intros _.
  cbn [grow Shell.extend]. now rewrite grow_some.
Qed.

Lemma word_parts (t : string) :
  word t = true -> t <> EmptyString /\ balanced false t = true.
Proof.
  unfold word. intros H. apply andb_prop in H as [Hne Hb].
  split; [|exact Hb]. intros ->. discriminate.
Qed.

Lemma scan_words (ts : list string) :
  Forall (fun t => word t = true) ts ->
  Shell.scan false None (join " " ts) = ts.
Proof.
  induction 1 as [|t ts Ht Hts IH]; [reflexivity|].
  apply word_parts in Ht as [Hne Hb].
  destruct ts as [|t2 ts].
  - cbn [join]. rewrite <- (append_nil_r t) at 1.
    rewrite scan_balanced by exact Hb. now rewrite grow_none.
  - change (join " " (t :: t2 :: ts)) with (t ++ " " ++ join " " (t2 :: ts)).
    rewrite scan_balanced by exact Hb. rewrite grow_none by exact Hne.
    cbn [append Shell.scan]. change (" " =? Shell.apostrophe)%char with false.
    change (Shell.is_space " ") with true. cbv iota.
    now rewrite IH.
Qed.

Lemma words_tokens (ts : list string) :
  ts <> [] ->
  Forall (fun t => word t = true) ts ->
  Shell.match_tokens (join " " ts) = Some ts.
Proof.
  intros Hne Hts. unfold Shell.match_tokens. rewrite scan_words by exact Hts.
  destruct ts; [contradiction | reflexivity].
Qed.

(** X8.  A line made of words with one space between them is cut into
    exactly those words, where a word is any text without white space outside
    apostrophes and with its apostrophes in pairs: what stands between two
    apostrophes, white space included, stays in its word, apostrophes and
    all. *)
Theorem words_are_the_tokens (ts : list string) :
  ts <> [] ->
  Forall (fun t => word t = true) ts ->
  Shell.match_tokens (join " " ts) = Some ts.
Proof. exact (words_tokens ts). Qed.

(** A command, two plain words and a quoted word with a space in it. *)
Lemma words_are_the_tokens_witness :
  Shell.match_tokens "con:update_config cloud c1 '{ }'"
  = Some ["con:update_config"; "cloud"; "c1"; "'{ }'"].
Proof.
  apply (words_are_the_tokens ["con:update_config"; "cloud"; "c1"; "'{ }'"]).
  - discriminate.
  - repeat constructor.
Defined.

(** ** From the line to the message *)

Lemma updateConnectorConfig_quoted (category id requestId v : value)
    (opening closing : ascii) (c : Commander) :
  connector_category category = true ->
  not_nonempty_string id = false ->
  is_json v = true ->
  updateConnectorConfig category id
    (VStr (String opening (JSON.ser v ++ String closing EmptyString)))
    requestId c
  = _sendPayload (config_request category id v) requestId c.
Proof.
  intros Hcat Hid Hjson.
  unfold updateConnectorConfig.
  rewrite bind_guard, (connector_category_guard _ Hcat).
  rewrite bind_guard, Hid.
  unfold bind at 1.
  cbn [typeof to_string length_of String.eqb Ascii.eqb Bool.eqb].
  rewrite substring_between, (parse_stringify _ Hjson).
  reflexivity.
Qed.

Lemma balanced_quoted_text (t : string) :
  Shell.has_apostrophe t = false ->
  balanced true (t ++ "'") = true.
Proof.
  induction t as [|c t IH]; [reflexivity|].
  cbn [Shell.has_apostrophe append balanced]. intros H.
  apply orb_false_elim in H as [Hc Ht]. rewrite Hc. now apply IH.
Qed.

Lemma update_config_command (gateway : string) :
  exists info,
    Shell.lookup (Shell._buildCommandMap gateway) "con:update_config"
    = Shell.Own info
    /\ Shell.args info = VArr []
    /\ forall a,
         Shell.method info a
         = updateConnectorConfig (Shell.arg 0 a) (Shell.arg 1 a) (Shell.arg 2 a)
             (Shell.arg 3 a).
Proof. eexists. repeat split. Qed.

(** X9.  From the prompt to the broker: the line
    [con:update_config <category> <id> '<text>'], where the category is cloud
    or device, the id is a word, and the text is the one [JSON.stringify]
    writes for a JSON value (null, a boolean, a finite number, a string, an
    array or an object of these) and holds no apostrophe, publishes the
    update_config request whose config is that value, under a generated
    request id; the loop goes on and nothing is written to the console but
    the prompt. *)
Theorem repl_publishes_quoted_config (sh : Shell.Shell) (gateway category id : string)
    (v : value) :
  Shell._commandMap sh = Shell._buildCommandMap gateway ->
  category = "cloud" \/ category = "device" ->
  word id = true ->
  is_json v = true ->
  Shell.has_apostrophe (JSON.ser v) = false ->
  Shell.repl_turn
    (Some (join " " ["con:update_config"; category; id; "'" ++ JSON.ser v ++ "'"]))
    sh
  = (false,
     Shell.with_commander
       (snd (_sendPayload (config_request (VStr category) (VStr id) v) VUndefined
               (Shell._commander sh)))
       (Shell.log Shell.Prompt sh)).
Proof.
  intros Hmap Hcat Hid Hjson Hclean.
  assert (Htokens :
            Shell.match_tokens
              (join " " ["con:update_config"; category; id; "'" ++ JSON.ser v ++ "'"])
            = Some ["con:update_config"; category; id; "'" ++ JSON.ser v ++ "'"]).
  { apply words_tokens; [discriminate|].
    repeat constructor.
    - destruct Hcat as [-> | ->]; reflexivity.
    - exact Hid.
    - unfold word. cbn [append String.eqb negb andb balanced].
      change ("'" =? Shell.apostrophe)%char with true. cbv iota.
      now apply balanced_quoted_text. }
  destruct (update_config_command gateway) as (info & Hlookup & Hargs & Hmethod).
  unfold Shell.repl_turn. rewrite Htokens.
  cbn [Shell.token nth_error to_string is_str Shell.log Shell._commandMap].
  rewrite Hmap, Hlookup.
  replace (("con:update_config" =? "q") || (category =? "quit")) with false
    by (destruct Hcat as [-> | ->]; reflexivity).
  rewrite Hargs, Hmethod.
  cbn [Shell._applyArgs or truthy tl map app Shell.arg nth Shell._commander].
  change ("'" ++ JSON.ser v ++ "'")
    with (String "'" (JSON.ser v ++ String "'" EmptyString)).
  rewrite updateConnectorConfig_quoted.
  - destruct (sendPayload_publishes
                (config_request (VStr category) (VStr id) v) VUndefined
                (Shell._commander sh)) as [Hok _].
    destruct (_sendPayload _ _ _) as [[e|u] c']; [discriminate Hok | reflexivity].
  - destruct Hcat as [-> | ->]; reflexivity.
  - apply nonempty_string_guard. now apply word_parts in Hid.
  - exact Hjson.
Qed.

(** The example configuration, with its numbers 1.5, 1e+21 and 5e-324. *)
Lemma repl_publishes_quoted_config_witness :
  Shell.repl_turn
    (Some (join " " [ "con:update_config"; "cloud"; "c1";
                      "'" ++ JSON.ser example_config ++ "'" ]))
    example_shell
  = (false,
     Shell.with_commander
       (snd (_sendPayload
               (config_request (VStr "cloud") (VStr "c1") example_config)
               VUndefined (Shell._commander example_shell)))
       (Shell.log Shell.Prompt example_shell)).
Proof.
  refine (repl_publishes_quoted_config example_shell "gw1" "cloud" "c1"
            example_config eq_refl (or_introl eq_refl) eq_refl _ _);
    vm_compute; reflexivity.
Defined.

(** ** The arguments of a command *)

Lemma split_no_equals (k : string) :
  no_equals k = true -> Shell.split "=" k = [k].
Proof.
  induction k as [|c k IH]; [reflexivity|]. cbn [no_equals Shell.split].
  intros H. apply andb_prop in H as [Hc Hk]. apply negb_true_iff in Hc.
  now rewrite Hc, IH.
Qed.

Lemma split_key_value (k rest : string) :
  no_equals k = true ->
  Shell.split "=" (k ++ "=" ++ rest) = k :: Shell.split "=" rest.
Proof.
  induction k as [|c k IH]; [reflexivity|]. cbn [no_equals Shell.split append].
  intros H. apply andb_prop in H as [Hc Hk]. apply negb_true_iff in Hc.
  rewrite Hc. cbn [append] in IH. now rewrite IH.
Qed.

(** X10.  How a token of the form [key=value] is read: up to the first
    equals sign it is the key; the value is what stands between the first and
    the second equals sign, so a value is cut at an equals sign of its own;
    and a token with no equals sign is a key whose value is [undefined]. *)
Theorem key_value_token (k v rest : string) :
  no_equals k = true ->
  no_equals v = true ->
  key_of (k ++ "=" ++ v) = k
  /\ value_of (k ++ "=" ++ v) = VStr v
  /\ key_of (k ++ "=" ++ v ++ "=" ++ rest) = k
  /\ value_of (k ++ "=" ++ v ++ "=" ++ rest) = VStr v
  /\ key_of k = k
  /\ value_of k = VUndefined.
Proof.
  intros Hk Hv. unfold key_of, value_of.
  rewrite !split_key_value by assumption.
  rewrite (split_no_equals k Hk), (split_no_equals v Hv).
  repeat split.
Qed.

Lemma key_value_token_witness :
  key_of "port=8883" = "port"
  /\ value_of "port=8883" = VStr "8883"
  /\ value_of "url=a=b" = VStr "a"
  /\ value_of "verbose" = VUndefined.
Proof.
  destruct (key_value_token "port" "8883" EmptyString eq_refl eq_refl)
    as (Hk & Hv & _).
  destruct (key_value_token "url" "a" "b" eq_refl eq_refl)
    as (_ & _ & _ & Hcut & _).
  destruct (key_value_token "verbose" EmptyString EmptyString eq_refl eq_refl)
    as (_ & _ & _ & _ & _ & Hnone).
  repeat split; assumption.
Defined.

Lemma assign_property_get (p : list (string * value)) (arg : string) (k : string) :
  k <> "__proto__" ->
  exists p',
    Shell.assign_property (VObj p) (Shell.token 0 (Shell.split "=" arg))
      (Shell.token 1 (Shell.split "=" arg)) = VObj p'
    /\ get (VObj p') k
       = if key_of arg =? k then value_of arg else get (VObj p) k.
Proof.
  intros Hk. unfold Shell.assign_property. fold (key_of arg). fold (value_of arg).
  destruct (key_of arg =? "__proto__") eqn:Hproto.
  - exists p. split; [reflexivity|].
    apply String.eqb_eq in Hproto. rewrite Hproto.
    destruct ("__proto__" =? k) eqn:E; [|reflexivity].
    apply String.eqb_eq in E. congruence.
  - exists (put (key_of arg) (value_of arg) p). split; [reflexivity|].
    destruct (key_of arg =? k) eqn:E.
    + apply String.eqb_eq in E. rewrite <- E. apply get_put_same.
    + apply String.eqb_neq in E. now apply get_put_other.
Qed.

(** X11.  For a command with a keyed template, the handler gets one object:
    the defaults of the template, overwritten by the [key=value] tokens of the
    line in their order.  So each option is the value of the last token that
    names it, and the default where no token does; the defaults themselves are
    not touched. *)
Theorem keyed_arguments_override (defaults : list (string * value))
    (command : string) (userArgs : list string) (k : string) :
  k <> "__proto__" ->
  exists finalArgs,
    Shell._applyArgs (VObj defaults) (command :: userArgs) = [VObj finalArgs]
    /\ get (VObj finalArgs) k
       = fold_left (fun v arg => if key_of arg =? k then value_of arg else v)
           userArgs (get (VObj defaults) k).
Proof.
  intros Hk. unfold Shell._applyArgs. cbn [or truthy tl].
  generalize defaults as p. induction userArgs as [|arg userArgs IH]; intros p.
  - now exists p.
  - cbn [fold_left].
    destruct (assign_property_get p arg k Hk) as (p' & Hp' & Hget).
    rewrite Hp', <- Hget.
    destruct (IH p') as (final & Hfinal & Hfinal_get).
    exists final. split; [|exact Hfinal_get].
    injection Hfinal as Hfinal. now rewrite Hfinal.
Qed.

(** The provisioning template with a new gateway name given twice. *)
Lemma keyed_arguments_override_witness :
  exists finalArgs,
    Shell._applyArgs
      (VObj [("host", VStr "h"); ("newGatewayName", VStr EmptyString)])
      ["agent:prov_dev"; "newGatewayName=gw2"; "newGatewayName=gw3"]
    = [VObj finalArgs]
    /\ get (VObj finalArgs) "newGatewayName" = VStr "gw3"
    /\ get (VObj finalArgs) "host" = VStr "h".
Proof.
  destruct (keyed_arguments_override
              [("host", VStr "h"); ("newGatewayName", VStr EmptyString)]
              "agent:prov_dev" ["newGatewayName=gw2"; "newGatewayName=gw3"]
              "newGatewayName") as (finalArgs & Hargs & Hnew).
  { discriminate. }
  destruct (keyed_arguments_override
              [("host", VStr "h"); ("newGatewayName", VStr EmptyString)]
              "agent:prov_dev" ["newGatewayName=gw2"; "newGatewayName=gw3"]
              "host") as (finalArgs' & Hargs' & Hhost).
  { discriminate. }
  exists finalArgs. split; [exact Hargs|]. split; [exact Hnew|].
  rewrite Hargs in Hargs'. injection Hargs' as ->. exact Hhost.
Defined.

(** ** The loop and the promise *)

Lemma repl_turn_ends (resp : option string) (sh : Shell.Shell) :
  fst (Shell.repl_turn resp sh) = ends_loop (line_of resp)
  /\ (ends_loop (line_of resp) = true ->
      snd (Shell.repl_turn resp sh) = Shell.log Shell.Prompt sh).
Proof.
  destruct resp as [line|]; [apply repl_turn_done|].
  split; [reflexivity | discriminate].
Qed.

(** X12.  The loop reads on until the first line that ends it, and then
    returns without reading further: every line before is taken as a command,
    whatever it does (a command that is unknown or throws is reported and the
    loop goes on), the line that ends the loop runs no command, and the lines
    after it are left unread.  On lines of which none ends the loop, the loop
    is still reading. *)
Theorem repl_stops_at_first_quit (before : list (option string))
    (sh : Shell.Shell) :
  Forall (fun resp => ends_loop (line_of resp) = false) before ->
  exists sh',
    Shell._repl before sh = Shell.Reading sh'
    /\ forall line unread,
         ends_loop line = true ->
         Shell._repl (before ++ Some line :: unread)%list sh
         = Shell.Returned (Shell.log Shell.Prompt sh') unread.
Proof.
  intros Hbefore. revert sh.
  induction Hbefore as [|resp before Hresp _ IH]; intros sh.
  - exists sh. split; [reflexivity|]. intros line unread Hline.
    cbn [app Shell._repl].
    destruct (repl_turn_ends (Some line) sh) as [Hdone Hsh].
    destruct (Shell.repl_turn (Some line) sh) as [done sh1].
    cbn [fst snd line_of] in *. rewrite Hdone, Hline. now rewrite Hsh.
  - cbn [app Shell._repl].
    destruct (repl_turn_ends resp sh) as [Hdone _].
    destruct (Shell.repl_turn resp sh) as [done sh1].
    cbn [fst] in Hdone. rewrite Hdone, Hresp. apply IH.
Qed.

(** Three lines that do not end the loop, then [q]. *)
Lemma repl_stops_at_first_quit_witness :
  exists sh',
    Shell._repl [Some "quit"; None; Some "sys:info gw1"] example_shell
    = Shell.Reading sh'
    /\ Shell._repl [Some "quit"; None; Some "sys:info gw1"; Some "q"; Some "bye"]
         example_shell
       = Shell.Returned (Shell.log Shell.Prompt sh') [Some "bye"].
Proof.
  destruct (repl_stops_at_first_quit [Some "quit"; None; Some "sys:info gw1"]
              example_shell) as (sh' & Hreading & Hquit).
  { repeat constructor. }
  exists sh'. split; [exact Hreading|].
  exact (Hquit "q" [Some "bye"] eq_refl).
Defined.

Lemma repl_turn_promptDef (resp : option string) (sh : Shell.Shell) :
  Shell._promptDef (snd (Shell.repl_turn resp sh)) = Shell._promptDef sh.
Proof.
  unfold Shell.repl_turn.
  destruct (Shell.match_tokens _) as [tokens|]; [|reflexivity].
  destruct (_ || _); [reflexivity|].
  destruct (Shell.lookup _ _); try reflexivity.
  now destruct (Shell.method info _ _) as [[e|u] c'].
Qed.

Lemma repl_promptDef (responses : list (option string)) (sh : Shell.Shell) :
  Shell._promptDef (shell_of (Shell._repl responses sh)) = Shell._promptDef sh.
Proof.
  revert sh. induction responses as [|resp responses IH]; intros sh;
    [reflexivity|].
  cbn [Shell._repl].
  pose proof (repl_turn_promptDef resp sh) as Hturn.
  destruct (Shell.repl_turn resp sh) as [done sh1]. cbn [snd] in Hturn.
  destruct done; [exact Hturn|]. now rewrite IH.
Qed.

(** X13.  A shell is launched once.  The launch that succeeds leaves the
    promise resolved when the loop has returned and pending while it is still
    reading; whatever was typed, any later [launch] on that shell throws, and
    so does a launch on a shell that holds a promise already. *)
Theorem launch_only_once (responses : list (option string)) (sh : Shell.Shell)
    (r : Shell.repl_result) :
  Shell.launch responses sh = inr r ->
  Shell._promptDef sh = None
  /\ Shell._promptDef (shell_of r)
     = Some (match r with
             | Shell.Returned _ _ => Shell.Resolved
             | Shell.Reading _ => Shell.Pending
             end)
  /\ forall later, Shell.launch later (shell_of r) = inl AlreadyLaunched.
Proof.
  unfold Shell.launch at 1.
  destruct (Shell._promptDef sh) eqn:Hdef; [discriminate|].
  pose proof (repl_promptDef responses
                (Shell.with_promptDef (Some Shell.Pending) sh)) as Hrepl.
  destruct (Shell._repl responses _) as [sh' unread | sh'];
    intros H; injection H as <-; cbn [shell_of] in *.
  - split; [reflexivity | split; [reflexivity | intros later; reflexivity]].
  - split; [reflexivity | split; [exact Hrepl | intros later]].
    unfold Shell.launch. now rewrite Hrepl.
Qed.

Lemma launch_only_once_witness :
  exists r,
    Shell.launch [Some "q"] example_shell = inr r
    /\ forall later, Shell.launch later (shell_of r) = inl AlreadyLaunched.
Proof.
  eexists. split; [reflexivity|].
  exact (proj2 (proj2 (launch_only_once [Some "q"] example_shell _ eq_refl))).
Defined.

(** ** Command families *)

Lemma family_entries (gateway verb category : string) :
  In verb family_verbs ->
  In category bound_categories ->
  exists method,
    Shell.lookup (Shell._buildCommandMap gateway) ("con:" ++ verb)
    = Shell.Own {| Shell.method := method; Shell.args := VArr [] |}
    /\ Shell.lookup (Shell._buildCommandMap gateway)
         ("con:" ++ verb ++ "_" ++ category)
       = Shell.Own {| Shell.method := method;
                      Shell.args := VArr [VStr category] |}
    /\ word ("con:" ++ verb) = true
    /\ word ("con:" ++ verb ++ "_" ++ category) = true
    /\ word category = true
    /\ "con:" ++ verb <> "q"
    /\ "con:" ++ verb ++ "_" ++ category <> "q"
    /\ category <> "quit".
Proof.
  intros Hverb Hcategory.
  repeat (destruct Hverb as [<- | Hverb]; [|]); try contradiction;
    repeat (destruct Hcategory as [<- | Hcategory]; [|]); try contradiction;
    (eexists; repeat split; try reflexivity; discriminate).
Qed.

(** X14.  The commands [con:stop], [con:start], [con:restart] and
    [con:list] each come in three more forms with the category bound,
    [_all], [_cloud] and [_device].  A line in a bound form does what the
    line in the plain form with the category as its first argument does,
    whatever follows, as long as the word after the command is not [quit]. *)
Theorem bound_category_is_first_argument (gateway verb category : string)
    (user : list string) (sh : Shell.Shell) :
  Shell._commandMap sh = Shell._buildCommandMap gateway ->
  In verb family_verbs ->
  In category bound_categories ->
  Forall (fun t => word t = true) user ->
  hd_error user <> Some "quit" ->
  Shell.repl_turn
    (Some (join " " (("con:" ++ verb ++ "_" ++ category) :: user))) sh
  = Shell.repl_turn
      (Some (join " " (("con:" ++ verb) :: category :: user))) sh.
Proof.
  intros Hmap Hverb Hcategory Huser Hquit.
  destruct (family_entries gateway verb category Hverb Hcategory)
    as (method & Hplain & Hbound & Hw1 & Hw2 & Hw3 & Hq1 & Hq2 & Hq3).
  unfold Shell.repl_turn.
  rewrite !words_tokens by (try discriminate; repeat constructor; assumption).
  cbn [Shell.token nth_error to_string is_str Shell._commandMap Shell.log].
  rewrite Hmap, Hplain, Hbound.
  apply String.eqb_neq in Hq1, Hq2, Hq3. rewrite Hq1, Hq2, Hq3.
  cbn [orb].
  assert (Hfirst : is_str (Shell.token 0 user) "quit" = false).
  { destruct user as [|t user]; [reflexivity|]. cbn.
    apply String.eqb_neq. intros ->. now apply Hquit. }
  change (Shell.token 1 (("con:" ++ verb ++ "_" ++ category) :: user))
    with (Shell.token 0 user).
  rewrite Hfirst.
  reflexivity.
Qed.

(** [con:restart_device d1] is [con:restart device d1]. *)
Lemma bound_category_is_first_argument_witness :
  Shell.repl_turn (Some "con:restart_device d1") example_shell
  = Shell.repl_turn (Some "con:restart device d1") example_shell.
Proof.
  apply (bound_category_is_first_argument "gw1" "restart" "device" ["d1"]).
  - reflexivity.
  - cbn. tauto.
  - cbn. tauto.
  - repeat constructor.
  - discriminate.
Defined.

(** ** Completion over a session *)

Lemma completions_empty_queries (commandMap : list (string * Shell.CommandInfo))
    (later : list string) (matches : list string) :
  Forall (fun q => q = EmptyString) later ->
  fold_left (fun matches partial => Shell._tabComplete commandMap partial matches)
    later matches
  = matches.
Proof.
  intros Hlater. revert matches.
  induction Hlater as [|q later -> _ IH]; intros matches; [reflexivity|].
  cbn [fold_left]. rewrite tabComplete_empty. apply IH.
Qed.

Lemma registered_names_distinct (gateway : string) :
  NoDup (Shell.command_names (Shell._buildCommandMap gateway)).
Proof.
  rewrite registered_command_names.
  match goal with
  | |- NoDup ?names =>
      replace names with (nodup string_dec names) by (vm_compute; reflexivity)
  end.
  apply NoDup_nodup.
Qed.

(** X15.  The completions a closure answers depend on the last query that
    was not empty and on nothing else: whatever was asked before it, and
    through any number of empty queries after it, the answer is the registered
    command names that contain that partial, each once, in the order of
    registration. *)
Theorem completions_answer_last_query (gateway : string)
    (earlier later : list string) (partial : string) :
  partial <> EmptyString ->
  Forall (fun q => q = EmptyString) later ->
  Shell.completions (Shell._buildCommandMap gateway)
    (earlier ++ partial :: later)%list
  = Shell.completions (Shell._buildCommandMap gateway) [partial]
  /\ NoDup (Shell.completions (Shell._buildCommandMap gateway) [partial])
  /\ forall name,
       In name (Shell.completions (Shell._buildCommandMap gateway) [partial])
       <-> In name (Shell.command_names (Shell._buildCommandMap gateway))
           /\ contains name partial.
Proof.
  intros Hpartial Hlater.
  assert (Hone : forall matches,
             Shell._tabComplete (Shell._buildCommandMap gateway) partial matches
             = Shell._tabComplete (Shell._buildCommandMap gateway) partial []).
  { intros matches. unfold Shell._tabComplete.
    destruct (partial =? EmptyString) eqn:E; [|reflexivity].
    apply String.eqb_eq in E. contradiction. }
  unfold Shell.completions. split; [|split].
  - rewrite fold_left_app. cbn [fold_left].
    rewrite completions_empty_queries by exact Hlater. apply Hone.
  - cbn [fold_left]. unfold Shell._tabComplete.
    destruct (partial =? EmptyString); [constructor|].
    apply NoDup_filter, registered_names_distinct.
  - intros name. cbn [fold_left]. now apply tabComplete_nonempty.
Qed.

(** The query [stop] after two others and before an empty one. *)
Lemma completions_answer_last_query_witness :
  Shell.completions (Shell._buildCommandMap "gw1")
    ["sys:"; EmptyString; "stop"; EmptyString]
  = Shell.completions (Shell._buildCommandMap "gw1") ["stop"].
Proof.
  refine (proj1 (completions_answer_last_query "gw1" ["sys:"; EmptyString]
                   [EmptyString] "stop" _ _)).
  - discriminate.
  - repeat constructor.
Defined.

(** ** Messages of the gateway *)

Lemma indexOf_from_later (i : Z) (s p : string) :
  indexOf_from i s p = (-1)%Z \/ (i <= indexOf_from i s p)%Z.
Proof.
  revert i. induction s as [|a s IH]; intros i; cbn [indexOf_from].
  - destruct (String.prefix p EmptyString); [right; lia | now left].
  - destruct (String.prefix p (String a s)); [right; lia|].
    destruct (IH (i + 1)%Z) as [H | H]; [now left | right; lia].
Qed.

(** [s.indexOf(p) === 0] says that [s] starts with [p]. *)
Lemma indexOf_zero (s p : string) :
  (indexOf s p =? 0)%Z = String.prefix p s.
Proof.
  unfold indexOf. destruct s as [|a s]; cbn [indexOf_from].
  - now destruct (String.prefix p EmptyString).
  - destruct (String.prefix p (String a s)); [reflexivity|].
    apply Z.eqb_neq. destruct (indexOf_from_later (0 + 1) s p); lia.
Qed.

Lemma substring_all (s : string) :
  String.substring 0 (String.length s) s = s.
Proof.
  induction s as [|a s IH]; [reflexivity|].
  cbn [String.length String.substring]. now rewrite IH.
Qed.

Lemma substring_skip (n : nat) (s : string) :
  n <= String.length s ->
  String.substring n (String.length s - n) s = skip n s.
Proof.
  revert s. induction n as [|n IH]; intros s Hn.
  - rewrite Nat.sub_0_r. apply substring_all.
  - destruct s as [|a s]; cbn [String.length] in *; [lia|].
    cbn [String.substring skip Nat.sub]. apply IH. lia.
Qed.

Lemma skip_all (n : nat) (s : string) :
  String.length s <= n -> skip n s = EmptyString.
Proof.
  revert s. induction n as [|n IH]; intros [|a s]; cbn [String.length skip];
    try reflexivity; try lia.
  intros H. apply IH. lia.
Qed.

Lemma substring_none (n : nat) (s : string) :
  String.substring n 0 s = EmptyString.
Proof.
  revert s. induction n as [|n IH]; intros [|a s]; cbn [String.substring];
    try reflexivity. apply IH.
Qed.

(** [s.substring(n)] drops the first [n] characters. *)
Lemma substring_from_skip (n : nat) (s : string) :
  Shell.substring_from s (Z.of_nat n) = skip n s.
Proof.
  unfold Shell.substring_from, substring, clamp.
  destruct (Nat.le_gt_cases n (String.length s)) as [Hle | Hgt].
  - replace (Z.min (Z.min (Z.max (Z.of_nat n) 0) (Z.of_nat (String.length s)))
               (Z.min (Z.max (Z.of_nat (String.length s)) 0)
                  (Z.of_nat (String.length s))))
      with (Z.of_nat n) by lia.
    replace (Z.max (Z.min (Z.max (Z.of_nat n) 0) (Z.of_nat (String.length s)))
               (Z.min (Z.max (Z.of_nat (String.length s)) 0)
                  (Z.of_nat (String.length s))) - Z.of_nat n)%Z
      with (Z.of_nat (String.length s - n)) by lia.
    rewrite !Nat2Z.id. now apply substring_skip.
  - replace (Z.min (Z.min (Z.max (Z.of_nat n) 0) (Z.of_nat (String.length s)))
               (Z.min (Z.max (Z.of_nat (String.length s)) 0)
                  (Z.of_nat (String.length s))))
      with (Z.of_nat (String.length s)) by lia.
    replace (Z.max (Z.min (Z.max (Z.of_nat n) 0) (Z.of_nat (String.length s)))
               (Z.min (Z.max (Z.of_nat (String.length s)) 0)
                  (Z.of_nat (String.length s)))
             - Z.of_nat (String.length s))%Z
      with 0%Z by lia.
    cbn [Z.to_nat]. rewrite substring_none. symmetry. apply skip_all. lia.
Qed.

(** X16.  A message of the gateway that starts with [[error]] is shown in
    red and one that starts with [[warn]] in yellow, each without its tag.
    Every other message is shown in blue without its first six characters,
    whether or not they are a tag: a message of six characters or fewer is
    shown as the empty text. *)
Theorem message_display (message : string) :
  (forall text, Shell.on_message ("[error]" ++ text) = Shell.Display Shell.Red text)
  /\ (forall text,
        Shell.on_message ("[warn]" ++ text) = Shell.Display Shell.Yellow text)
  /\ (String.prefix "[error]" message = false ->
      String.prefix "[warn]" message = false ->
      Shell.on_message message = Shell.Display Shell.Blue (skip 6 message))
  /\ (String.length message <= 6 ->
      String.prefix "[warn]" message = false ->
      Shell.on_message message = Shell.Display Shell.Blue EmptyString).
Proof.
  assert (Hother : String.prefix "[error]" message = false ->
                   String.prefix "[warn]" message = false ->
                   Shell.on_message message
                   = Shell.Display Shell.Blue (skip 6 message)).
  { intros He Hw. unfold Shell.on_message.
    rewrite !indexOf_zero, He, Hw.
    now rewrite (substring_from_skip 6). }
  split; [|split; [|split]].
  - intros text. unfold Shell.on_message. rewrite indexOf_zero.
    replace (String.prefix "[error]" ("[error]" ++ text)) with true
      by (symmetry; apply prefix_iff; now exists text).
    now rewrite (substring_from_skip 7).
  - intros text. unfold Shell.on_message. rewrite !indexOf_zero.
    replace (String.prefix "[warn]" ("[warn]" ++ text)) with true
      by (symmetry; apply prefix_iff; now exists text).
    replace (String.prefix "[error]" ("[warn]" ++ text)) with false
      by reflexivity.
    now rewrite (substring_from_skip 6).
  - exact Hother.
  - intros Hshort Hw. rewrite Hother; [now rewrite skip_all | | exact Hw].
    destruct (String.prefix "[error]" message) eqn:He; [|reflexivity].
    apply prefix_iff in He. destruct He as [t ->].
    rewrite length_append in Hshort. cbn [String.length] in Hshort. lia.
Qed.

(** ** The Lepton camera command *)

Lemma parseInt_cases (v : value) :
  (exists x, Shell.parseInt v = number_value x) \/ Shell.parseInt v = VNaN.
Proof.
  unfold Shell.parseInt.
  destruct (match Shell.trim_left (to_string v) with
            | String c r =>
                if (c =? "-")%char then (true, r)
                else if (c =? "+")%char then (false, r)
                else (false, Shell.trim_left (to_string v))
            | EmptyString => (false, Shell.trim_left (to_string v))
            end) as [negative s].
  destruct (match s with
            | String z (String x r) =>
                if (z =? "0")%char && ((x =? "x")%char || (x =? "X")%char)
                then Shell.hex_run None r else Shell.dec_run s
            | _ => Shell.dec_run s
            end) as [n|]; [left; eauto | now right].
Qed.

Lemma number_is_not_NaN (x : Double.number) :
  Shell.isNaN (number_value x) = false.
Proof. now destruct x. Qed.

(** X17.  Whatever the options of [con:config_lepton] hold, the request it
    publishes carries a poll frequency and a number of retries that are never
    [NaN]: each is the Number value of the integer [parseInt] reads at the
    start of the option (an infinity, which the message holds as [null], when
    the digits go beyond the largest number), and [60000] and [600] where it
    reads no number.  The request goes to the device connector the option
    [id] names; without an id that is a non-empty string the command throws
    and publishes nothing. *)
Theorem lepton_settings_are_numbers (props : list (string * value))
    (c : Commander) :
  exists pollFrequency maxRetries : Double.number,
    Shell.config_lepton [VObj props] c
    = (if not_nonempty_string (get (VObj props) "id")
       then (inl (InvalidId (get (VObj props) "id")), c)
       else _sendPayload
              (lepton_request (get (VObj props) "id") pollFrequency maxRetries)
              VUndefined c)
    /\ (Shell.parseInt (get (VObj props) "pollFrequency")
        = number_value pollFrequency
        \/ Shell.parseInt (get (VObj props) "pollFrequency") = VNaN
           /\ pollFrequency = Double.Int 60000)
    /\ (Shell.parseInt (get (VObj props) "maxRetries") = number_value maxRetries
        \/ Shell.parseInt (get (VObj props) "maxRetries") = VNaN
           /\ maxRetries = Double.Int 600).
Proof.
  assert (Hcall : forall p r,
             updateConnectorConfig (VStr "device") (get (VObj props) "id")
               (VObj [ ("type", VStr "LeptonCamera");
                       ("config",
                        VObj [ ("pollFrequency", number_value p);
                               ("spiDevice", VStr "/dev/spidev0.1");
                               ("i2cDevice", VStr "/dev/i2c-1");
                               ("maxRetries", number_value r) ]) ]) VUndefined c
             = if not_nonempty_string (get (VObj props) "id")
               then (inl (InvalidId (get (VObj props) "id")), c)
               else _sendPayload
                      (lepton_request (get (VObj props) "id") p r) VUndefined c).
  { intros p r. unfold updateConnectorConfig.
    rewrite bind_guard. cbn [is_str String.eqb Ascii.eqb Bool.eqb negb andb].
    rewrite bind_guard.
    now destruct (not_nonempty_string (get (VObj props) "id")). }
  unfold Shell.config_lepton. cbn [Shell.arg nth]. get_put.
  destruct (parseInt_cases (get (VObj props) "pollFrequency")) as [[p Hp] | Hp];
    destruct (parseInt_cases (get (VObj props) "maxRetries")) as [[r Hr] | Hr];
    rewrite Hp, Hr; rewrite ?number_is_not_NaN; cbn [Shell.isNaN]; get_put;
    rewrite ?number_is_not_NaN; cbn [Shell.isNaN]; get_put.
  - exists p, r. rewrite Hcall. auto.
  - exists p, (Double.Int 600).
    change (VNum 600) with (number_value (Double.Int 600)).
    rewrite Hcall. auto.
  - exists (Double.Int 60000), r.
    change (VNum 60000) with (number_value (Double.Int 60000)).
    rewrite Hcall. auto.
  - exists (Double.Int 60000), (Double.Int 600).
    change (VNum 600) with (number_value (Double.Int 600)).
    change (VNum 60000) with (number_value (Double.Int 60000)).
    rewrite Hcall. auto.
Qed.

(** What [parseInt] reads: the digits at the start, in base sixteen after
    [0x]; beyond 2^53 the nearest binary64 value; and from four hundred
    digits an infinity, which the message holds as [null]. *)
Lemma parseInt_examples :
  Shell.parseInt (VStr " 12px") = VNum 12
  /\ Shell.parseInt (VStr "-0x1f") = VNum (-31)
  /\ Shell.parseInt (VStr "fast") = VNaN
  /\ Shell.parseInt (VStr "9007199254740993") = VNum 9007199254740992
  /\ Shell.parseInt (VStr (String "1" (Double.zeros 400)))
     = VFloat (Double.Infinity false)
  /\ JSON.stringify (Shell.parseInt (VStr (String "1" (Double.zeros 400))))
     = VStr "null".
Proof. repeat (split; [vm_compute; reflexivity|]). vm_compute. reflexivity. Qed.

(** ** Arguments of the program *)

(** X18.  When the prompt reports an error, the promise is rejected with
    it and neither the arguments nor [GLOBAL.config] change.  When it answers,
    the promise is resolved and each connection field of [GLOBAL.config] is
    the value given on the command line, where there is one, and the answer of
    the prompt where there is none: an argument of the command line is never
    replaced by an answer.  The session id is always the one of the command
    line. *)
Theorem prompt_fills_missing_arguments (_args answers : list (string * value))
    (config err : value) :
  exists args' config',
    ArgParser.ensureArgs _args config err (VObj answers)
    = (if truthy err then (ArgParser.Rejected err, _args, config)
       else (ArgParser.Resolved, args', config'))
    /\ (forall field name,
          In (field, name) connection_fields ->
          get config' field
          = (if truthy (get (VObj _args) name) then get (VObj _args) name
             else get (VObj answers) name)
          /\ get (VObj args') name = get config' field)
    /\ get config' "cfg_session_id" = get (VObj _args) "sessionId".
Proof.
  assert (Hanswered : forall (schema : list string)
                              (Y : ArgParser.promise
                                   * list (string * value) * value),
             match schema with
             | [] => Y
             | _ :: _ => Y
             end = Y) by (intros [|p schema] Y; reflexivity).
  unfold ArgParser.ensureArgs, ArgParser._getPromptSchemaForMissingArgs.
  eexists. eexists. split; [|split].
  - destruct (truthy err); [reflexivity|]. rewrite Hanswered. reflexivity.
  - intros field name Hfield. unfold get.
    destruct (truthy match assoc "brokerEndpoint" _args with
                     | Some v => v
                     | None => VUndefined
                     end) eqn:Hb;
      destruct (truthy match assoc "gateway" _args with
                       | Some v => v
                       | None => VUndefined
                       end) eqn:Hg;
      destruct (truthy match assoc "username" _args with
                       | Some v => v
                       | None => VUndefined
                       end) eqn:Hu;
      destruct (truthy match assoc "password" _args with
                       | Some v => v
                       | None => VUndefined
                       end) eqn:Hp;
      cbn [negb app fold_left];
      repeat (destruct Hfield as [Hfield | Hfield];
              [injection Hfield as <- <-|]); try contradiction;
      cbn [assoc String.eqb Ascii.eqb Bool.eqb];
      repeat first [ rewrite assoc_put_same
                   | rewrite assoc_put_other by discriminate ];
      rewrite ?Hb, ?Hg, ?Hu, ?Hp; split; reflexivity.
  - unfold get.
    destruct (truthy match assoc "brokerEndpoint" _args with
                     | Some v => v
                     | None => VUndefined
                     end);
      destruct (truthy match assoc "gateway" _args with
                       | Some v => v
                       | None => VUndefined
                       end);
      destruct (truthy match assoc "username" _args with
                       | Some v => v
                       | None => VUndefined
                       end);
      destruct (truthy match assoc "password" _args with
                       | Some v => v
                       | None => VUndefined
                       end);
      cbn [negb app fold_left];
      cbn [assoc String.eqb Ascii.eqb Bool.eqb];
      now rewrite ?assoc_put_other by discriminate.
Qed.

(** ** What a session keeps *)

(** Every registered command runs one call of the Commander on some
    arguments, or throws a TypeError before it gets to one. *)
Lemma registered_methods (gateway : string) :
  Forall (fun entry =>
            forall a c,
              (exists o, Shell.method (snd entry) a c = exec o c)
              \/ Shell.method (snd entry) a c = (inl TypeError, c))
    (Shell._buildCommandMap gateway).
Proof.
  cbv - [stopConnector startConnector restartConnector listConnectors
         sendDataToConnector updateConnectorConfig deleteConnectorConfig
         updateConnectorType sysInfo resetAgent terminateAgent upgradeAgent
         rebootGateway initAgent Shell.config_lepton Shell.arg exec].
  repeat apply Forall_cons; try apply Forall_nil; intros a c; cbv beta iota;
    match goal with
    | |- (exists o, stopConnector ?x ?y ?z _ = _) \/ _ =>
        left; now exists (StopConnector x y z)
    | |- (exists o, startConnector ?x ?y ?z _ = _) \/ _ =>
        left; now exists (StartConnector x y z)
    | |- (exists o, restartConnector ?x ?y ?z _ = _) \/ _ =>
        left; now exists (RestartConnector x y z)
    | |- (exists o, listConnectors ?x ?y _ = _) \/ _ =>
        left; now exists (ListConnectors x y)
    | |- (exists o, sendDataToConnector ?w ?x ?y ?z _ = _) \/ _ =>
        left; now exists (SendDataToConnector w x y z)
    | |- (exists o, updateConnectorConfig ?w ?x ?y ?z _ = _) \/ _ =>
        left; now exists (UpdateConnectorConfig w x y z)
    | |- (exists o, deleteConnectorConfig ?x ?y ?z _ = _) \/ _ =>
        left; now exists (DeleteConnectorConfig x y z)
    | |- (exists o, updateConnectorType ?x ?y ?z _ = _) \/ _ =>
        left; now exists (UpdateConnectorType x y z)
    | |- (exists o, sysInfo ?x _ = _) \/ _ =>
        left; now exists (SysInfo x VUndefined)
    | |- (exists o, resetAgent ?x _ = _) \/ _ =>
        left; now exists (ResetAgent x VUndefined)
    | |- (exists o, terminateAgent ?x _ = _) \/ _ =>
        left; now exists (TerminateAgent x)
    | |- (exists o, upgradeAgent ?x _ = _) \/ _ =>
        left; now exists (UpgradeAgent x)
    | |- (exists o, rebootGateway ?x _ = _) \/ _ =>
        left; now exists (RebootGateway x)
    | |- (exists o, initAgent ?x ?y _ = _) \/ _ =>
        left; now exists (InitAgent x y)
    | |- (exists o, Shell.config_lepton ?a _ = _) \/ _ =>
        unfold Shell.config_lepton;
        destruct (Shell.arg 0 a) as [ | | b | | n | f | s | elems | props];
        [ now right | now right | now right | now right | now right | now right
        | now right
        | left; eexists (UpdateConnectorConfig _ _ _ _); reflexivity
        | left; eexists (UpdateConnectorConfig _ _ _ _); reflexivity ]
    end.
Qed.

Lemma own_In (name : string) (commandMap : list (string * Shell.CommandInfo))
    (info : Shell.CommandInfo) :
  Shell.own name commandMap = Some info ->
  exists name', In (name', info) commandMap.
Proof.
  induction commandMap as [|[name' info'] commandMap IH]; cbn [Shell.own];
    [discriminate|].
  destruct (name' =? name).
  - intros H. injection H as <-. exists name'. now left.
  - intros H. destruct (IH H) as [n Hn]. exists n. now right.
Qed.

Lemma lookup_own (commandMap : list (string * Shell.CommandInfo))
    (name : string) (info : Shell.CommandInfo) :
  Shell.lookup commandMap name = Shell.Own info ->
  Shell.own name commandMap = Some info.
Proof.
  unfold Shell.lookup. destruct (Shell.own name commandMap) as [info'|].
  - intros H. now injection H as ->.
  - now destruct (existsb _ _).
Qed.

Lemma kept_refl (c : Commander) (n : nat) : kept_since c c n.
Proof.
  repeat split. exists []. rewrite List.app_nil_r.
  repeat split; [cbn; lia | constructor].
Qed.

Lemma kept_sent (c : Commander) (suffix : string) (message : value)
    (counter : N) :
  kept_since c (sent (_topicPrefix c ++ suffix) message counter c) 1.
Proof.
  repeat split. exists [(_topicPrefix c ++ suffix, message)].
  repeat split; [cbn; lia|].
  constructor; [|constructor]. apply prefix_iff. now exists suffix.
Qed.

Lemma kept_exec (o : operation) (c : Commander) :
  kept_since c (snd (exec o c)) 1.
Proof.
  destruct (exec_effect o c) as [[e H] | [[_ [m H]] | [_ [m H]]]]; rewrite H;
    [apply kept_refl | apply kept_sent | apply kept_sent].
Qed.

Lemma kept_trans (c c' c'' : Commander) (n m : nat) :
  kept_since c c' n -> kept_since c' c'' m -> kept_since c c'' (n + m).
Proof.
  intros (Hp & Hs & Hsub & new & Hnew & Hlen & Htopics)
         (Hp' & Hs' & Hsub' & new' & Hnew' & Hlen' & Htopics').
  repeat split; try congruence.
  exists (new ++ new')%list. repeat split.
  - now rewrite Hnew', Hnew, List.app_assoc.
  - rewrite length_app. lia.
  - apply Forall_app. split; [exact Htopics|]. now rewrite <- Hp.
Qed.

Lemma turn_kept (gateway : string) (resp : option string) (sh : Shell.Shell) :
  Shell._commandMap sh = Shell._buildCommandMap gateway ->
  Shell._commandMap (snd (Shell.repl_turn resp sh)) = Shell._commandMap sh
  /\ kept_since (Shell._commander sh)
       (Shell._commander (snd (Shell.repl_turn resp sh))) 1.
Proof.
  intros Hmap. unfold Shell.repl_turn.
  destruct (Shell.match_tokens _) as [tokens|];
    [|split; [reflexivity | apply kept_refl]].
  destruct (_ || _); [split; [reflexivity | apply kept_refl]|].
  destruct (Shell.lookup _ _) as [info | | ] eqn:Hlookup;
    try (split; [reflexivity | apply kept_refl]).
  cbn [Shell.log Shell._commandMap Shell._commander] in *.
  apply lookup_own, own_In in Hlookup. destruct Hlookup as [name Hin].
  rewrite Hmap in Hin.
  pose proof (proj1 (Forall_forall _ _) (registered_methods gateway) _ Hin
                (Shell._applyArgs (Shell.args info) tokens)
                (Shell._commander sh)) as Hmethod.
  cbn [snd] in Hmethod.
  destruct Hmethod as [[o Ho] | Ht]; [rewrite Ho | rewrite Ht].
  - pose proof (kept_exec o (Shell._commander sh)) as Hkept.
    destruct (exec o (Shell._commander sh)) as [[e | u] c'];
      (split; [reflexivity | exact Hkept]).
  - split; [reflexivity | apply kept_refl].
Qed.

(** X19.  Whatever is typed in a session, the shell publishes at most one
    message for each line it has read, every one of them on a topic under the
    topic prefix of its Commander, and nothing else changes: not the topic
    prefix, the session id or the subscriptions, and no message published
    before is changed or removed. *)
Theorem session_keeps_to_its_gateway (gateway : string)
    (responses : list (option string)) (sh : Shell.Shell) :
  Shell._commandMap sh = Shell._buildCommandMap gateway ->
  kept_since (Shell._commander sh)
    (Shell._commander (shell_of (Shell._repl responses sh)))
    (length responses).
Proof.
  revert sh. induction responses as [|resp responses IH]; intros sh Hmap;
    [apply kept_refl|].
  cbn [Shell._repl length].
  destruct (turn_kept gateway resp sh Hmap) as [Hmap' Hturn].
  destruct (Shell.repl_turn resp sh) as [done sh1]. cbn [snd] in *.
  destruct done; cbn [shell_of].
  - destruct Hturn as (Hp & Hs & Hsub & new & Hnew & Hlen & Htopics).
    repeat split; try assumption. exists new. repeat split; try assumption. lia.
  - change (S (length responses)) with (1 + length responses).
    apply (kept_trans _ _ _ _ _ Hturn). apply IH. congruence.
Qed.

(** Three lines at the example shell: a command, an unknown command and a
    command that throws. *)
Lemma session_keeps_to_its_gateway_witness :
  kept_since (Shell._commander example_shell)
    (Shell._commander
       (shell_of
          (Shell._repl [Some "sys:info gw1"; Some "nothing"; Some "con:stop x"]
             example_shell)))
    3.
Proof.
  exact (session_keeps_to_its_gateway "gw1"
           [Some "sys:info gw1"; Some "nothing"; Some "con:stop x"]
           example_shell eq_refl).
Defined.

(** ** Every token is a word *)

Lemma flush_words (quoted : bool) (cur : option string) :
  quoted = false ->
  match cur with
  | None => True
  | Some t =>
      t <> EmptyString
      /\ forall r, balanced quoted r = true -> balanced false (t ++ r) = true
  end ->
  Forall (fun t => word t = true) (Shell.flush cur).
Proof.
  intros -> Hcur. destruct cur as [t|]; cbn [Shell.flush]; [|constructor].
  destruct Hcur as [Hne Hbal]. constructor; [|constructor].
  unfold word. apply andb_true_intro. split.
  - apply negb_true_iff, String.eqb_neq, Hne.
  - rewrite <- (append_nil_r t). now apply Hbal.
Qed.

Lemma extend_grows (quoted quoted' : bool) (cur : option string) (c : ascii) :
  (cur = None -> quoted = false) ->
  (forall r, balanced quoted' r = true -> balanced quoted (String c r) = true) ->
  match cur with
  | None => True
  | Some t =>
      t <> EmptyString
      /\ forall r, balanced quoted r = true -> balanced false (t ++ r) = true
  end ->
  match Shell.extend cur c with
  | None => True
  | Some t =>
      t <> EmptyString
      /\ forall r, balanced quoted' r = true -> balanced false (t ++ r) = true
  end.
Proof.
  intros Hnone Hstep Hcur. destruct cur as [t|]; cbn [Shell.extend].
  - destruct Hcur as [Hne Hbal]. split.
    + destruct t; discriminate.
    + intros r Hr. rewrite append_assoc. cbn [append]. now apply Hbal, Hstep.
  - split; [discriminate|]. intros r Hr. cbn [append].
    rewrite <- (Hnone eq_refl). now apply Hstep.
Qed.

Lemma scan_sound (s : string) :
  forall (quoted : bool) (cur : option string),
    (quoted = true -> Shell.has_apostrophe s = true) ->
    (cur = None -> quoted = false) ->
    match cur with
    | None => True
    | Some t =>
        t <> EmptyString
        /\ forall r, balanced quoted r = true -> balanced false (t ++ r) = true
    end ->
    Forall (fun t => word t = true) (Shell.scan quoted cur s).
Proof.
  induction s as [|c s IH]; intros quoted cur Hclose Hnone Hcur;
    cbn [Shell.scan].
  - apply (flush_words quoted); [|exact Hcur].
    destruct quoted; [discriminate (Hclose eq_refl) | reflexivity].
  - destruct quoted.
    + apply IH.
      * intros Hq. specialize (Hclose eq_refl). cbn [Shell.has_apostrophe] in Hclose.
        apply negb_true_iff in Hq. now rewrite Hq in Hclose.
      * destruct cur; [discriminate | intros _; now discriminate (Hnone eq_refl)].
      * apply (extend_grows true); [exact Hnone | | exact Hcur].
        intros r Hr. exact Hr.
    + destruct (c =? Shell.apostrophe)%char eqn:Hc.
      * destruct (Shell.has_apostrophe s) eqn:Hs.
        -- apply IH; [now intros _ | |].
           ++ destruct cur; discriminate.
           ++ apply (extend_grows false); [exact Hnone | | exact Hcur].
              intros r Hr. cbn [balanced]. now rewrite Hc.
        -- apply Forall_app. split.
           ++ now apply (flush_words false).
           ++ apply IH; [discriminate | reflexivity | exact I].
      * destruct (Shell.is_space c) eqn:Hw.
        -- apply Forall_app. split.
           ++ now apply (flush_words false).
           ++ apply IH; [discriminate | reflexivity | exact I].
        -- apply IH; [discriminate | reflexivity |].
           apply (extend_grows false); [exact Hnone | | exact Hcur].
           intros r Hr. cbn [balanced]. now rewrite Hc, Hw.
Qed.

(** X20.  Whatever the line, each token the shell cuts it into is a word:
    it is not empty, it has no white space outside apostrophes, and its
    apostrophes come in pairs.  An apostrophe that nothing closes is in no
    token. *)
Theorem tokens_are_words (line : string) (tokens : list string) :
  Shell.match_tokens line = Some tokens ->
  tokens <> [] /\ Forall (fun t => word t = true) tokens.
Proof.
  unfold Shell.match_tokens. intros Hline.
  assert (Hscan : tokens = Shell.scan false None line).
  { destruct (Shell.scan false None line); [discriminate | now injection Hline]. }
  split.
  - intros ->. now rewrite <- Hscan in Hline.
  - rewrite Hscan. apply scan_sound; [discriminate | reflexivity | exact I].
Qed.

(** A line with two spaces in a row and an apostrophe that nothing closes. *)
Lemma tokens_are_words_witness :
  Shell.match_tokens "con:stop  cloud 'a b" = Some ["con:stop"; "cloud"; "a"; "b"]
  /\ Forall (fun t => word t = true) ["con:stop"; "cloud"; "a"; "b"].
Proof.
  split; [reflexivity|].
  exact (proj2 (tokens_are_words "con:stop  cloud 'a b"
                  ["con:stop"; "cloud"; "a"; "b"] eq_refl)).
Defined.

(** ** Commands that cannot succeed as typed *)

Lemma with_commander_same (sh : Shell.Shell) :
  Shell.with_commander (Shell._commander sh) sh = sh.
Proof. now destruct sh. Qed.

Lemma first_token_quit (user : list string) :
  is_str (Shell.token 0 user) "quit" = followed_by_quit user.
Proof. now destruct user. Qed.

(** X21.  The command [con:list_all] is registered, and completed by the
    tab key, but it cannot list anything: [listConnectors] takes no category
    or one of cloud and device, and the category the command comes bound to
    is [all].  Whatever follows it on the line, nothing is published: the
    turn ends the loop when the word after the command is [quit], and throws
    an invalid category error otherwise. *)
Theorem list_all_never_lists (gateway : string) (user : list string)
    (sh : Shell.Shell) :
  Shell._commandMap sh = Shell._buildCommandMap gateway ->
  Forall (fun t => word t = true) user ->
  In "con:list_all" (Shell.completions (Shell._commandMap sh) ["list"])
  /\ Shell.repl_turn (Some (join " " ("con:list_all" :: user))) sh
     = (if followed_by_quit user then (true, Shell.log Shell.Prompt sh)
        else
          (false,
           Shell.log (Shell.Thrown (InvalidCategory (VStr "all")))
             (Shell.log Shell.Prompt sh)))
  /\ Shell._commander
       (snd (Shell.repl_turn (Some (join " " ("con:list_all" :: user))) sh))
     = Shell._commander sh.
Proof.
  intros Hmap Huser.
  assert (Hturn :
            Shell.repl_turn (Some (join " " ("con:list_all" :: user))) sh
            = (if followed_by_quit user then (true, Shell.log Shell.Prompt sh)
               else
                 (false,
                  Shell.log (Shell.Thrown (InvalidCategory (VStr "all")))
                    (Shell.log Shell.Prompt sh)))).
  { unfold Shell.repl_turn.
    rewrite words_tokens by (try discriminate; now constructor).
    change (Shell.token 1 ("con:list_all" :: user)) with (Shell.token 0 user).
    rewrite (first_token_quit user).
    destruct (followed_by_quit user); [now rewrite orb_true_r|].
    cbn [Shell.token nth_error to_string is_str Shell._commandMap Shell.log
         String.eqb Ascii.eqb Bool.eqb orb].
    rewrite Hmap.
    change (Shell.lookup (Shell._buildCommandMap gateway) "con:list_all")
      with (Shell.Own
              {| Shell.method :=
                   fun a => listConnectors (Shell.arg 0 a) (Shell.arg 1 a);
                 Shell.args := VArr [VStr "all"] |}).
    cbn [Shell.method Shell.args Shell._applyArgs or truthy tl app Shell.arg nth].
    unfold listConnectors. rewrite bind_guard.
    cbn [is_undefined is_str String.eqb Ascii.eqb Bool.eqb negb andb
         Shell._commander].
    change (Shell.with_commander (Shell._commander sh) ?s)
      with (Shell.with_commander (Shell._commander s) s).
    now rewrite with_commander_same. }
  split; [|split].
  - rewrite Hmap. cbn. tauto.
  - exact Hturn.
  - rewrite Hturn. now destruct (followed_by_quit user).
Qed.

(** The line [con:list_all r1], and the line [con:list_all quit]. *)
Lemma list_all_never_lists_witness :
  Shell.repl_turn (Some "con:list_all r1") example_shell
  = (false,
     Shell.log (Shell.Thrown (InvalidCategory (VStr "all")))
       (Shell.log Shell.Prompt example_shell))
  /\ Shell.repl_turn (Some "con:list_all quit") example_shell
     = (true, Shell.log Shell.Prompt example_shell).
Proof.
  split.
  - refine (proj1 (proj2 (list_all_never_lists "gw1" ["r1"] example_shell
                            eq_refl _))).
    repeat constructor.
  - refine (proj1 (proj2 (list_all_never_lists "gw1" ["quit"] example_shell
                            eq_refl _))).
    repeat constructor.
Defined.

Lemma initAgent_refuses (options requestId : value) (c : Commander) :
  accepted options = false ->
  exists e, initAgent options requestId c = (inl e, c) /\ kind e = InvalidArgument.
Proof.
  unfold accepted, initAgent.
  rewrite bind_guard.
  destruct (truthy options); cbn [negb orb andb];
    [|intros _; eexists; split; reflexivity].
  destruct (typeof options =? "object"); cbn [negb orb andb];
    [|intros _; eexists; split; reflexivity].
  do 5 (rewrite bind_guard;
        match goal with
        | |- context [if ?b then (inl _, _) else _] =>
            destruct b; cbn [negb andb];
            [intros _; eexists; split; reflexivity|]
        end).
  discriminate.
Qed.

Lemma applyArgs_keeps_unnamed (defaults : list (string * value))
    (command : string) (userArgs : list string) (k : string) :
  k <> "__proto__" ->
  Forall (fun arg => key_of arg <> k) userArgs ->
  exists finalArgs,
    Shell._applyArgs (VObj defaults) (command :: userArgs) = [VObj finalArgs]
    /\ get (VObj finalArgs) k = get (VObj defaults) k.
Proof.
  intros Hk Hargs. unfold Shell._applyArgs. cbn [or truthy tl].
  revert defaults. induction Hargs as [|arg userArgs Harg _ IH]; intros p.
  - now exists p.
  - cbn [fold_left].
    destruct (assign_property_get p arg k Hk) as (p' & Hp' & Hget).
    apply String.eqb_neq in Harg. rewrite Harg in Hget.
    rewrite Hp', <- Hget. apply IH.
Qed.

(** X22.  The provisioning commands [agent:prov_dev] and [agent:prov_prod]
    come with a template in which the new gateway name, the user name and the
    password are empty.  A line that leaves one of them out, with no token
    [name=...] for it, publishes nothing: the turn ends the loop when the
    word after the command is [quit], and throws an InvalidArgument error
    otherwise. *)
Theorem provisioning_needs_its_names (gateway environment name : string)
    (userArgs : list string) (sh : Shell.Shell) :
  Shell._commandMap sh = Shell._buildCommandMap gateway ->
  In environment provisioning_environments ->
  In name provisioning_names ->
  Forall (fun t => word t = true) userArgs ->
  Forall (fun arg => key_of arg <> name) userArgs ->
  exists e,
    kind e = InvalidArgument
    /\ Shell.repl_turn
         (Some (join " " (("agent:prov_" ++ environment) :: userArgs))) sh
       = (if followed_by_quit userArgs then (true, Shell.log Shell.Prompt sh)
          else (false, Shell.log (Shell.Thrown e) (Shell.log Shell.Prompt sh)))
    /\ Shell._commander
         (snd (Shell.repl_turn
                 (Some (join " " (("agent:prov_" ++ environment) :: userArgs)))
                 sh))
       = Shell._commander sh.
Proof.
  intros Hmap Henv Hname Hwords Hunnamed.
  assert (Hentry : exists defaults,
             Shell.lookup (Shell._buildCommandMap gateway)
               ("agent:prov_" ++ environment)
             = Shell.Own
                 {| Shell.method :=
                      fun a => initAgent (Shell.arg 0 a) (Shell.arg 1 a);
                    Shell.args := VObj defaults |}
             /\ get (VObj defaults) name = VStr EmptyString
             /\ word ("agent:prov_" ++ environment) = true
             /\ ("agent:prov_" ++ environment =? "q") = false
             /\ name <> "__proto__").
  { repeat (destruct Henv as [<- | Henv]; [|]); try contradiction;
      repeat (destruct Hname as [<- | Hname]; [|]); try contradiction;
      (eexists; repeat split; try reflexivity; discriminate). }
  destruct Hentry as (defaults & Hlookup & Hdefault & Hword & Hq & Hproto).
  destruct (applyArgs_keeps_unnamed defaults ("agent:prov_" ++ environment)
              userArgs name Hproto Hunnamed) as (finalArgs & Hargs & Hget).
  destruct (initAgent_refuses (VObj finalArgs) (Shell.arg 1 [VObj finalArgs])
              (Shell._commander sh)) as (e & He & Hkind).
  { rewrite Hdefault in Hget. unfold accepted.
    repeat (destruct Hname as [<- | Hname]; [|]); try contradiction;
      rewrite Hget; cbn [not_nonempty_string String.length Z.of_nat Z.leb
                         Z.compare negb andb];
      now rewrite ?andb_false_r. }
  exists e. split; [exact Hkind|].
  assert (Hturn :
            Shell.repl_turn
              (Some (join " " (("agent:prov_" ++ environment) :: userArgs))) sh
            = (if followed_by_quit userArgs
               then (true, Shell.log Shell.Prompt sh)
               else (false,
                     Shell.log (Shell.Thrown e) (Shell.log Shell.Prompt sh)))).
  { unfold Shell.repl_turn.
    rewrite words_tokens by (try discriminate; now constructor).
    change (Shell.token 1 (("agent:prov_" ++ environment) :: userArgs))
      with (Shell.token 0 userArgs).
    rewrite (first_token_quit userArgs).
    destruct (followed_by_quit userArgs); [now rewrite orb_true_r|].
    cbn [Shell.token nth_error to_string is_str Shell._commandMap Shell.log].
    rewrite Hq, Hmap, Hlookup. cbn [orb Shell.method Shell.args].
    rewrite Hargs. cbv beta.
    cbn [Shell.arg nth Shell._commander Shell.log] in *. rewrite He.
    change (Shell.with_commander (Shell._commander sh) ?s)
      with (Shell.with_commander (Shell._commander s) s).
    now rewrite with_commander_same. }
  split; [exact Hturn|].
  rewrite Hturn. now destruct (followed_by_quit userArgs).
Qed.

(** [agent:prov_dev] with a user name and a password but no gateway name. *)
Lemma provisioning_needs_its_names_witness :
  exists e,
    kind e = InvalidArgument
    /\ Shell.repl_turn (Some "agent:prov_dev username=bob password=pw")
         example_shell
       = (false, Shell.log (Shell.Thrown e) (Shell.log Shell.Prompt example_shell))
    /\ Shell._commander
         (snd (Shell.repl_turn (Some "agent:prov_dev username=bob password=pw")
                 example_shell))
       = Shell._commander example_shell.
Proof.
  apply (provisioning_needs_its_names "gw1" "dev" "newGatewayName"
           ["username=bob"; "password=pw"] example_shell).
  - reflexivity.
  - cbn. tauto.
  - cbn. tauto.
  - repeat constructor.
  - repeat constructor; discriminate.
Defined.
